(** * Calendario: weekly calendar, layout engine and state reconciliation

    A shallow embedding of the TypeScript sources of the calendar
    application: the time arithmetic and the per-day overlap layout of
    [CalendarGrid], the assistant action reconciler, the event and category
    save paths of [App], and the validation of [EventModal] and
    [CategoryManagerModal].

    Conventions of the embedding.
    - A JavaScript string is a sequence of UTF-16 code units; [string]
      carries the code units below 256.
    - A JavaScript number is a binary64 value ([num]): NaN, an infinity
      or a finite value, held as the rational it is; every arithmetic
      operation rounds its exact result to binary64 ([Binary64.round]).
      The sign of zero is not kept: the program never divides by a computed
      zero, and nothing else tells -0 from +0.
    - A JavaScript object used as a map is an association list holding the
      own properties in the order [Object.values] and [Object.entries]
      visit them.  A key that only [Object.prototype] answers
      ([Obj.inherits]) gives a member that is not a string; such a value
      has no place in a field declared [string], and the statements about
      [map[key]] name the keys they cover.
    - Values have the types the TypeScript declarations give them, so the
      run-time tests on [typeof] are not modelled.
    - Host functions whose result depends on the engine or on the locale
      ([Date] parsing, [String.prototype.localeCompare]) are parameters;
      the clock and the random source are explicit state ([World]). *)

From Stdlib Require Import String Ascii List Bool Arith ZArith QArith Lia Lqa.
From Stdlib Require Import Permutation Sorted SpecFloat.
Import ListNotations.

Local Open Scope string_scope.
Local Open Scope Z_scope.

(** ** Strings *)

Module Str.

Definition code (c : ascii) : N := N_of_ascii c.

(** WhiteSpace and LineTerminator code units below 256: TAB, LF, VT, FF,
    CR, SP and NBSP. *)
Definition isWhiteSpace (c : ascii) : bool :=
  let n := code c in
  ((9 <=? n) && (n <=? 13) || (n =? 32) || (n =? 160))%N.

Fixpoint trimStart (s : string) : string :=
  match s with
  | EmptyString => EmptyString
  | String c r => if isWhiteSpace c then trimStart r else s
  end.

Fixpoint trimEnd (s : string) : string :=
  match s with
  | EmptyString => EmptyString
  | String c r =>
      let r' := trimEnd r in
      if isWhiteSpace c && (r' =? "")%string then EmptyString else String c r'
  end.

(** [String.prototype.trim] *)
Definition trim (s : string) : string := trimEnd (trimStart s).

(** [String.prototype.toLowerCase] on code units below 256: the ASCII
    capitals and the Latin-1 capitals U+00C0..U+00DE except U+00D7. *)
Definition lowerChar (c : ascii) : ascii :=
  let n := code c in
  if ((65 <=? n) && (n <=? 90))%N
     || ((192 <=? n) && (n <=? 222) && negb (n =? 215))%N
  then ascii_of_N (n + 32) else c.

Fixpoint toLowerCase (s : string) : string :=
  match s with
  | EmptyString => EmptyString
  | String c r => String (lowerChar c) (toLowerCase r)
  end.

(** [s.includes(c)] for a one-unit needle. *)
Fixpoint includes (s : string) (c : ascii) : bool :=
  match s with
  | EmptyString => false
  | String d r => Ascii.eqb d c || includes r c
  end.

(** [s.split(c)] for a one-unit separator: the pieces between
    separators, always at least one. *)
Fixpoint split (sep : ascii) (s : string) : list string :=
  match s with
  | EmptyString => [EmptyString]
  | String c r =>
      if Ascii.eqb c sep then EmptyString :: split sep r
      else match split sep r with
           | [] => [String c EmptyString]
           | p :: ps => String c p :: ps
           end
  end.

(** Truthiness of a string: the empty string is falsy. *)
Definition truthy (s : string) : bool := negb (s =? "")%string.

(** [a || b] on an optional string: the first operand unless it is
    undefined or empty. *)
Definition orElse (a : option string) (b : string) : string :=
  match a with
  | Some s => if truthy s then s else b
  | None => b
  end.

(** Truthiness of an optional string. *)
Definition present (a : option string) : bool :=
  match a with
  | Some s => truthy s
  | None => false
  end.

(** The relational operator [a >= b] on two strings: code units compared
    lexicographically. *)
Definition geb (a b : string) : bool := String.leb b a.

End Str.

(** ** Numbers *)

Inductive num : Type :=
| Fin (q : Q)
| NaN
| Inf (negative : bool).

(** Rounding of an exact rational to binary64, to nearest with ties to
    even: 53 significant bits, subnormal values in steps of 2^-1074, and
    overflow to an infinity from 2^1024 - 2^970 on. *)
Module Binary64.

(** The integer nearest to [n / d], the even one of two equally near
    ([0 <= n], [0 < d]). *)
Definition nearestEven (n d : Z) : Z :=
  let q := n / d in
  match 2 * (n mod d) ?= d with
  | Lt => q
  | Gt => q + 1
  | Eq => if Z.even q then q else q + 1
  end.

(** The integer part of the binary logarithm of [n / d]. *)
Definition log2Floor (n d : Z) : Z :=
  let l := Z.log2 n - Z.log2 d in
  let below := if 0 <=? l then n <? d * 2 ^ l else n * 2 ^ (- l) <? d in
  if below then l - 1 else l.

(** The exponent of the unit in the last place. *)
Definition ulpExponent (n d : Z) : Z := Z.max (log2Floor n d - 52) (-1074).

(** [m / 2^k] in lowest terms. *)
Fixpoint dyadic (m : positive) (k : nat) {struct k} : Q :=
  match k, m with
  | S k', xO m' => dyadic m' k'
  | _, _ => Z.pos m # Pos.shiftl_nat 1 k
  end.

(** [m * 2^e] in lowest terms ([0 <= m]). *)
Definition value (m e : Z) : Q :=
  match m with
  | Z.pos p =>
      if 0 <=? e then inject_Z (m * 2 ^ e) else dyadic p (Z.to_nat (- e))
  | _ => 0
  end.

(** The binary64 value nearest to [n / d], or [None] on overflow. *)
Definition roundPos (n d : positive) : option Q :=
  let e := ulpExponent (Z.pos n) (Z.pos d) in
  let m := nearestEven (Z.pos n * 2 ^ Z.max 0 (- e))
                       (Z.pos d * 2 ^ Z.max 0 e) in
  if (971 <=? e) && (2 ^ 1024 <=? m * 2 ^ e) then None
  else Some (value m e).

Definition round (q : Q) : num :=
  let r := Qred q in
  match Qnum r with
  | Z0 => Fin 0
  | Z.pos n =>
      match roundPos n (Qden r) with
      | Some v => Fin v
      | None => Inf false
      end
  | Z.neg n =>
      match roundPos n (Qden r) with
      | Some v => Fin (- v)
      | None => Inf true
      end
  end.

End Binary64.

Module Num.

Definition isZero (x : Q) : bool := Qeq_bool x 0.
Definition isNegative (x : Q) : bool := negb (Qle_bool 0 x).

Definition add (a b : num) : num :=
  match a, b with
  | NaN, _ | _, NaN => NaN
  | Fin x, Fin y => Binary64.round (x + y)
  | Inf s, Inf t => if Bool.eqb s t then Inf s else NaN
  | Inf s, Fin _ => Inf s
  | Fin _, Inf t => Inf t
  end.

Definition sub (a b : num) : num :=
  match a, b with
  | NaN, _ | _, NaN => NaN
  | Fin x, Fin y => Binary64.round (x - y)
  | Inf s, Inf t => if Bool.eqb s t then NaN else Inf s
  | Inf s, Fin _ => Inf s
  | Fin _, Inf t => Inf (negb t)
  end.

Definition mul (a b : num) : num :=
  match a, b with
  | NaN, _ | _, NaN => NaN
  | Fin x, Fin y => Binary64.round (x * y)
  | Inf s, Inf t => Inf (xorb s t)
  | Inf s, Fin y => if isZero y then NaN else Inf (xorb s (isNegative y))
  | Fin x, Inf t => if isZero x then NaN else Inf (xorb (isNegative x) t)
  end.

(** Division.  Every divisor in the program is a non-zero number (60 and
    the cluster size); a zero divisor is read as +0. *)
Definition div (a b : num) : num :=
  match a, b with
  | NaN, _ | _, NaN => NaN
  | Fin x, Fin y =>
      if isZero y then (if isZero x then NaN else Inf (isNegative x))
      else Binary64.round (x / y)
  | Inf _, Inf _ => NaN
  | Inf s, Fin y => Inf (xorb s (isNegative y))
  | Fin _, Inf _ => Fin 0
  end.

(** The order of two numbers, [None] as soon as one is NaN. *)
Definition cmp (a b : num) : option comparison :=
  match a, b with
  | NaN, _ | _, NaN => None
  | Fin x, Fin y => Some (x ?= y)%Q
  | Inf s, Inf t =>
      Some (if s then (if t then Eq else Lt) else (if t then Gt else Eq))
  | Inf s, Fin _ => Some (if s then Lt else Gt)
  | Fin _, Inf t => Some (if t then Gt else Lt)
  end.

(** [Math.max] and [Math.min]: NaN as soon as one argument is NaN. *)
Definition max (a b : num) : num :=
  match cmp a b with
  | None => NaN
  | Some Lt => b
  | Some _ => a
  end.

Definition min (a b : num) : num :=
  match cmp a b with
  | None => NaN
  | Some Gt => b
  | Some _ => a
  end.

(** [a < b]: false as soon as one operand is NaN. *)
Definition ltb (a b : num) : bool :=
  match cmp a b with
  | Some Lt => true
  | _ => false
  end.

(** [a <= b] *)
Definition leb (a b : num) : bool :=
  match cmp a b with
  | Some Lt | Some Eq => true
  | _ => false
  end.

(** [a === b] *)
Definition seq (a b : num) : bool :=
  match cmp a b with
  | Some Eq => true
  | _ => false
  end.

(** An integer as a number; array lengths and indices are below 2^32 and
    exact in binary64. *)
Definition ofZ (z : Z) : num := Fin (inject_Z z).

(** Equality of values: rationals up to [Qeq]. *)
Definition eqv (a b : num) : Prop :=
  match a, b with
  | Fin x, Fin y => (x == y)%Q
  | NaN, NaN => True
  | Inf s, Inf t => s = t
  | _, _ => False
  end.

Definition isInteger (a : num) : Prop :=
  exists z : Z, eqv a (ofZ z).

End Num.

(** ** [Number] applied to a string

    StringToNumber of ECMAScript: white space is stripped, the empty string
    is 0, a StrNumericLiteral has its mathematical value rounded to
    binary64, anything else is NaN.  (The standard also lets an engine cut
    a decimal literal after its 20th significant digit; the engines round
    the full literal.) *)

Module StringToNumber.

Definition digitOf (base : Z) (c : ascii) : option Z :=
  let n := Z.of_N (Str.code c) in
  let v := if (48 <=? n) && (n <=? 57) then Some (n - 48)
           else if (97 <=? n) && (n <=? 102) then Some (n - 87)
           else if (65 <=? n) && (n <=? 70) then Some (n - 55)
           else None in
  match v with
  | Some d => if d <? base then Some d else None
  | None => None
  end.

(** The longest prefix of digits: its value, its length and the rest. *)
Fixpoint takeDigits (base : Z) (acc : Z) (len : nat) (s : string)
  : Z * nat * string :=
  match s with
  | EmptyString => (acc, len, s)
  | String c r =>
      match digitOf base c with
      | Some d => takeDigits base (acc * base + d) (S len) r
      | None => (acc, len, s)
      end
  end.

(** ExponentPart: [e] or [E], an optional sign, at least one digit, up
    to the end of the string. *)
Definition exponent (s : string) : option Z :=
  match s with
  | EmptyString => Some 0
  | String c r =>
      if Ascii.eqb c "e" || Ascii.eqb c "E" then
        let '(neg, r1) :=
          match r with
          | String "-" r' => (true, r')
          | String "+" r' => (false, r')
          | _ => (false, r)
          end in
        match takeDigits 10 0 0 r1 with
        | (_, O, _) => None
        | (v, S _, EmptyString) => Some (if neg then - v else v)
        | _ => None
        end
      else None
  end.

(** StrUnsignedDecimalLiteral, the digits: its mathematical value. *)
Definition unsignedDecimal (s : string) : option Q :=
  let '(ip, ilen, r) := takeDigits 10 0 0 s in
  let '(fp, flen, r1, dot) :=
    match r with
    | String "." r' =>
        let '(fp, flen, r1) := takeDigits 10 0 0 r' in (fp, flen, r1, true)
    | _ => (0, O, r, false)
    end in
  match ilen, flen with
  | O, O => None
  | _, _ =>
      match exponent r1 with
      | Some e =>
          Some ((inject_Z ip + inject_Z fp / inject_Z (10 ^ Z.of_nat flen))
                * Qpower (inject_Z 10) e)%Q
      | None => None
      end
  end.

(** StrDecimalLiteral: an optional sign before the unsigned literal,
    which is [Infinity] or made of digits. *)
Definition decimal (s : string) : option num :=
  let '(negative, r) :=
    match s with
    | String "-" r => (true, r)
    | String "+" r => (false, r)
    | _ => (false, s)
    end in
  if (r =? "Infinity")%string then Some (Inf negative)
  else match unsignedDecimal r with
       | Some q => Some (Binary64.round (if negative then - q else q))
       | None => None
       end.

(** NonDecimalIntegerLiteral: [0x], [0o] or [0b] and at least one digit
    of that base, up to the end of the string. *)
Definition nonDecimal (s : string) : option Q :=
  match s with
  | String "0" (String p r) =>
      let base :=
        if Ascii.eqb p "x" || Ascii.eqb p "X" then Some 16
        else if Ascii.eqb p "o" || Ascii.eqb p "O" then Some 8
        else if Ascii.eqb p "b" || Ascii.eqb p "B" then Some 2
        else None in
      match base with
      | Some b =>
          match takeDigits b 0 0 r with
          | (v, S _, EmptyString) => Some (inject_Z v)
          | _ => None
          end
      | None => None
      end
  | _ => None
  end.

Definition Number (s : string) : num :=
  let t := Str.trim s in
  if (t =? "")%string then Fin 0
  else match nonDecimal t with
       | Some q => Binary64.round q
       | None =>
           match decimal t with
           | Some v => v
           | None => NaN
           end
       end.

End StringToNumber.

(** ** Time arithmetic ([CalendarGrid]) *)

(** [timeToMinutes]: the guard returns 0 for an empty string and for a
    string without a colon; otherwise the two first pieces around the
    colons are converted with [Number]. *)
Definition timeToMinutes (time : string) : num :=
  if negb (Str.truthy time) || negb (Str.includes time ":") then Fin 0
  else
    let parts := map StringToNumber.Number (Str.split ":" time) in
    let hours := nth 0 parts NaN in
    let minutes := nth 1 parts NaN in
    if Num.seq hours (Fin 24) && Num.seq minutes (Fin 0)
    then Num.mul (Fin 24) (Fin 60)
    else Num.add (Num.mul hours (Fin 60)) minutes.

(** ** Data model ([types.ts]) *)

Module ToDo.
Record ToDoItem : Type := mk {
  id : string;
  text : string;
  completed : bool
}.
End ToDo.

(** A [Date] object is its time value in milliseconds. *)
Definition Date : Type := Z.

Record Event : Type := mkEvent {
  id : string;
  title : string;
  description : option string;
  date : Date;
  startTime : string;
  endTime : string;
  color : string;
  todos : list ToDo.ToDoItem
}.

(** ** Arrays *)

Module Arr.

(** [Array.prototype.findIndex]: the first index whose element passes
    the test, or -1. *)
Fixpoint findIndex {A : Type} (p : A -> bool) (l : list A) : Z :=
  match l with
  | [] => -1
  | x :: r =>
      if p x then 0
      else let i := findIndex p r in
           if i =? -1 then -1 else i + 1
  end.

(** The comparator result as [Array.prototype.sort] reads it: NaN counts
    as zero. *)
Definition order (v : num) : comparison :=
  match v with
  | Fin q => (q ?= 0)%Q
  | NaN => Eq
  | Inf negative => if negative then Lt else Gt
  end.

Fixpoint insert {A : Type} (cmp : A -> A -> num) (x : A) (l : list A)
  : list A :=
  match l with
  | [] => [x]
  | y :: r =>
      match order (cmp x y) with
      | Gt => y :: insert cmp x r
      | _ => x :: l
      end
  end.

(** [Array.prototype.sort] with a comparator.  The sort is stable; for a
    consistent comparator every stable sort returns the same array, and
    insertion sort stands for the engine's algorithm. *)
Definition sort {A : Type} (cmp : A -> A -> num) (l : list A) : list A :=
  fold_right (insert cmp) [] l.

End Arr.

(** ** Overlap layout ([CalendarGrid]) *)

Module Layout.
(** The [layout] object of an event: [width] is the percentage inside
    [calc(width% - 4px)], [left] the percentage of the [left] style. *)
Record t : Type := mk {
  width : num;
  left : num
}.
End Layout.

(** The style of a rendered event block, lengths in rem and percent. *)
Record Placement : Type := mkPlacement {
  top : num;
  height : num;
  widthPercent : num;
  leftPercent : num
}.

Definition HOUR_HEIGHT_IN_REM : Q := 7.

Section CalendarGrid.

(** [a.localeCompare(b)]: negative, zero or positive; the collation is
    the host's. *)
Variable localeCompare : string -> string -> Z.

(** The filter predicate of [concurrentEvents]. *)
Definition isConcurrent (myStart myEnd : num) (e : Event) : bool :=
  let otherStart := timeToMinutes (startTime e) in
  let otherEnd := timeToMinutes (endTime e) in
  Num.ltb (Num.max myStart otherStart) (Num.min myEnd otherEnd).

(** The comparator passed to [sort]. *)
Definition compareEvents (a b : Event) : num :=
  let startDiff :=
    Num.sub (timeToMinutes (startTime a)) (timeToMinutes (startTime b)) in
  if negb (Num.seq startDiff (Fin 0)) then startDiff
  else Num.ofZ (localeCompare (id a) (id b)).

Definition concurrentEvents (dayEvents : list Event) (event : Event)
  : list Event :=
  let myStart := timeToMinutes (startTime event) in
  let myEnd := timeToMinutes (endTime event) in
  Arr.sort compareEvents (filter (isConcurrent myStart myEnd) dayEvents).

(** [concurrentEvents.length || 1] *)
Definition numConcurrent (dayEvents : list Event) (event : Event) : Z :=
  let n := Z.of_nat (length (concurrentEvents dayEvents event)) in
  if n =? 0 then 1 else n.

Definition myIndex (dayEvents : list Event) (event : Event) : Z :=
  Arr.findIndex (fun e => (id e =? id event)%string)
                (concurrentEvents dayEvents event).

Definition layoutOf (dayEvents : list Event) (event : Event) : Layout.t :=
  let width := Num.div (Fin 100) (Num.ofZ (numConcurrent dayEvents event)) in
  let left := Num.mul (Num.ofZ (myIndex dayEvents event)) width in
  Layout.mk width left.

Definition eventsWithLayout (dayEvents : list Event)
  : list (Event * Layout.t) :=
  map (fun event => (event, layoutOf dayEvents event)) dayEvents.

(** The style computed when an event of [eventsWithLayout] is rendered;
    [hourHeight] is [HOUR_HEIGHT_IN_REM] in the component. *)
Definition placementOf (hourHeight : Q) (el : Event * Layout.t)
  : Placement :=
  let event := fst el in
  let startMinutes := timeToMinutes (startTime event) in
  let endMinutes := timeToMinutes (endTime event) in
  let durationInMinutes := Num.max (Fin 5) (Num.sub endMinutes startMinutes) in
  mkPlacement
    (Num.mul (Num.div startMinutes (Fin 60)) (Fin hourHeight))
    (Num.mul (Num.div durationInMinutes (Fin 60)) (Fin hourHeight))
    (Layout.width (snd el))
    (Layout.left (snd el)).

Definition renderDay (hourHeight : Q) (dayEvents : list Event)
  : list (Event * Placement) :=
  map (fun el => (fst el, placementOf hourHeight el))
      (eventsWithLayout dayEvents).

(** The descriptor of one event of the day. *)
Definition descriptorOf (hourHeight : Q) (dayEvents : list Event)
           (event : Event) : Placement :=
  placementOf hourHeight (event, layoutOf dayEvents event).

End CalendarGrid.

(** The code units of two strings compared lexicographically; it stands
    for [localeCompare] where a concrete collation is needed. *)
Definition compareCodeUnits (a b : string) : Z :=
  match String.compare a b with
  | Lt => -1
  | Eq => 0
  | Gt => 1
  end.

(** ** Host state: the clock and the random source *)

Module Host.

(** [nowAt n] is what [Date.now()] returns and [randomAt n] the six
    base-36 digits [Math.random().toString(36).slice(2, 8)] yields, when
    the call is the [n]-th read of the host; [reads] counts the reads
    made so far. *)
Record World : Type := mkWorld {
  nowAt : nat -> Z;
  randomAt : nat -> string;
  reads : nat
}.

Definition M (A : Type) : Type := World -> A * World.

Definition ret {A : Type} (a : A) : M A := fun w => (a, w).

Definition bind {A B : Type} (m : M A) (k : A -> M B) : M B :=
  fun w => let '(a, w') := m w in k a w'.

Definition tick (w : World) : World :=
  mkWorld (nowAt w) (randomAt w) (S (reads w)).

Definition Date_now : M Z := fun w => (nowAt w (reads w), tick w).

Definition Math_random36 : M string :=
  fun w => (randomAt w (reads w), tick w).

Definition digitChar (d : Z) : ascii :=
  if d <? 10 then ascii_of_N (Z.to_N (48 + d))
  else ascii_of_N (Z.to_N (87 + d)).

Fixpoint digitsOf (radix : Z) (fuel : nat) (n : Z) (acc : string)
  : string :=
  match fuel with
  | O => acc
  | S f =>
      let acc' := String (digitChar (n mod radix)) acc in
      if n / radix =? 0 then acc' else digitsOf radix f (n / radix) acc'
  end.

(** [Number.prototype.toString(radix)] of an integer. *)
Definition toString (radix : Z) (n : Z) : string :=
  let body := digitsOf radix (S (Z.to_nat (Z.log2 (Z.abs n)))) (Z.abs n) "" in
  if n <? 0 then String "-" body else body.

End Host.

Notation "x <- c1 ;; c2" := (Host.bind c1 (fun x => c2))
  (at level 61, c1 at next level, right associativity).

(** ** Objects used as maps *)

Module Obj.

Definition t : Type := list (string * string).

Definition values (o : t) : list string := map snd o.
Definition keys (o : t) : list string := map fst o.

(** The property names [Object.prototype] answers for an object that
    has no own property of the name. *)
Definition prototypeMembers : list string :=
  ["constructor"; "__defineGetter__"; "__defineSetter__"; "hasOwnProperty";
   "__lookupGetter__"; "__lookupSetter__"; "isPrototypeOf";
   "propertyIsEnumerable"; "toString"; "valueOf"; "__proto__";
   "toLocaleString"].

(** [k] is answered by the prototype chain of [o]: a member of
    [Object.prototype] that no own property of [o] shadows. *)
Definition inherits (o : t) (k : string) : bool :=
  existsb (String.eqb k) prototypeMembers
  && negb (existsb (String.eqb k) (keys o)).

(** [o[k]] for a key the prototype chain does not answer: the own
    property, or undefined.  For a key with [inherits o k] the program
    gets a function (the object [Object.prototype] for [__proto__]), a
    truthy value that is not a string. *)
Fixpoint get (o : t) (k : string) : option string :=
  match o with
  | [] => None
  | (k', v) :: r => if (k' =? k)%string then Some v else get r k
  end.

Fixpoint allDigits (s : string) : bool :=
  match s with
  | EmptyString => true
  | String c r =>
      let n := Str.code c in ((48 <=? n) && (n <=? 57))%N && allDigits r
  end.

(** The array index a key denotes, if any: a canonical numeric string
    below 2^32 - 1. *)
Definition arrayIndex (k : string) : option Z :=
  match k with
  | EmptyString => None
  | String c r =>
      if allDigits k && (negb (Ascii.eqb c "0") || (r =? "")%string) then
        let '(v, _, _) := StringToNumber.takeDigits 10 0 0 k in
        if v <? 2 ^ 32 - 1 then Some v else None
      else None
  end.

Fixpoint put (o : t) (k v : string) : t :=
  match o with
  | [] => [(k, v)]
  | (k', v') :: r =>
      if (k' =? k)%string then (k, v) :: r
      else match arrayIndex k, arrayIndex k' with
           | Some i, Some j =>
               if i <? j then (k, v) :: o else (k', v') :: put r k v
           | Some _, None => (k, v) :: o
           | None, _ => (k', v') :: put r k v
           end
  end.

(** [o[k] = v] for a string [v]: an existing property keeps its place, a
    new array index goes among the indices in ascending order, any other
    new key goes last.  The key [__proto__] of an object without such an
    own property is the accessor of [Object.prototype], whose setter
    ignores a string: the object stays as it is. *)
Definition set (o : t) (k v : string) : t :=
  if (k =? "__proto__")%string && negb (existsb (String.eqb k) (keys o))
  then o
  else put o k v.

End Obj.

(** ** Assistant actions ([types.ts]) *)

Module Partial.
Record ToDoItem : Type := mk {
  id : option string;
  text : option string;
  completed : option bool
}.
End Partial.

Module Input.
Record AssistantEventInput : Type := mk {
  id : option string;
  title : option string;
  description : option string;
  date : option string;
  startTime : option string;
  endTime : option string;
  color : option string;
  category : option string;
  todos : option (list Partial.ToDoItem)
}.
End Input.

Inductive ActionType : Type := create | update | delete.

Record AssistantAction : Type := mkAction {
  type : ActionType;
  event : option Input.AssistantEventInput
}.

(** ** The application ([App]) *)

Definition AVAILABLE_COLORS : list string :=
  ["blue"; "green"; "red"; "purple"; "yellow"; "indigo"; "pink"; "orange";
   "teal"; "cyan"; "emerald"; "gray"].

Definition initialCategoryMap : Obj.t :=
  [("lavoro", "blue"); ("studio", "green"); ("scuola", "red");
   ("allenamento", "purple"); ("pasto", "yellow"); ("spostamento", "indigo");
   ("routine", "pink")].

Definition generateTodoId : Host.M string :=
  n <- Host.Date_now ;;
  r <- Host.Math_random36 ;;
  Host.ret (Host.toString 36 n ++ "-" ++ r).

Definition normaliseTodo (todo : Partial.ToDoItem) : Host.M ToDo.ToDoItem :=
  i <- (if Str.present (Partial.id todo)
        then Host.ret (Str.orElse (Partial.id todo) "")
        else generateTodoId) ;;
  Host.ret (ToDo.mk i
              (match Partial.text todo with Some s => s | None => "" end)
              (match Partial.completed todo with Some b => b | None => false end)).

Fixpoint mapM {A B : Type} (f : A -> Host.M B) (l : list A)
  : Host.M (list B) :=
  match l with
  | [] => Host.ret []
  | x :: r => y <- f x ;; ys <- mapM f r ;; Host.ret (y :: ys)
  end.

(** [normaliseTodos]; the filter that keeps the entries that are objects
    keeps every entry of this type. *)
Definition normaliseTodos (todos : option (list Partial.ToDoItem))
  : Host.M (list ToDo.ToDoItem) :=
  match todos with
  | None => Host.ret []
  | Some l => mapM normaliseTodo l
  end.

(** [resolveEventColor], called with the payload and the category map.
    [map[providedCategory]] is read with [Obj.get]; for a category name
    that only the prototype chain answers ([Obj.inherits]) the program
    returns the inherited member, which is no string. *)
Definition resolveEventColor (input : Input.AssistantEventInput)
           (map : Obj.t) : string :=
  let providedColor := Input.color input in
  let providedCategory := Input.category input in
  let fallbackColor :=
    match Obj.values map with
    | c :: _ => c
    | [] => nth 0 AVAILABLE_COLORS ""
    end in
  if Str.present providedColor
     && existsb (String.eqb (Str.orElse providedColor "")) (Obj.values map)
  then Str.orElse providedColor ""
  else
    match providedCategory with
    | Some cat =>
        if Str.truthy cat && Str.present (Obj.get map cat)
        then Str.orElse (Obj.get map cat) ""
        else fallbackColor
    | None => fallbackColor
    end.

Section Reconciler.

(** The time value [new Date(value)] holds for a string, [None] when it
    is NaN (an invalid date); which strings parse beyond the ISO forms is
    up to the engine. *)
Variable Date_parse : string -> option Date.

Definition parseAssistantDate (value : option string) : option Date :=
  match value with
  | Some v => if Str.truthy v then Date_parse v else None
  | None => None
  end.

Definition trimmed (a : option string) : option string :=
  option_map Str.trim a.

Definition applyCreate (colorMap : Obj.t) (nextEvents : list Event)
           (eventInput : Input.AssistantEventInput)
  : Host.M (list Event) :=
  match parseAssistantDate (Input.date eventInput) with
  | None => Host.ret nextEvents
  | Some parsedDate =>
      i <- (if Str.present (Input.id eventInput)
            then Host.ret (Str.orElse (Input.id eventInput) "")
            else n <- Host.Date_now ;; Host.ret (Host.toString 10 n)) ;;
      ts <- normaliseTodos (Input.todos eventInput) ;;
      Host.ret
        (nextEvents ++
           [mkEvent i
              (Str.orElse (trimmed (Input.title eventInput)) "Nuovo evento")
              (Some (Str.orElse (trimmed (Input.description eventInput)) ""))
              parsedDate
              (Str.orElse (Input.startTime eventInput) "09:00")
              (Str.orElse (Input.endTime eventInput) "10:00")
              (resolveEventColor eventInput colorMap)
              ts])%list
  end.

(** The object the [map] callback of the update branch returns for the
    target event; [newTodos] is [normaliseTodos(eventInput.todos)] when
    the payload has todos. *)
Definition updatedEvent (colorMap : Obj.t)
           (eventInput : Input.AssistantEventInput)
           (newTodos : option (list ToDo.ToDoItem)) (event : Event)
  : Event :=
  let parsedDate :=
    if Str.present (Input.date eventInput)
    then parseAssistantDate (Input.date eventInput) else None in
  let shouldUpdateColor :=
    Str.present (Input.color eventInput)
    || Str.present (Input.category eventInput) in
  mkEvent (id event)
    (Str.orElse (trimmed (Input.title eventInput)) (title event))
    (match Input.description eventInput with
     | Some d => Some (Str.trim d)
     | None => description event
     end)
    (match parsedDate with Some d => d | None => date event end)
    (Str.orElse (Input.startTime eventInput) (startTime event))
    (Str.orElse (Input.endTime eventInput) (endTime event))
    (if shouldUpdateColor then resolveEventColor eventInput colorMap
     else color event)
    (match newTodos with Some ts => ts | None => todos event end).

(** [l.map((x, i) => i !== index ? x : f(x))] *)
Fixpoint mapAt {A : Type} (index : Z) (f : A -> A) (l : list A) : list A :=
  match l with
  | [] => []
  | x :: r => (if index =? 0 then f x else x) :: mapAt (index - 1) f r
  end.

Definition applyUpdate (colorMap : Obj.t) (nextEvents : list Event)
           (eventInput : Input.AssistantEventInput)
  : Host.M (list Event) :=
  if negb (Str.present (Input.id eventInput)) then Host.ret nextEvents
  else
    let targetId := Str.orElse (Input.id eventInput) "" in
    let index :=
      Arr.findIndex (fun e => (id e =? targetId)%string) nextEvents in
    if index =? -1 then Host.ret nextEvents
    else
      newTodos <- match Input.todos eventInput with
                  | Some ts =>
                      l <- normaliseTodos (Some ts) ;; Host.ret (Some l)
                  | None => Host.ret None
                  end ;;
      Host.ret (mapAt index (updatedEvent colorMap eventInput newTodos)
                      nextEvents).

Definition applyDelete (nextEvents : list Event)
           (eventInput : option Input.AssistantEventInput)
  : list Event :=
  match eventInput with
  | Some ei =>
      if Str.present (Input.id ei)
      then filter (fun e => negb (id e =? Str.orElse (Input.id ei) "")%string)
                  nextEvents
      else nextEvents
  | None => nextEvents
  end.

(** The body of the [forEach] callback. *)
Definition applyAction (colorMap : Obj.t) (nextEvents : list Event)
           (action : AssistantAction) : Host.M (list Event) :=
  match type action with
  | create =>
      match event action with
      | Some ei => applyCreate colorMap nextEvents ei
      | None => Host.ret nextEvents
      end
  | update =>
      match event action with
      | Some ei => applyUpdate colorMap nextEvents ei
      | None => Host.ret nextEvents
      end
  | delete => Host.ret (applyDelete nextEvents (event action))
  end.

Fixpoint forEach (colorMap : Obj.t) (actions : list AssistantAction)
         (nextEvents : list Event) : Host.M (list Event) :=
  match actions with
  | [] => Host.ret nextEvents
  | a :: r =>
      next <- applyAction colorMap nextEvents a ;;
      forEach colorMap r next
  end.

(** [applyAssistantActions]: the state updater passed to [setEvents],
    as a function of the previous events. *)
Definition applyAssistantActions (colorMap : Obj.t)
           (actions : list AssistantAction) (prevEvents : list Event)
  : Host.M (list Event) :=
  forEach colorMap actions prevEvents.

End Reconciler.

(** ** Saving and deleting events ([App]) *)

Module Draft.
(** [Omit<Event, 'id'> & { id?: string }] *)
Record EventData : Type := mk {
  id : option string;
  title : string;
  description : option string;
  date : Date;
  startTime : string;
  endTime : string;
  color : string;
  todos : list ToDo.ToDoItem
}.
End Draft.

(** [{ ...e, ...eventData, date: new Date(eventData.date) }] *)
Definition mergeEvent (e : Event) (eventData : Draft.EventData) : Event :=
  mkEvent
    (match Draft.id eventData with Some i => i | None => id e end)
    (Draft.title eventData)
    (match Draft.description eventData with
     | Some d => Some d
     | None => description e
     end)
    (Draft.date eventData)
    (Draft.startTime eventData)
    (Draft.endTime eventData)
    (Draft.color eventData)
    (Draft.todos eventData).

(** [handleSaveEvent]: the state updater passed to [setEvents]. *)
Definition handleSaveEvent (eventData : Draft.EventData)
           (prevEvents : list Event) : Host.M (list Event) :=
  let given := Str.orElse (Draft.id eventData) "" in
  if Str.present (Draft.id eventData)
     && existsb (fun e => (id e =? given)%string) prevEvents
  then
    Host.ret (map (fun e => if (id e =? given)%string
                            then mergeEvent e eventData else e)
                  prevEvents)
  else
    n <- Host.Date_now ;;
    Host.ret (prevEvents ++
                [mkEvent (Host.toString 10 n)
                   (Draft.title eventData)
                   (Draft.description eventData)
                   (Draft.date eventData)
                   (Draft.startTime eventData)
                   (Draft.endTime eventData)
                   (Draft.color eventData)
                   (Draft.todos eventData)])%list.

Definition handleDeleteEvent (eventId : string) (prevEvents : list Event)
  : list Event :=
  filter (fun e => negb (id e =? eventId)%string) prevEvents.

(** ** The event form ([EventModal]) *)

Module EventModal.

Record State : Type := mkState {
  title : string;
  description : string;
  date : Date;
  startTime : string;
  endTime : string;
  color : string;
  todos : list ToDo.ToDoItem;
  error : string
}.

Definition setError (s : State) (msg : string) : State :=
  mkState (title s) (description s) (date s) (startTime s) (endTime s)
          (color s) (todos s) msg.

(** The message holds U+00E8 as one code unit. *)
Definition titleRequired : string :=
  "Il titolo " ++ String (ascii_of_N 232) " obbligatorio.".

Definition endAfterStart : string :=
  "L'ora di fine deve essere successiva all'ora di inizio.".

(** [handleSave]: the next form state and the argument of [onSave] when
    it is called; [event] is the event being edited, if any. *)
Definition handleSave (event : option Event) (s : State)
  : State * option Draft.EventData :=
  if negb (Str.truthy (Str.trim (title s))) then
    (setError s titleRequired, None)
  else if Str.geb (startTime s) (endTime s) then
    (setError s endAfterStart, None)
  else
    (s, Some (Draft.mk (option_map id event) (title s)
                       (Some (description s)) (date s) (startTime s)
                       (endTime s) (color s) (todos s))).

End EventModal.

(** Saving from the form: [handleSave] of the form, whose [onSave] is
    [handleSaveEvent]. *)
Definition saveFromModal (event : option Event) (s : EventModal.State)
           (prevEvents : list Event)
  : Host.M (EventModal.State * list Event) :=
  match EventModal.handleSave event s with
  | (s', Some eventData) =>
      next <- handleSaveEvent eventData prevEvents ;; Host.ret (s', next)
  | (s', None) => Host.ret (s', prevEvents)
  end.

(** ** Categories ([CategoryManagerModal], [App]) *)

Module Category.
Record CategoryDefinition : Type := mk {
  name : string;
  color : string
}.
End Category.

Module CategoryManagerModal.

(** The loop over a [Set]: true when a value is met that was added
    before. *)
Fixpoint repeats (seen : list string) (l : list string) : bool :=
  match l with
  | [] => false
  | x :: r =>
      if existsb (String.eqb x) seen then true else repeats (x :: seen) r
  end.

Definition trimmedCategories (localCategories : list Category.CategoryDefinition)
  : list Category.CategoryDefinition :=
  filter (fun c => Str.truthy (Category.name c))
         (map (fun c => Category.mk (Str.trim (Category.name c)) (Category.color c))
              localCategories).

Definition noCategory : string := "Aggiungi almeno una categoria.".
Definition uniqueNames : string :=
  "I nomi delle categorie devono essere unici.".
Definition uniqueColors : string :=
  "Ogni categoria deve avere un colore diverso.".

(** [handleSave]: the next [error] state and the argument of [onSave]
    when it is called. *)
Definition handleSave (localCategories : list Category.CategoryDefinition)
           (error : string) : string * option (list Category.CategoryDefinition) :=
  let trimmedCategories := trimmedCategories localCategories in
  if (length trimmedCategories =? 0)%nat then (noCategory, None)
  else if repeats [] (map (fun c => Str.toLowerCase (Category.name c))
                          trimmedCategories)
  then (uniqueNames, None)
  else if repeats [] (map Category.color trimmedCategories)
  then (uniqueColors, None)
  else ("", Some trimmedCategories).

End CategoryManagerModal.

(** The state of [App] the category save touches. *)
Record AppState : Type := mkApp {
  events : list Event;
  colorMap : Obj.t;
  activeFilter : option string
}.

Definition recolor (e : Event) (c : string) : Event :=
  mkEvent (id e) (title e) (description e) (date e) (startTime e)
          (endTime e) c (todos e).

Definition handleSaveCategories (categories : list Category.CategoryDefinition)
           (st : AppState) : AppState :=
  if (length categories =? 0)%nat then st
  else
    let nextMap :=
      fold_left (fun acc category =>
                   Obj.set acc (Category.name category) (Category.color category))
                categories [] in
    let allowedColors := map Category.color categories in
    let has := fun c => existsb (String.eqb c) allowedColors in
    let fallbackColor :=
      match categories with
      | c :: _ => Category.color c
      | [] => nth 0 AVAILABLE_COLORS ""
      end in
    mkApp
      (map (fun event => if has (color event) then event
                         else recolor event fallbackColor)
           (events st))
      nextMap
      (match activeFilter st with
       | Some f => if Str.truthy f && negb (has f) then None else Some f
       | None => None
       end).

(** Saving from the category manager: [handleSave] of the manager, whose
    [onSave] is [handleSaveCategories]; the result is the manager's
    [error] and the application state. *)
Definition setCategories (definitions : list Category.CategoryDefinition)
           (error : string) (st : AppState) : string * AppState :=
  match CategoryManagerModal.handleSave definitions error with
  | (err, Some categories) => (err, handleSaveCategories categories st)
  | (err, None) => (err, st)
  end.

(** * Properties *)

(** ** Time arithmetic *)

(** [pad2 n] writes [n] below 100 with two digits, as
    [n.toString().padStart(2, '0')] does. *)
Definition pad2 (n : Z) : string :=
  String (Host.digitChar (n / 10)) (String (Host.digitChar (n mod 10)) "").

Definition hhmm (h m : Z) : string := pad2 h ++ ":" ++ pad2 m.

Definition checkTime (h m : Z) : bool :=
  Num.seq (timeToMinutes (hhmm h m)) (Num.ofZ (h * 60 + m)).

Definition upTo (n : nat) : list Z := map Z.of_nat (seq 0 n).

Lemma In_upTo (n : nat) (z : Z) : 0 <= z < Z.of_nat n -> In z (upTo n).
Proof.
  intros Hz. unfold upTo. apply in_map_iff.
  exists (Z.to_nat z). split; [lia|]. apply in_seq. lia.
Qed.

Lemma checkTime_all :
  forallb (fun h => forallb (checkTime h) (upTo 100)) (upTo 100) = true.
Proof. vm_compute. reflexivity. Qed.

Lemma seq_eqv (a b : num) : Num.seq a b = true -> Num.eqv a b.
Proof.
  unfold Num.seq.
  destruct a as [x| |[|]], b as [y| |[|]]; simpl; try discriminate;
    try reflexivity.
  destruct (Qcompare_spec x y); try discriminate. intros _. assumption.
Qed.

Lemma timeToMinutes_hhmm (h m : Z) :
  0 <= h < 100 -> 0 <= m < 100 ->
  Num.eqv (timeToMinutes (hhmm h m)) (Num.ofZ (h * 60 + m)).
Proof.
  intros Hh Hm. apply seq_eqv.
  pose proof checkTime_all as A.
  rewrite forallb_forall in A.
  specialize (A h (In_upTo 100 h Hh)).
  rewrite forallb_forall in A.
  exact (A m (In_upTo 100 m Hm)).
Qed.

(** C9, as the claim states it, fails: a malformed time with a colon
    whose pieces are not numeric is not mapped to 0 and not to an integer;
    ["ab:cd"] gives NaN. *)
Lemma C9_malformed_time_is_NaN :
  timeToMinutes "ab:cd" = NaN
  /\ ~ Num.isInteger (timeToMinutes "ab:cd")
  /\ ~ Num.eqv (timeToMinutes "ab:cd") (Fin 0).
Proof.
  assert (E : timeToMinutes "ab:cd" = NaN) by (vm_compute; reflexivity).
  rewrite E. split; [reflexivity|]. split.
  - intros [z Hz]. exact Hz.
  - intros H. exact H.
Qed.

Lemma split_two (time : string) :
  Str.includes time ":" = true ->
  exists first second rest, Str.split ":" time = first :: second :: rest.
Proof.
  induction time as [|c r IH]; [discriminate|].
  cbn [Str.includes Str.split].
  destruct (Ascii.eqb c ":") eqn:E.
  - intros _. destruct (Str.split ":" r) as [|p ps] eqn:S.
    + destruct r; simpl in S; [discriminate|].
      destruct (Ascii.eqb _ _); [discriminate|].
      destruct (Str.split ":" r); discriminate.
    + now exists "", p, ps.
  - cbn [orb]. intros H. destruct (IH H) as [a [b [rest ->]]].
    now exists (String c a), b, rest.
Qed.

(** C9 (amended): [timeToMinutes] is a total function that raises no
    error; it returns 0 for the empty string and for every string without
    a colon, 1440 for ["24:00"], and HH*60 + mm for a time written with two
    digits, a colon and two digits.  For any string with a colon it
    returns hours * 60 + minutes in binary64, where hours and minutes are
    [Number] of the two first pieces between the colons (and 1440 when
    they are 24 and 0); this is NaN as soon as one of the two is NaN, and
    an infinity for ["Infinity:00"]. *)
Theorem C9_timeToMinutes :
  (forall time : string,
      time = "" \/ Str.includes time ":" = false ->
      timeToMinutes time = Fin 0)
  /\ timeToMinutes "24:00" = Fin 1440
  /\ (forall h m : Z,
         0 <= h < 100 -> 0 <= m < 100 ->
         Num.eqv (timeToMinutes (hhmm h m)) (Num.ofZ (h * 60 + m)))
  /\ (forall time : string,
         Str.includes time ":" = true ->
         let pieces := Str.split ":" time in
         let hours := StringToNumber.Number (nth 0 pieces "") in
         let minutes := StringToNumber.Number (nth 1 pieces "") in
         timeToMinutes time
         = (if Num.seq hours (Fin 24) && Num.seq minutes (Fin 0)
            then Fin 1440
            else Num.add (Num.mul hours (Fin 60)) minutes)
         /\ (hours = NaN \/ minutes = NaN -> timeToMinutes time = NaN))
  /\ timeToMinutes "Infinity:00" = Inf false.
Proof.
  split; [|split; [|split; [|split]]].
  - intros time [-> | H]; [reflexivity|].
    unfold timeToMinutes. rewrite H. simpl.
    now rewrite orb_true_r.
  - vm_compute. reflexivity.
  - apply timeToMinutes_hhmm.
  - intros time H. cbv zeta.
    assert (E : timeToMinutes time
                = if Num.seq (StringToNumber.Number
                                (nth 0 (Str.split ":" time) ""))
                             (Fin 24)
                     && Num.seq (StringToNumber.Number
                                   (nth 1 (Str.split ":" time) ""))
                                (Fin 0)
                  then Fin 1440
                  else Num.add
                         (Num.mul (StringToNumber.Number
                                     (nth 0 (Str.split ":" time) ""))
                                  (Fin 60))
                         (StringToNumber.Number
                            (nth 1 (Str.split ":" time) ""))).
    { unfold timeToMinutes. rewrite H.
      assert (T : Str.truthy time = true) by (now destruct time).
      rewrite T. cbn [negb orb]. cbv zeta.
      destruct (split_two time H) as [a [b [rest ->]]].
      cbn [map nth]. reflexivity. }
    split; [exact E|].
    rewrite E. intros [-> | ->].
    + reflexivity.
    + rewrite andb_false_r.
      now destruct (Num.mul _ _).
  - vm_compute. reflexivity.
Qed.

Lemma C9_timeToMinutes_witness :
  timeToMinutes "1230" = Fin 0
  /\ Num.eqv (timeToMinutes (hhmm 9 30)) (Num.ofZ 570)
  /\ timeToMinutes "12:3x" = NaN.
Proof.
  destruct C9_timeToMinutes as [H0 [_ [H2 [H3 _]]]]. split; [|split].
  - apply H0. right. reflexivity.
  - apply (H2 9 30); lia.
  - destruct (H3 "12:3x") as [_ H]; [reflexivity|].
    apply H. right. vm_compute. reflexivity.
Defined.

(** ** Arrays: sorting and searching *)

Section ArrayFacts.

Context {A : Type}.
Variable cmp : A -> A -> num.

Lemma insert_perm (x : A) (l : list A) :
  Permutation (Arr.insert cmp x l) (x :: l).
Proof.
  induction l as [|y r IH]; simpl; [reflexivity|].
  destruct (Arr.order (cmp x y)); try reflexivity.
  rewrite IH. apply perm_swap.
Qed.

Lemma sort_perm (l : list A) : Permutation (Arr.sort cmp l) l.
Proof.
  induction l as [|x r IH]; simpl; [reflexivity|].
  rewrite insert_perm. now constructor.
Qed.

Lemma sort_In (l : list A) (x : A) : In x (Arr.sort cmp l) <-> In x l.
Proof.
  split; apply Permutation_in;
    [apply sort_perm | apply Permutation_sym, sort_perm].
Qed.

Lemma sort_length (l : list A) : length (Arr.sort cmp l) = length l.
Proof. apply Permutation_length, sort_perm. Qed.

(** Insertion keeps a list sorted for a relation [R] that the comparator
    decides on the elements at hand. *)
Lemma insert_sorted (R : A -> A -> Prop) (P : A -> Prop) :
  (forall a b c, P a -> P b -> P c -> R a b -> R b c -> R a c) ->
  (forall a b, P a -> P b -> Arr.order (cmp a b) = Gt -> R b a) ->
  (forall a b, P a -> P b -> Arr.order (cmp a b) <> Gt -> R a b) ->
  forall x l,
    P x -> Forall P l -> StronglySorted R l ->
    StronglySorted R (Arr.insert cmp x l).
Proof.
  intros Htrans Hgt Hle x l Px Pl Hs.
  induction Hs as [|y r Hr IH Hy]; simpl.
  - repeat constructor.
  - inversion Pl as [|? ? Py Pr]; subst.
    destruct (Arr.order (cmp x y)) eqn:E.
    + constructor; [now constructor|].
      assert (Rxy : R x y) by (apply Hle; auto; congruence).
      constructor; [exact Rxy|].
      rewrite Forall_forall in *. intros z Hz.
      apply (Htrans x y z); auto.
    + constructor; [now constructor|].
      assert (Rxy : R x y) by (apply Hle; auto; congruence).
      constructor; [exact Rxy|].
      rewrite Forall_forall in *. intros z Hz.
      apply (Htrans x y z); auto.
    + constructor; [now apply IH|].
      rewrite Forall_forall in *. intros z Hz.
      apply (Permutation_in _ (insert_perm x r)) in Hz.
      destruct Hz as [<- | Hz]; auto.
Qed.

Lemma sort_sorted (R : A -> A -> Prop) (P : A -> Prop) :
  (forall a b c, P a -> P b -> P c -> R a b -> R b c -> R a c) ->
  (forall a b, P a -> P b -> Arr.order (cmp a b) = Gt -> R b a) ->
  (forall a b, P a -> P b -> Arr.order (cmp a b) <> Gt -> R a b) ->
  forall l, Forall P l -> StronglySorted R (Arr.sort cmp l).
Proof.
  intros Htrans Hgt Hle l Pl.
  induction Pl as [|x r Px Pr IH]; simpl; [constructor|].
  apply (insert_sorted R P); auto.
  rewrite Forall_forall in *. intros z Hz.
  apply Pr. now apply sort_In.
Qed.

Variable p : A -> bool.

Lemma findIndex_range (l : list A) :
  -1 <= Arr.findIndex p l < Z.of_nat (length l).
Proof.
  induction l as [|x r IH]; simpl; [lia|].
  destruct (p x); [lia|].
  destruct (Z.eqb_spec (Arr.findIndex p r) (-1)); lia.
Qed.

Lemma findIndex_none (l : list A) :
  (forall x, In x l -> p x = false) -> Arr.findIndex p l = -1.
Proof.
  induction l as [|x r IH]; simpl; intros H; [reflexivity|].
  rewrite (H x) by now left.
  rewrite IH by (intros; apply H; now right). reflexivity.
Qed.

Lemma findIndex_some (l : list A) (x : A) :
  In x l -> p x = true -> 0 <= Arr.findIndex p l.
Proof.
  induction l as [|y r IH]; simpl; intros Hin Hp; [contradiction|].
  destruct (p y) eqn:E; [lia|].
  destruct Hin as [-> | Hin]; [congruence|].
  specialize (IH Hin Hp).
  destruct (Z.eqb_spec (Arr.findIndex p r) (-1)); lia.
Qed.

Lemma findIndex_nth (l : list A) :
  0 <= Arr.findIndex p l ->
  exists y, nth_error l (Z.to_nat (Arr.findIndex p l)) = Some y
            /\ p y = true.
Proof.
  induction l as [|x r IH]; simpl; [lia|].
  destruct (p x) eqn:E; [intros _; exists x; auto|].
  destruct (Z.eqb_spec (Arr.findIndex p r) (-1)) as [|Hne]; [lia|].
  intros H.
  pose proof (findIndex_range r) as Hr.
  destruct IH as [y [Hy Py]]; [lia|].
  exists y. split; [|exact Py].
  replace (Z.to_nat (Arr.findIndex p r + 1))
    with (S (Z.to_nat (Arr.findIndex p r))) by lia.
  exact Hy.
Qed.

(** The index found is the position of the only element that passes. *)
Lemma findIndex_at (l : list A) (i : nat) (x : A) :
  nth_error l i = Some x -> p x = true ->
  (forall j y, nth_error l j = Some y -> p y = true -> j = i) ->
  Arr.findIndex p l = Z.of_nat i.
Proof.
  revert i. induction l as [|y r IH]; intros i Hn Hp Huniq.
  - destruct i; discriminate.
  - simpl. destruct (p y) eqn:E.
    + specialize (Huniq O y eq_refl E). subst i. reflexivity.
    + destruct i as [|i]; [simpl in Hn; congruence|].
      simpl in Hn.
      rewrite (IH i Hn Hp).
      * destruct (Z.eqb_spec (Z.of_nat i) (-1)); lia.
      * intros j z Hj Hz.
        specialize (Huniq (S j) z Hj Hz). lia.
Qed.

End ArrayFacts.

(** ** Numbers: rounding *)

Lemma round_compat (p q : Q) :
  (p == q)%Q -> Binary64.round p = Binary64.round q.
Proof. intros H. unfold Binary64.round. now rewrite (Qred_complete p q H). Qed.

Lemma round_number (q : Q) : Binary64.round q <> NaN.
Proof.
  unfold Binary64.round. cbv zeta.
  destruct (Qnum (Qred q)); [discriminate| |];
    destruct (Binary64.roundPos _ _); discriminate.
Qed.

Lemma nearestEven_floor (n d : Z) : n / d <= Binary64.nearestEven n d.
Proof.
  unfold Binary64.nearestEven.
  destruct (2 * (n mod d) ?= d); [destruct (Z.even (n / d))| |]; lia.
Qed.

Lemma dyadic_eq (m : positive) (k : nat) :
  (Binary64.dyadic m k == Z.pos m # Pos.shiftl_nat 1 k)%Q.
Proof.
  revert m. induction k as [|k IH]; intros m; [simpl; apply Qeq_refl|].
  destruct m as [m|m|]; try (simpl; apply Qeq_refl).
  simpl Binary64.dyadic. rewrite IH.
  unfold Qeq. simpl Qnum. simpl Qden.
  change (Pos.shiftl_nat 1 (S k)) with (xO (Pos.shiftl_nat 1 k)). lia.
Qed.

Lemma shiftl_nat_pow (k : nat) : Z.pos (Pos.shiftl_nat 1 k) = 2 ^ Z.of_nat k.
Proof.
  induction k as [|k IH]; [reflexivity|].
  change (Pos.shiftl_nat 1 (S k)) with (xO (Pos.shiftl_nat 1 k)).
  rewrite Nat2Z.inj_succ, Z.pow_succ_r by lia. lia.
Qed.

(** The finite binary64 values are multiples of the subnormal step
    2^-1074. *)
Definition representable (v : Q) : Prop :=
  exists z : Z, (v == z # (2 ^ 1074))%Q.

Lemma value_nonneg (m e : Z) : (0 <= Binary64.value m e)%Q.
Proof.
  unfold Binary64.value. destruct m as [|p|p]; try apply Qle_refl.
  destruct (0 <=? e).
  - change 0%Q with (inject_Z 0). rewrite <- Zle_Qle.
    apply Z.mul_nonneg_nonneg; [lia|]. apply Z.pow_nonneg. lia.
  - rewrite dyadic_eq. unfold Qle. simpl. lia.
Qed.

Lemma value_pos (m e : Z) : 0 < m -> (0 < Binary64.value m e)%Q.
Proof.
  unfold Binary64.value. destruct m as [|p|p]; try lia. intros _.
  destruct (Z.leb_spec 0 e).
  - change 0%Q with (inject_Z 0). rewrite <- Zlt_Qlt.
    apply Z.mul_pos_pos; [lia|]. apply Z.pow_pos_nonneg; lia.
  - rewrite dyadic_eq. unfold Qlt. simpl. lia.
Qed.

Lemma value_representable (m e : Z) :
  -1074 <= e -> representable (Binary64.value m e).
Proof.
  intros He. unfold Binary64.value.
  destruct m as [|p|p]; try (exists 0; reflexivity).
  destruct (Z.leb_spec 0 e).
  - exists (Z.pos p * 2 ^ e * 2 ^ 1074).
    unfold Qeq. simpl Qnum. simpl Qden. lia.
  - exists (Z.pos p * 2 ^ (1074 + e)). rewrite dyadic_eq.
    unfold Qeq. cbn [Qnum Qden]. rewrite shiftl_nat_pow.
    rewrite Z2Nat.id by lia.
    replace (Z.pos (2 ^ 1074)) with (2 ^ (1074 + e) * 2 ^ (- e)).
    + ring.
    + rewrite <- Z.pow_add_r by lia.
      replace (1074 + e + - e) with 1074 by lia. reflexivity.
Qed.

Lemma ulpExponent_ge (n d : Z) : -1074 <= Binary64.ulpExponent n d.
Proof. unfold Binary64.ulpExponent. lia. Qed.

Lemma roundPos_nonneg (n d : positive) (v : Q) :
  Binary64.roundPos n d = Some v -> (0 <= v)%Q /\ representable v.
Proof.
  unfold Binary64.roundPos. cbv zeta.
  destruct (_ && _); [discriminate|]. intros [= <-]. split.
  - apply value_nonneg.
  - apply value_representable, ulpExponent_ge.
Qed.

Lemma log2Floor_le (n d : Z) :
  Binary64.log2Floor n d <= Z.log2 n - Z.log2 d.
Proof.
  unfold Binary64.log2Floor. cbv zeta.
  destruct (if 0 <=? Z.log2 n - Z.log2 d then _ else _); lia.
Qed.

(** From the subnormal step on, a positive value does not round to
    zero. *)
Lemma roundPos_pos (n d : positive) (v : Q) :
  Z.pos d <= Z.pos n * 2 ^ 1074 ->
  Binary64.roundPos n d = Some v -> (0 < v)%Q.
Proof.
  intros Hstep. unfold Binary64.roundPos. cbv zeta.
  destruct (_ && _); [discriminate|]. intros [= <-].
  apply value_pos.
  eapply Z.lt_le_trans; [|apply nearestEven_floor].
  set (e := Binary64.ulpExponent (Z.pos n) (Z.pos d)).
  assert (Hd : 0 < Z.pos d * 2 ^ Z.max 0 e).
  { apply Z.mul_pos_pos; [lia|]. apply Z.pow_pos_nonneg; lia. }
  assert (Hle : Z.pos d * 2 ^ Z.max 0 e <= Z.pos n * 2 ^ Z.max 0 (- e)).
  { pose proof (log2Floor_le (Z.pos n) (Z.pos d)) as HL.
    pose proof (Z.log2_spec (Z.pos n) ltac:(lia)) as [Hn1 Hn2].
    pose proof (Z.log2_spec (Z.pos d) ltac:(lia)) as [Hd1 Hd2].
    pose proof (Z.log2_nonneg (Z.pos n)) as Ln.
    pose proof (Z.log2_nonneg (Z.pos d)) as Ld.
    unfold e, Binary64.ulpExponent in *.
    set (L := Binary64.log2Floor (Z.pos n) (Z.pos d)) in *.
    set (ln := Z.log2 (Z.pos n)) in *. set (ld := Z.log2 (Z.pos d)) in *.
    destruct (Z.max_spec (L - 52) (-1074)) as [[Hc ->] | [Hc ->]].
    - replace (Z.max 0 (-1074)) with 0 by lia.
      replace (Z.max 0 (- -1074)) with 1074 by lia.
      rewrite Z.pow_0_r. lia.
    - destruct (Z.le_gt_cases 0 (L - 52)) as [Hpos | Hneg].
      + replace (Z.max 0 (L - 52)) with (L - 52) by lia.
        replace (Z.max 0 (- (L - 52))) with 0 by lia.
        rewrite Z.pow_0_r, Z.mul_1_r.
        assert (P : 2 ^ (Z.succ ld) * 2 ^ (L - 52) <= 2 ^ ln).
        { rewrite <- Z.pow_add_r by lia. apply Z.pow_le_mono_r; lia. }
        assert (0 < 2 ^ (L - 52)) by (apply Z.pow_pos_nonneg; lia).
        nia.
      + replace (Z.max 0 (L - 52)) with 0 by lia.
        replace (Z.max 0 (- (L - 52))) with (52 - L) by lia.
        rewrite Z.pow_0_r, Z.mul_1_r.
        assert (P : 2 ^ (Z.succ ld) <= 2 ^ ln * 2 ^ (52 - L)).
        { rewrite <- Z.pow_add_r by lia. apply Z.pow_le_mono_r; lia. }
        assert (0 < 2 ^ (52 - L)) by (apply Z.pow_pos_nonneg; lia).
        nia. }
  exact (Z.div_str_pos _ _ (conj Hd Hle)).
Qed.

Lemma round_representable (q v : Q) :
  Binary64.round q = Fin v -> representable v.
Proof.
  unfold Binary64.round. cbv zeta.
  destruct (Qnum (Qred q)) as [|n|n].
  - intros [= <-]. exists 0. reflexivity.
  - destruct (Binary64.roundPos n (Qden (Qred q))) as [u|] eqn:E;
      [|discriminate].
    intros [= <-]. now apply roundPos_nonneg in E.
  - destruct (Binary64.roundPos n (Qden (Qred q))) as [u|] eqn:E;
      [|discriminate].
    intros [= <-]. apply roundPos_nonneg in E. destruct E as [_ [z Hz]].
    exists (- z). rewrite Hz. reflexivity.
Qed.

(** Rounding keeps the sign of a multiple of the subnormal step, and
    keeps it away from zero. *)
Lemma round_sign (q : Q) :
  representable q -> Arr.order (Binary64.round q) = (q ?= 0)%Q.
Proof.
  intros [z Hz]. unfold Binary64.round. cbv zeta.
  pose proof (Qred_correct q) as Hr.
  destruct (Qred q) as [a d] eqn:R. cbn [Qnum Qden].
  assert (Hq : (q ?= 0)%Q = (a ?= 0)).
  { rewrite <- Hr. unfold Qcompare. cbn [Qnum Qden]. now rewrite Z.mul_1_r. }
  rewrite Hq.
  assert (Hstep : forall n : positive,
             (Z.pos n # d == z # 2 ^ 1074)%Q
             \/ (Z.pos n # d == - z # 2 ^ 1074)%Q ->
             Z.pos d <= Z.pos n * 2 ^ 1074).
  { intros n H. change (2 ^ 1074) with (Z.pos (2 ^ 1074)).
    pose proof (Pos2Z.is_pos (2 ^ 1074)) as HP.
    destruct H as [H | H]; unfold Qeq in H; cbn [Qnum Qden] in H;
      revert H HP; generalize (Z.pos (2 ^ 1074)); intros P H HP.
    - assert (0 < z) by nia. rewrite H. nia.
    - assert (z < 0) by nia. rewrite H. nia. }
  destruct a as [|n|n].
  - reflexivity.
  - destruct (Binary64.roundPos n d) as [v|] eqn:E; [|reflexivity].
    apply roundPos_pos in E.
    + cbn [Arr.order]. change ((v ?= 0)%Q = Gt). now apply Qgt_alt.
    + apply Hstep. left. now rewrite Hr.
  - destruct (Binary64.roundPos n d) as [v|] eqn:E; [|reflexivity].
    apply roundPos_pos in E.
    + cbn [Arr.order]. apply (proj1 (Qlt_alt (- v) 0)). clear - E. lra.
    + apply Hstep. right.
      assert (A : (Z.neg n # d == z # 2 ^ 1074)%Q) by (rewrite Hr; exact Hz).
      unfold Qeq in A |- *. cbn [Qnum Qden] in A |- *.
      revert A. generalize (Z.pos (2 ^ 1074)). intros P A. lia.
Qed.

(** The difference of two finite values has the sign of their
    comparison: it is zero only when they are equal. *)
Lemma sub_order (x y : Q) :
  representable x -> representable y ->
  Arr.order (Num.sub (Fin x) (Fin y)) = (x ?= y)%Q.
Proof.
  intros [a Ha] [b Hb]. cbn [Num.sub].
  rewrite round_sign.
  - unfold Qcompare, Qminus, Qplus, Qopp. cbn [Qnum Qden].
    rewrite Z.mul_1_r.
    destruct (Z.compare_spec (Qnum x * QDen y) (Qnum y * QDen x))
      as [E | E | E].
    + apply Z.compare_eq_iff. lia.
    + apply Z.compare_lt_iff. lia.
    + apply Z.compare_gt_iff. lia.
  - exists (a - b). rewrite Ha, Hb.
    unfold Qeq, Qminus, Qplus, Qopp. cbn [Qnum Qden].
    rewrite !Pos2Z.inj_mul. generalize (Z.pos (2 ^ 1074)). intros P. ring.
Qed.

(** A value that is not positive rounds to a value that is not
    positive. *)
Lemma round_nonpos (q : Q) :
  (q <= 0)%Q ->
  (exists v, Binary64.round q = Fin v /\ (v <= 0)%Q)
  \/ Binary64.round q = Inf true.
Proof.
  intros Hq. unfold Binary64.round. cbv zeta.
  pose proof (Qred_correct q) as Hr.
  destruct (Qred q) as [a d]. cbn [Qnum Qden].
  destruct a as [|n|n].
  - left. exists 0%Q. split; [reflexivity | apply Qle_refl].
  - exfalso. rewrite <- Hr in Hq. unfold Qle in Hq. simpl in Hq. lia.
  - destruct (Binary64.roundPos n d) as [v|] eqn:E; [|now right].
    left. exists (- v)%Q. split; [reflexivity|].
    apply roundPos_nonneg in E. destruct E as [E _]. lra.
Qed.

Lemma add_representable (a b : num) (q : Q) :
  Num.add a b = Fin q -> representable q.
Proof.
  destruct a as [x| |s], b as [y| |t]; simpl; try discriminate.
  - apply round_representable.
  - destruct (Bool.eqb s t); discriminate.
Qed.

Lemma timeToMinutes_representable (time : string) (q : Q) :
  timeToMinutes time = Fin q -> representable q.
Proof.
  unfold timeToMinutes.
  destruct (negb (Str.truthy time) || negb (Str.includes time ":")).
  - intros [= <-]. exists 0. reflexivity.
  - cbv zeta. destruct (_ && _).
    + apply round_representable.
    + apply add_representable.
Qed.

(** Values at the edges of the format: 0.1, a tie above 2^53 that goes to
    the even neighbour, the overflow threshold, the largest finite value,
    and the subnormal step. *)
Lemma round_examples :
  Binary64.round (1 # 10) = Fin (3602879701896397 # 36028797018963968)
  /\ Binary64.round (inject_Z (2 ^ 53 + 1)) = Fin (inject_Z (2 ^ 53))
  /\ Binary64.round (inject_Z (2 ^ 53 + 3)) = Fin (inject_Z (2 ^ 53 + 4))
  /\ Binary64.round (inject_Z (2 ^ 1024 - 2 ^ 970)) = Inf false
  /\ Binary64.round (inject_Z (2 ^ 1024 - 2 ^ 970 - 1))
     = Fin (inject_Z (2 ^ 1024 - 2 ^ 971))
  /\ Binary64.round (1 # 2 ^ 1075) = Fin 0
  /\ Binary64.round (3 # 2 ^ 1075) = Fin (1 # 2 ^ 1073)
  /\ Binary64.round (- (3 # 2 ^ 1076)) = Fin (- (1 # 2 ^ 1074)).
Proof. repeat split; vm_compute; reflexivity. Qed.

(** ** Numbers: agreement with the binary64 of the standard library

    [SpecFloat] is the standard library's specification of IEEE 754
    arithmetic; at precision 53 and exponent bound 1024 it is binary64.
    The quotients and products the layout computes are the same in both
    readings, for clusters of up to 40 events and for every minute of a
    day and beyond. *)

Definition ofSpec (f : spec_float) : num :=
  match f with
  | S754_zero _ => Fin 0
  | S754_infinity s => Inf s
  | S754_nan => NaN
  | S754_finite s m e =>
      Fin (if s then - Binary64.value (Z.pos m) e
           else Binary64.value (Z.pos m) e)
  end.

Definition specOfZ (z : Z) : spec_float := binary_normalize 53 1024 z 0 false.

Definition sameNumber (a b : num) : bool :=
  match a, b with
  | Fin x, Fin y => (Qnum x =? Qnum y) && (Qden x =? Qden y)%positive
  | NaN, NaN => true
  | Inf s, Inf t => Bool.eqb s t
  | _, _ => false
  end.

Definition sameLayout (n k : Z) : bool :=
  let w := SFdiv 53 1024 (specOfZ 100) (specOfZ n) in
  let width := Num.div (Fin 100) (Num.ofZ n) in
  sameNumber (ofSpec w) width
  && sameNumber (ofSpec (SFmul 53 1024 (specOfZ k) w))
                (Num.mul (Num.ofZ k) width)
  && sameNumber (ofSpec (SFadd 53 1024 (SFmul 53 1024 (specOfZ k) w) w))
                (Num.add (Num.mul (Num.ofZ k) width) width).

Definition sameTop (minutes : Z) : bool :=
  sameNumber
    (ofSpec (SFmul 53 1024 (SFdiv 53 1024 (specOfZ minutes) (specOfZ 60))
                   (specOfZ 7)))
    (Num.mul (Num.div (Num.ofZ minutes) (Fin 60)) (Fin HOUR_HEIGHT_IN_REM)).

Lemma layout_agrees_with_SpecFloat :
  forallb (fun n => forallb (fun k => sameLayout (n + 1) (k - 1)) (upTo 42))
          (upTo 40) = true
  /\ forallb sameTop (upTo 1500) = true.
Proof. split; vm_compute; reflexivity. Qed.

(** ** Numbers: the order *)

Ltac order_cases :=
  repeat (cbn [Num.cmp];
          match goal with
          | |- context [(?p ?= ?q)%Q] => destruct (Qcompare_spec p q)
          | |- context [if ?b then _ else _] => destruct b
          end);
  first [reflexivity | exfalso; lra].

Lemma ltb_max (a b c : num) :
  Num.ltb (Num.max a b) c = Num.ltb a c && Num.ltb b c.
Proof.
  unfold Num.ltb, Num.max.
  destruct a as [x| |s], b as [y| |t], c as [z| |u]; cbn [Num.cmp];
    try reflexivity; order_cases.
Qed.

Lemma ltb_min (a c d : num) :
  Num.ltb a (Num.min c d) = Num.ltb a c && Num.ltb a d.
Proof.
  unfold Num.ltb, Num.min.
  destruct a as [x| |s], c as [y| |t], d as [z| |u]; cbn [Num.cmp];
    try reflexivity; order_cases.
Qed.

Lemma ltb_leb (a b : num) : Num.leb b a = true -> Num.ltb a b = false.
Proof.
  unfold Num.ltb, Num.leb.
  destruct a as [x| |[|]], b as [y| |[|]]; cbn [Num.cmp];
    try reflexivity; try discriminate.
  destruct (Qcompare_spec y x), (Qcompare_spec x y);
    try reflexivity; try discriminate; intros _; exfalso; lra.
Qed.

Lemma ltb_Fin (x y : Q) : Num.ltb (Fin x) (Fin y) = true <-> (x < y)%Q.
Proof.
  unfold Num.ltb. cbn [Num.cmp].
  destruct (Qcompare_spec x y); split; try discriminate; try reflexivity;
    intros; try assumption; exfalso; lra.
Qed.

Lemma seq_Fin (x y : Q) : Num.seq (Fin x) (Fin y) = true <-> (x == y)%Q.
Proof.
  unfold Num.seq. cbn [Num.cmp].
  destruct (Qcompare_spec x y); split; try discriminate; try reflexivity;
    intros; try assumption; exfalso; lra.
Qed.

Lemma ltb_exclusive (a b : num) :
  Num.ltb a b = true ->
  Num.ltb b a = false /\ Num.seq a b = false /\ Num.seq b a = false.
Proof.
  unfold Num.ltb, Num.seq.
  destruct a as [x| |[|]], b as [y| |[|]]; cbn [Num.cmp];
    try discriminate; try (intros _; repeat split; reflexivity).
  destruct (Qcompare_spec x y), (Qcompare_spec y x);
    try discriminate; intros _; repeat split; try reflexivity;
    exfalso; lra.
Qed.

(** [Math.max(5, d)] is 5 for a difference [d = e - s] of two times with
    [e <= s], unless the difference is NaN. *)
Lemma max_clamp (e s : num) :
  Num.leb e s = true -> Num.sub e s <> NaN ->
  Num.max (Fin 5) (Num.sub e s) = Fin 5.
Proof.
  unfold Num.leb, Num.max.
  destruct e as [y| |[|]], s as [x| |[|]]; cbn [Num.cmp Num.sub Bool.eqb negb];
    try discriminate; try reflexivity; try (intros _ H; now contradiction H).
  destruct (Qcompare_spec y x) as [E | E | E]; try discriminate; intros _ _.
  - destruct (round_nonpos (y - x)) as [[v [-> Hv]] | ->];
      [lra | | reflexivity].
    cbn [Num.cmp]. destruct (Qcompare_spec 5 v); try reflexivity; exfalso; lra.
  - destruct (round_nonpos (y - x)) as [[v [-> Hv]] | ->];
      [lra | | reflexivity].
    cbn [Num.cmp]. destruct (Qcompare_spec 5 v); try reflexivity; exfalso; lra.
Qed.

(** ** Layout: the cluster of an event *)

Definition startMinutes (e : Event) : num := timeToMinutes (startTime e).
Definition endMinutes (e : Event) : num := timeToMinutes (endTime e).

(** Two events are concurrent exactly when each of them starts before
    its own end and before the end of the other one. *)
Lemma isConcurrent_spec (myStart myEnd : num) (o : Event) :
  isConcurrent myStart myEnd o
  = (Num.ltb myStart myEnd && Num.ltb myStart (endMinutes o))
    && (Num.ltb (startMinutes o) myEnd
        && Num.ltb (startMinutes o) (endMinutes o)).
Proof.
  unfold isConcurrent, startMinutes, endMinutes. cbv zeta.
  now rewrite ltb_max, !ltb_min.
Qed.

Section LayoutFacts.

Variable localeCompare : string -> string -> Z.

Lemma isConcurrent_self (event : Event) :
  Num.ltb (startMinutes event) (endMinutes event) = true ->
  isConcurrent (startMinutes event) (endMinutes event) event = true.
Proof. intros H. rewrite isConcurrent_spec, H. reflexivity. Qed.

Lemma isConcurrent_inverted (event o : Event) :
  Num.leb (endMinutes event) (startMinutes event) = true ->
  isConcurrent (startMinutes event) (endMinutes event) o = false.
Proof.
  intros H. rewrite isConcurrent_spec, (ltb_leb _ _ H). reflexivity.
Qed.

Lemma cluster_In (dayEvents : list Event) (event o : Event) :
  In o (concurrentEvents localeCompare dayEvents event) <->
  In o dayEvents
  /\ isConcurrent (startMinutes event) (endMinutes event) o = true.
Proof.
  unfold concurrentEvents. rewrite sort_In, filter_In. reflexivity.
Qed.

Lemma cluster_inverted (dayEvents : list Event) (event : Event) :
  Num.leb (endMinutes event) (startMinutes event) = true ->
  concurrentEvents localeCompare dayEvents event = [].
Proof.
  intros H.
  destruct (concurrentEvents localeCompare dayEvents event) as [|o r] eqn:E; [reflexivity|].
  assert (Ho : In o (concurrentEvents localeCompare dayEvents event)) by (rewrite E; now left).
  apply cluster_In in Ho. destruct Ho as [_ Ho].
  rewrite (isConcurrent_inverted event o H) in Ho. discriminate.
Qed.

Lemma numConcurrent_length (dayEvents : list Event) (event o : Event) :
  In o (concurrentEvents localeCompare dayEvents event) ->
  numConcurrent localeCompare dayEvents event
  = Z.of_nat (length (concurrentEvents localeCompare dayEvents event))
  /\ 1 <= numConcurrent localeCompare dayEvents event.
Proof.
  intros Ho. unfold numConcurrent. cbv zeta.
  destruct (concurrentEvents localeCompare dayEvents event) as [|a r]; [contradiction|].
  cbn [length].
  destruct (Z.eqb_spec (Z.of_nat (S (length r))) 0); lia.
Qed.

End LayoutFacts.

Lemma frac_bounds (k n : Z) :
  0 <= k < n -> (0 <= inject_Z k / inject_Z n /\ inject_Z k / inject_Z n < 1)%Q.
Proof.
  intros [Hk Hn].
  assert (Pn : (0 < inject_Z n)%Q).
  { change 0%Q with (inject_Z 0). rewrite <- Zlt_Qlt. lia. }
  split.
  - apply Qle_shift_div_l; [exact Pn|].
    rewrite Qmult_0_l. change 0%Q with (inject_Z 0).
    rewrite <- Zle_Qle. exact Hk.
  - apply Qlt_shift_div_r; [exact Pn|].
    rewrite Qmult_1_l. rewrite <- Zlt_Qlt. exact Hn.
Qed.

(** ** Layout: an event and its own cluster *)

Lemma own_cluster_facts (localeCompare : string -> string -> Z)
      (dayEvents : list Event) (event : Event) :
  In event dayEvents ->
  Num.ltb (startMinutes event) (endMinutes event) = true ->
  In event (concurrentEvents localeCompare dayEvents event)
  /\ numConcurrent localeCompare dayEvents event
     = Z.of_nat (length (concurrentEvents localeCompare dayEvents event))
  /\ 1 <= numConcurrent localeCompare dayEvents event
  /\ 0 <= myIndex localeCompare dayEvents event
       < numConcurrent localeCompare dayEvents event.
Proof.
  intros Hin Hlt.
  assert (Hself : In event (concurrentEvents localeCompare dayEvents event)).
  { apply cluster_In. split; [exact Hin|]. now apply isConcurrent_self. }
  destruct (numConcurrent_length localeCompare dayEvents event event Hself)
    as [Hn H1].
  repeat split; try assumption.
  - unfold myIndex.
    apply (findIndex_some _ _ event Hself). apply String.eqb_refl.
  - unfold myIndex. rewrite Hn. apply findIndex_range.
Qed.

(** Sample events of one day. *)
Definition sampleEvent (i start finish : string) : Event :=
  mkEvent i "Evento" None 0 start finish "blue" [].

Definition evA : Event := sampleEvent "a" "09:00" "10:00".
Definition evB : Event := sampleEvent "b" "09:30" "10:30".
Definition evC : Event := sampleEvent "c" "10:15" "11:00".
Definition evInverted : Event := sampleEvent "x" "10:00" "09:00".
Definition evEndless : Event := sampleEvent "i" "Infinity:00" "Infinity:00".

(** C10, as the claim states it, fails on the height: an event whose two
    times are the same infinity has endMinutes <= startMinutes, and its
    duration Infinity - Infinity is NaN, which [Math.max] does not clamp;
    the height is NaN, not five minutes' worth. *)
Lemma C10_same_infinity_height_NaN :
  In evEndless [evEndless]
  /\ Num.leb (endMinutes evEndless) (startMinutes evEndless) = true
  /\ height (descriptorOf compareCodeUnits HOUR_HEIGHT_IN_REM
                          [evEndless] evEndless) = NaN
  /\ height (descriptorOf compareCodeUnits HOUR_HEIGHT_IN_REM
                          [evEndless] evEndless)
     <> Num.mul (Num.div (Fin 5) (Fin 60)) (Fin HOUR_HEIGHT_IN_REM).
Proof.
  split; [now left|]. split; [vm_compute; reflexivity|].
  assert (E : height (descriptorOf compareCodeUnits HOUR_HEIGHT_IN_REM
                                   [evEndless] evEndless) = NaN)
    by (vm_compute; reflexivity).
  split; [exact E|]. rewrite E. apply not_eq_sym, round_number.
Qed.

(** C10 (amended): an event with startMinutes < endMinutes is a member of
    its own cluster, so the cluster size n is at least 1 and its sorted
    position k satisfies 0 <= k < n, that is 0 <= k/n < 1; its left offset
    is k times the width 100/n, in percent.  For an event with endMinutes
    <= startMinutes the cluster is empty, the index looked up is -1, n is
    taken as 1, the width is 100 percent and the left offset is -100
    percent, that is -1/n; the height is clamped to five minutes unless
    endMinutes - startMinutes is NaN. *)
Theorem C10_own_cluster (localeCompare : string -> string -> Z)
        (dayEvents : list Event) (event : Event) :
  In event dayEvents ->
  (Num.ltb (startMinutes event) (endMinutes event) = true ->
   In event (concurrentEvents localeCompare dayEvents event)
   /\ numConcurrent localeCompare dayEvents event
      = Z.of_nat (length (concurrentEvents localeCompare dayEvents event))
   /\ 1 <= numConcurrent localeCompare dayEvents event
   /\ 0 <= myIndex localeCompare dayEvents event
        < numConcurrent localeCompare dayEvents event
   /\ (0 <= inject_Z (myIndex localeCompare dayEvents event)
            / inject_Z (numConcurrent localeCompare dayEvents event) < 1)%Q
   /\ Layout.left (layoutOf localeCompare dayEvents event)
      = Num.mul (Num.ofZ (myIndex localeCompare dayEvents event))
                (Num.div (Fin 100)
                   (Num.ofZ (numConcurrent localeCompare dayEvents event))))
  /\ (Num.leb (endMinutes event) (startMinutes event) = true ->
      concurrentEvents localeCompare dayEvents event = []
      /\ ~ In event (concurrentEvents localeCompare dayEvents event)
      /\ myIndex localeCompare dayEvents event = -1
      /\ numConcurrent localeCompare dayEvents event = 1
      /\ Layout.width (layoutOf localeCompare dayEvents event) = Fin 100
      /\ Layout.left (layoutOf localeCompare dayEvents event) = Fin (-100)
      /\ (Num.sub (endMinutes event) (startMinutes event) <> NaN ->
          forall hourHeight : Q,
            height (descriptorOf localeCompare hourHeight dayEvents event)
            = Num.mul (Num.div (Fin 5) (Fin 60)) (Fin hourHeight))).
Proof.
  intros Hin. split.
  - intros Hlt.
    destruct (own_cluster_facts localeCompare dayEvents event Hin Hlt)
      as [Hself [Hn [H1 Hk]]].
    destruct (frac_bounds _ _ Hk) as [B0 B1].
    repeat split; try assumption; try lia.
  - intros Hle.
    pose proof (cluster_inverted localeCompare dayEvents event Hle) as Hc.
    assert (Hi : myIndex localeCompare dayEvents event = -1).
    { unfold myIndex. rewrite Hc. reflexivity. }
    assert (Hn : numConcurrent localeCompare dayEvents event = 1).
    { unfold numConcurrent. rewrite Hc. reflexivity. }
    split; [exact Hc|]. split; [rewrite Hc; intros []|].
    split; [exact Hi|]. split; [exact Hn|].
    unfold layoutOf. cbn [Layout.width Layout.left]. rewrite Hi, Hn.
    split; [vm_compute; reflexivity|]. split; [vm_compute; reflexivity|].
    intros Hnum hourHeight.
    unfold descriptorOf, placementOf. cbn [height fst].
    fold (startMinutes event) (endMinutes event).
    now rewrite (max_clamp _ _ Hle Hnum).
Qed.

Lemma C10_own_cluster_witness :
  0 <= myIndex compareCodeUnits [evA; evInverted] evA
    < numConcurrent compareCodeUnits [evA; evInverted] evA
  /\ Layout.left (layoutOf compareCodeUnits [evA; evInverted] evInverted)
     = Fin (-100).
Proof.
  split.
  - destruct (C10_own_cluster compareCodeUnits [evA; evInverted] evA)
      as [H _]; [simpl; auto|].
    destruct H as [_ [_ [_ [H _]]]]; [vm_compute; reflexivity|].
    exact H.
  - destruct (C10_own_cluster compareCodeUnits [evA; evInverted] evInverted)
      as [_ H]; [simpl; auto|].
    destruct H as [_ [_ [_ [_ [_ [H _]]]]]]; [vm_compute; reflexivity|].
    exact H.
Defined.

(** ** Layout: events with pairwise distinct ids *)

Lemma ids_filter (f : Event -> bool) (l : list Event) :
  NoDup (map id l) -> NoDup (map id (filter f l)).
Proof.
  induction l as [|x r IH]; simpl; intros H; [constructor|].
  inversion H as [|? ? Hx Hr]; subst.
  destruct (f x); simpl; [|auto].
  constructor; [|auto].
  intros Hin. apply Hx.
  apply in_map_iff in Hin. destruct Hin as [y [Ey Hy]].
  apply filter_In in Hy. apply in_map_iff. exists y. tauto.
Qed.

Lemma ids_injective (l : list Event) (a b : Event) :
  NoDup (map id l) -> In a l -> In b l -> id a = id b -> a = b.
Proof.
  induction l as [|x r IH]; simpl; intros H Ha Hb E; [contradiction|].
  inversion H as [|? ? Hx Hr]; subst.
  destruct Ha as [-> | Ha], Hb as [-> | Hb]; auto.
  - exfalso. apply Hx. rewrite E. now apply in_map.
  - exfalso. apply Hx. rewrite <- E. now apply in_map.
Qed.

Section DistinctIds.

Variable localeCompare : string -> string -> Z.

Lemma cluster_ids (dayEvents : list Event) (event : Event) :
  NoDup (map id dayEvents) ->
  NoDup (map id (concurrentEvents localeCompare dayEvents event)).
Proof.
  intros H. unfold concurrentEvents.
  eapply Permutation_NoDup.
  - apply Permutation_map, Permutation_sym, sort_perm.
  - now apply ids_filter.
Qed.

(** With distinct ids the index looked up by id is the position of the
    event in the sorted cluster. *)
Lemma findIndex_position (l : list Event) (i : nat) (o : Event) :
  NoDup (map id l) -> nth_error l i = Some o ->
  Arr.findIndex (fun x => (id x =? id o)%string) l = Z.of_nat i.
Proof.
  intros Hnd Hi.
  apply (findIndex_at _ l i o Hi); [apply String.eqb_refl|].
  intros j y Hj Hy. apply String.eqb_eq in Hy.
  rewrite NoDup_nth_error in Hnd. apply Hnd.
  - rewrite length_map. apply nth_error_Some. congruence.
  - rewrite !nth_error_map, Hi, Hj. simpl. now rewrite Hy.
Qed.

End DistinctIds.

(** ** Layout: horizontal slots *)

(** C1, as the claim states it, fails: A (09:00-10:00) and B (09:30-10:30)
    share the cluster of A, A comes first, and C (10:15-11:00) overlaps B
    only; A gets the slot from 0 to 50 percent from its own cluster and B
    the slot from 33.3 to 66.7 percent from its own, and the two slots
    overlap: neither ends where the other starts or before. *)
Lemma C1_slots_overlap :
  let day := [evA; evB; evC] in
  let a := layoutOf compareCodeUnits day evA in
  let b := layoutOf compareCodeUnits day evB in
  concurrentEvents compareCodeUnits day evA = [evA; evB]
  /\ Num.leb (Num.add (Layout.left a) (Layout.width a)) (Layout.left b)
     = false
  /\ Num.leb (Num.add (Layout.left b) (Layout.width b)) (Layout.left a)
     = false.
Proof.
  cbv zeta. split; [vm_compute; reflexivity|].
  split; vm_compute; reflexivity.
Qed.

(** Nine events of the same hour share one cluster.  The sixth column
    ends at left + width = 66.66666666666669 percent in binary64, past
    the start of the seventh column at 66.66666666666667 percent: the
    columns are disjoint up to the rounding of the products and of the
    sum only. *)
Definition nineAtNine : list Event :=
  map (fun i => sampleEvent i "09:00" "10:00")
      ["a"; "b"; "c"; "d"; "e"; "f"; "g"; "h"; "i"].

Lemma nine_columns_rounding :
  let sixth := layoutOf compareCodeUnits nineAtNine
                        (sampleEvent "f" "09:00" "10:00") in
  let seventh := layoutOf compareCodeUnits nineAtNine
                          (sampleEvent "g" "09:00" "10:00") in
  Layout.width sixth = Layout.width seventh
  /\ Num.ltb (Layout.left seventh)
             (Num.add (Layout.left sixth) (Layout.width sixth)) = true.
Proof. cbv zeta. split; vm_compute; reflexivity. Qed.

(** C1 (amended): in a day whose events have pairwise distinct ids, two
    events whose concurrency clusters coincide are placed in two columns
    of the same split: with n the size of the cluster and i < j the sorted
    positions of [e] and [o], both get the width 100/n percent, [e] gets
    the left offset i * width and [o] the left offset j * width, computed
    in binary64; of the exact fractions, (i + 1)/n <= j/n. *)
Theorem C1_same_cluster_slots (localeCompare : string -> string -> Z)
        (dayEvents : list Event) (e o : Event) (i j : nat) :
  NoDup (map id dayEvents) ->
  concurrentEvents localeCompare dayEvents e
  = concurrentEvents localeCompare dayEvents o ->
  nth_error (concurrentEvents localeCompare dayEvents e) i = Some e ->
  nth_error (concurrentEvents localeCompare dayEvents e) j = Some o ->
  (i < j)%nat ->
  let n := Z.of_nat (length (concurrentEvents localeCompare dayEvents e)) in
  let width := Num.div (Fin 100) (Num.ofZ n) in
  layoutOf localeCompare dayEvents e
  = Layout.mk width (Num.mul (Num.ofZ (Z.of_nat i)) width)
  /\ layoutOf localeCompare dayEvents o
     = Layout.mk width (Num.mul (Num.ofZ (Z.of_nat j)) width)
  /\ Z.of_nat j < n
  /\ ((inject_Z (Z.of_nat i) + 1) / inject_Z n
      <= inject_Z (Z.of_nat j) / inject_Z n)%Q.
Proof.
  intros Hnd Hsame Hi Hj Hij. cbv zeta.
  pose proof (cluster_ids localeCompare dayEvents e Hnd) as Hc.
  assert (Ie : myIndex localeCompare dayEvents e = Z.of_nat i).
  { unfold myIndex. now apply findIndex_position. }
  assert (Io : myIndex localeCompare dayEvents o = Z.of_nat j).
  { unfold myIndex. rewrite <- Hsame. now apply findIndex_position. }
  assert (Hin : In e (concurrentEvents localeCompare dayEvents e))
    by (eapply nth_error_In; eauto).
  destruct (numConcurrent_length localeCompare dayEvents e e Hin) as [Hn H1].
  assert (No : numConcurrent localeCompare dayEvents o
               = numConcurrent localeCompare dayEvents e).
  { unfold numConcurrent. now rewrite Hsame. }
  assert (Hjn : Z.of_nat j
                < Z.of_nat (length (concurrentEvents localeCompare dayEvents e))).
  { apply Nat2Z.inj_lt. apply nth_error_Some. congruence. }
  split; [|split; [|split]].
  - unfold layoutOf. now rewrite Ie, Hn.
  - unfold layoutOf. now rewrite Io, No, Hn.
  - exact Hjn.
  - rewrite <- Hn.
    set (n := inject_Z (numConcurrent localeCompare dayEvents e)).
    assert (Pn : (0 < n)%Q).
    { unfold n. change 0%Q with (inject_Z 0). rewrite <- Zlt_Qlt. lia. }
    assert (L : (inject_Z (Z.of_nat i) + 1 <= inject_Z (Z.of_nat j))%Q).
    { change 1%Q with (inject_Z 1).
      rewrite <- inject_Z_plus, <- Zle_Qle. lia. }
    unfold Qdiv. apply Qmult_le_compat_r; [exact L|].
    apply Qlt_le_weak, Qinv_lt_0_compat, Pn.
Qed.

Lemma C1_same_cluster_slots_witness :
  layoutOf compareCodeUnits [evA; evB] evA = Layout.mk (Fin 50) (Fin 0)
  /\ layoutOf compareCodeUnits [evA; evB] evB = Layout.mk (Fin 50) (Fin 50).
Proof.
  destruct (C1_same_cluster_slots compareCodeUnits [evA; evB] evA evB 0 1)
    as [Ha [Hb _]].
  - repeat constructor; simpl; intuition discriminate.
  - vm_compute. reflexivity.
  - vm_compute. reflexivity.
  - vm_compute. reflexivity.
  - lia.
  - split.
    + rewrite Ha. vm_compute. reflexivity.
    + rewrite Hb. vm_compute. reflexivity.
Defined.

(** ** Layout: the reference descriptor *)

(** The descriptor the specification gives for an event of a day, in its
    own words: the concurrency cluster, its order, the slot by position
    and the vertical extent.  The order of ids is the one
    [localeCompare] gives.  The fractions 1/n and k/n are the percentages
    100/n and k * (100/n) of the style, in the arithmetic of the
    program. *)
Module Spec.
Section Reference.

Variable localeCompare : string -> string -> Z.

Definition overlaps (e o : Event) : Prop :=
  Num.ltb (Num.max (startMinutes e) (startMinutes o))
          (Num.min (endMinutes e) (endMinutes o)) = true.

Definition precedes (a b : Event) : Prop :=
  Num.ltb (startMinutes a) (startMinutes b) = true
  \/ (Num.seq (startMinutes a) (startMinutes b) = true
      /\ localeCompare (id a) (id b) <= 0).

Definition isCluster (dayEvents : list Event) (e : Event)
           (c : list Event) : Prop :=
  NoDup c
  /\ (forall o, In o c <-> In o dayEvents /\ overlaps e o)
  /\ StronglySorted precedes c.

Definition reference (hourHeight : Q) (dayEvents : list Event)
           (e : Event) (d : Placement) : Prop :=
  exists (c : list Event) (k : nat),
    isCluster dayEvents e c
    /\ nth_error c k = Some e
    /\ widthPercent d = Num.div (Fin 100) (Num.ofZ (Z.of_nat (length c)))
    /\ leftPercent d = Num.mul (Num.ofZ (Z.of_nat k)) (widthPercent d)
    /\ top d = Num.mul (Num.div (startMinutes e) (Fin 60)) (Fin hourHeight)
    /\ height d
       = Num.mul (Num.div (Num.max (Fin 5)
                                   (Num.sub (endMinutes e) (startMinutes e)))
                          (Fin 60))
                 (Fin hourHeight).

End Reference.
End Spec.

(** [localeCompare] orders the given ids consistently: a positive result
    is not positive the other way round, and "not after" is transitive. *)
Definition consistentOn (localeCompare : string -> string -> Z)
           (ids : list string) : bool :=
  forallb (fun a =>
    forallb (fun b =>
      implb (0 <? localeCompare a b) (localeCompare b a <=? 0)
      && forallb (fun c =>
           implb ((localeCompare a b <=? 0) && (localeCompare b c <=? 0))
                 (localeCompare a c <=? 0)) ids) ids) ids.

Lemma consistentOn_spec (lc : string -> string -> Z) (ids : list string) :
  consistentOn lc ids = true ->
  (forall a b, In a ids -> In b ids -> 0 < lc a b -> lc b a <= 0)
  /\ (forall a b c, In a ids -> In b ids -> In c ids ->
                    lc a b <= 0 -> lc b c <= 0 -> lc a c <= 0).
Proof.
  unfold consistentOn. intros H. rewrite forallb_forall in H. split.
  - intros a b Ha Hb L. specialize (H a Ha).
    rewrite forallb_forall in H. specialize (H b Hb).
    apply andb_prop in H. destruct H as [H _].
    destruct (Z.ltb_spec 0 (lc a b)); [|lia].
    simpl in H. now apply Z.leb_le.
  - intros a b c Ha Hb Hc L1 L2. specialize (H a Ha).
    rewrite forallb_forall in H. specialize (H b Hb).
    apply andb_prop in H. destruct H as [_ H].
    rewrite forallb_forall in H. specialize (H c Hc).
    destruct (Z.leb_spec (lc a b) 0); [|lia].
    destruct (Z.leb_spec (lc b c) 0); [|lia].
    simpl in H. now apply Z.leb_le.
Qed.

Section SortedCluster.

Variable localeCompare : string -> string -> Z.
Variable dayEvents : list Event.
Hypothesis consistent :
  consistentOn localeCompare (map id dayEvents) = true.

(** The events the comparator orders by their difference: of the day,
    with a finite start. *)
Definition comparable (x : Event) : Prop :=
  In x dayEvents /\ exists q, startMinutes x = Fin q.

Lemma order_ofZ (z : Z) :
  Arr.order (Num.ofZ z) = (z ?= 0).
Proof.
  unfold Num.ofZ, Arr.order, Qcompare. simpl.
  now rewrite Z.mul_1_r.
Qed.

(** What [sort] reads from the comparator on two events with finite
    starts: the comparison of the starts, and [localeCompare] on the ids
    when the starts are equal. *)
Lemma compareEvents_order (a b : Event) (x y : Q) :
  startMinutes a = Fin x -> startMinutes b = Fin y ->
  Arr.order (compareEvents localeCompare a b)
  = match (x ?= y)%Q with
    | Eq => localeCompare (id a) (id b) ?= 0
    | c => c
    end.
Proof.
  intros Ex Ey. unfold compareEvents. cbv zeta.
  pose proof (timeToMinutes_representable _ _ Ex) as Rx.
  pose proof (timeToMinutes_representable _ _ Ey) as Ry.
  unfold startMinutes in Ex, Ey. rewrite Ex, Ey.
  pose proof (sub_order x y Rx Ry) as S.
  pose proof (round_number (x - y)) as N.
  change (Binary64.round (x - y)) with (Num.sub (Fin x) (Fin y)) in N.
  destruct (Num.sub (Fin x) (Fin y)) as [v| |s].
  - cbn [Arr.order] in S. unfold Num.seq. cbn [Num.cmp].
    rewrite S. destruct (x ?= y)%Q eqn:C; cbn [negb].
    + apply order_ofZ.
    + cbn [Arr.order]. exact S.
    + cbn [Arr.order]. exact S.
  - now contradiction N.
  - cbn [Arr.order] in S. rewrite <- S. now destruct s.
Qed.

Lemma precedes_gt (a b : Event) :
  comparable a -> comparable b ->
  Arr.order (compareEvents localeCompare a b) = Gt ->
  Spec.precedes localeCompare b a.
Proof.
  intros [Ia [x Ex]] [Ib [y Ey]].
  rewrite (compareEvents_order a b x y Ex Ey).
  unfold Spec.precedes. rewrite Ex, Ey.
  destruct (Qcompare_spec x y) as [E | E | E].
  - intros G. apply Z.compare_gt_iff in G. right. split.
    + apply seq_Fin. now symmetry.
    + destruct (consistentOn_spec _ _ consistent) as [Anti _].
      apply Anti; auto using in_map.
  - discriminate.
  - intros _. left. now apply ltb_Fin.
Qed.

Lemma precedes_le (a b : Event) :
  comparable a -> comparable b ->
  Arr.order (compareEvents localeCompare a b) <> Gt ->
  Spec.precedes localeCompare a b.
Proof.
  intros [Ia [x Ex]] [Ib [y Ey]].
  rewrite (compareEvents_order a b x y Ex Ey).
  unfold Spec.precedes. rewrite Ex, Ey.
  destruct (Qcompare_spec x y) as [E | E | E].
  - intros G. right. split.
    + now apply seq_Fin.
    + destruct (Z.compare_spec (localeCompare (id a) (id b)) 0);
        try lia. congruence.
  - intros _. left. now apply ltb_Fin.
  - intros G. now contradiction G.
Qed.

Lemma precedes_trans (a b c : Event) :
  comparable a -> comparable b -> comparable c ->
  Spec.precedes localeCompare a b -> Spec.precedes localeCompare b c ->
  Spec.precedes localeCompare a c.
Proof.
  intros [Ia [x Ex]] [Ib [y Ey]] [Ic [z Ez]].
  unfold Spec.precedes. rewrite Ex, Ey, Ez.
  rewrite !ltb_Fin, !seq_Fin.
  intros [H1 | [H1 L1]] [H2 | [H2 L2]].
  - left. lra.
  - left. lra.
  - left. lra.
  - right. split; [lra|].
    destruct (consistentOn_spec _ _ consistent) as [_ Tr].
    apply (Tr (id a) (id b) (id c)); auto using in_map.
Qed.

Lemma ltb_start (a b : num) :
  Num.ltb a b = true -> a <> Inf true -> exists q, a = Fin q.
Proof.
  unfold Num.ltb.
  destruct a as [x| |[|]]; cbn [Num.cmp]; intros H N.
  - now exists x.
  - discriminate.
  - now contradiction N.
  - destruct b as [y| |[|]]; discriminate.
Qed.

Lemma cluster_sorted (event : Event) :
  (forall o, In o dayEvents ->
             isConcurrent (startMinutes event) (endMinutes event) o = true ->
             startMinutes o <> Inf true) ->
  StronglySorted (Spec.precedes localeCompare)
                 (concurrentEvents localeCompare dayEvents event).
Proof.
  intros Hfin. unfold concurrentEvents.
  apply (sort_sorted _ _ comparable).
  - intros a b c. apply precedes_trans.
  - intros a b. apply precedes_gt.
  - intros a b. apply precedes_le.
  - apply Forall_forall. intros o Ho.
    apply filter_In in Ho. destruct Ho as [Hin Hc].
    split; [exact Hin|].
    pose proof (Hfin o Hin Hc) as N.
    rewrite isConcurrent_spec in Hc.
    apply andb_prop in Hc. destruct Hc as [_ Hc].
    apply andb_prop in Hc. destruct Hc as [_ Hc].
    exact (ltb_start _ _ Hc N).
Qed.

End SortedCluster.

(** C3, as the claim states it, fails: an event with endMinutes <=
    startMinutes is not in its own concurrency cluster, so it has no
    sorted position there and its descriptor is not the reference one;
    the component places it at left -100%. *)
Lemma C3_inverted_event_has_no_reference :
  In evInverted [evInverted]
  /\ leftPercent (descriptorOf compareCodeUnits HOUR_HEIGHT_IN_REM
                               [evInverted] evInverted) = Fin (-100)
  /\ ~ Spec.reference compareCodeUnits HOUR_HEIGHT_IN_REM [evInverted]
         evInverted
         (descriptorOf compareCodeUnits HOUR_HEIGHT_IN_REM
                       [evInverted] evInverted).
Proof.
  split; [now left|]. split; [vm_compute; reflexivity|].
  intros [c [k [[_ [Hc _]] [Hk _]]]].
  apply nth_error_In in Hk. apply Hc in Hk. destruct Hk as [_ Ho].
  unfold Spec.overlaps in Ho. vm_compute in Ho. discriminate.
Qed.

(** C3 (amended): in a day whose events have pairwise distinct ids, which
    [localeCompare] orders consistently, every event with startMinutes <
    endMinutes that no event starting at -Infinity overlaps gets the
    reference descriptor: its cluster holds the events [o] of the day
    with max(start(e), start(o)) < min(end(e), end(o)), sorted by
    startMinutes and then by [localeCompare] on the id; at sorted position
    k of n it gets the width 100/n percent and the left offset k * width
    percent, computed in binary64; top is startMinutes/60 * hourHeight and
    height is max(5, endMinutes - startMinutes)/60 * hourHeight. *)
Theorem C3_reference_descriptor (localeCompare : string -> string -> Z)
        (hourHeight : Q) (dayEvents : list Event) (event : Event) :
  NoDup (map id dayEvents) ->
  consistentOn localeCompare (map id dayEvents) = true ->
  In event dayEvents ->
  Num.ltb (startMinutes event) (endMinutes event) = true ->
  (forall o, In o dayEvents -> Spec.overlaps event o ->
             startMinutes o <> Inf true) ->
  Spec.reference localeCompare hourHeight dayEvents event
                 (descriptorOf localeCompare hourHeight dayEvents event).
Proof.
  intros Hnd Hcons Hin Hlt Hfin.
  destruct (own_cluster_facts localeCompare dayEvents event Hin Hlt)
    as [Hself [Hn [H1 Hk]]].
  exists (concurrentEvents localeCompare dayEvents event),
         (Z.to_nat (myIndex localeCompare dayEvents event)).
  pose proof (cluster_ids localeCompare dayEvents event Hnd) as Hids.
  split; [|split; [|split; [|split; [|split]]]].
  - split; [now apply NoDup_map_inv in Hids|]. split.
    + intros o. apply cluster_In.
    + apply cluster_sorted; assumption.
  - destruct (findIndex_nth (fun e => (id e =? id event)%string)
                            (concurrentEvents localeCompare dayEvents event))
      as [y [Hy Ey]]; [apply Hk|].
    fold (myIndex localeCompare dayEvents event) in Hy.
    rewrite Hy. f_equal.
    apply String.eqb_eq in Ey.
    apply (ids_injective dayEvents); auto.
    apply nth_error_In in Hy. now apply cluster_In in Hy.
  - unfold descriptorOf, placementOf, layoutOf.
    cbn [widthPercent snd Layout.width]. now rewrite <- Hn.
  - unfold descriptorOf, placementOf, layoutOf.
    cbn [widthPercent leftPercent snd Layout.width Layout.left].
    now rewrite Z2Nat.id by lia.
  - reflexivity.
  - reflexivity.
Qed.

Lemma C3_reference_descriptor_witness :
  Spec.reference compareCodeUnits HOUR_HEIGHT_IN_REM [evA; evB; evC] evB
                 (descriptorOf compareCodeUnits HOUR_HEIGHT_IN_REM
                               [evA; evB; evC] evB).
Proof.
  apply C3_reference_descriptor.
  - repeat constructor; simpl; intuition discriminate.
  - vm_compute. reflexivity.
  - simpl. auto.
  - vm_compute. reflexivity.
  - intros o [<- | [<- | [<- | []]]] _; vm_compute; discriminate.
Defined.

(** ** Color resolution *)

(** The rule of the specification: the given color if it is the color of
    a category, else the color of the category the given name names, else
    the first category color, else the first palette entry. *)
Module ColorRule.

Definition firstAvailable (map : Obj.t) : string :=
  match Obj.values map with
  | c :: _ => c
  | [] => nth 0 AVAILABLE_COLORS ""
  end.

Definition byCategory (map : Obj.t) (category : option string) : string :=
  match category with
  | Some n =>
      match Obj.get map n with
      | Some c => c
      | None => firstAvailable map
      end
  | None => firstAvailable map
  end.

Definition resolved (map : Obj.t) (color category : option string)
  : string :=
  match color with
  | Some c =>
      if in_dec string_dec c (Obj.values map) then c
      else byCategory map category
  | None => byCategory map category
  end.

End ColorRule.

(** Category names and colors are non-empty strings. *)
Definition categoriesWellFormed (map : Obj.t) : bool :=
  forallb (fun kv => Str.truthy (fst kv) && Str.truthy (snd kv)) map.

Lemma truthy_true (s : string) : Str.truthy s = true <-> s <> "".
Proof.
  unfold Str.truthy. destruct (String.eqb_spec s ""); simpl; split;
    congruence.
Qed.

Lemma truthy_false (s : string) : Str.truthy s = false <-> s = "".
Proof.
  unfold Str.truthy. destruct (String.eqb_spec s ""); simpl; split;
    congruence.
Qed.

Lemma existsb_eqb (c : string) (l : list string) :
  existsb (String.eqb c) l = true <-> In c l.
Proof.
  rewrite existsb_exists. split.
  - intros [x [Hx E]]. apply String.eqb_eq in E. now subst.
  - intros H. exists c. split; [exact H | apply String.eqb_refl].
Qed.

Lemma get_In (map : Obj.t) (k v : string) :
  Obj.get map k = Some v -> In (k, v) map.
Proof.
  induction map as [|[k' v'] r IH]; simpl; [discriminate|].
  destruct (String.eqb_spec k' k).
  - intros [= ->]. subst. now left.
  - intros H. right. now apply IH.
Qed.

Lemma get_value (map : Obj.t) (k v : string) :
  Obj.get map k = Some v -> In v (Obj.values map).
Proof.
  intros H. apply get_In in H. unfold Obj.values.
  apply in_map_iff. now exists (k, v).
Qed.

Lemma wellFormed_entry (map : Obj.t) (k v : string) :
  categoriesWellFormed map = true -> In (k, v) map -> k <> "" /\ v <> "".
Proof.
  unfold categoriesWellFormed. rewrite forallb_forall. intros H Hin.
  specialize (H _ Hin). apply andb_prop in H. simpl in H.
  now rewrite !truthy_true in H.
Qed.

Lemma resolveEventColor_rule (input : Input.AssistantEventInput)
      (map : Obj.t) :
  categoriesWellFormed map = true ->
  resolveEventColor input map
  = ColorRule.resolved map (Input.color input) (Input.category input).
Proof.
  intros WF. unfold resolveEventColor, ColorRule.resolved.
  assert (Cat :
    match Input.category input with
    | Some cat =>
        if Str.truthy cat && Str.present (Obj.get map cat)
        then Str.orElse (Obj.get map cat) ""
        else match Obj.values map with
             | c :: _ => c
             | [] => nth 0 AVAILABLE_COLORS ""
             end
    | None => match Obj.values map with
              | c :: _ => c
              | [] => nth 0 AVAILABLE_COLORS ""
              end
    end = ColorRule.byCategory map (Input.category input)).
  { unfold ColorRule.byCategory, ColorRule.firstAvailable.
    destruct (Input.category input) as [cat|]; [|reflexivity].
    destruct (Obj.get map cat) as [v|] eqn:G.
    - pose proof (wellFormed_entry map cat v WF (get_In _ _ _ G)) as [Hk Hv].
      apply truthy_true in Hk, Hv. simpl. now rewrite Hk, Hv.
    - simpl. now rewrite andb_false_r. }
  destruct (Input.color input) as [c|]; simpl Str.present.
  - destruct (Str.truthy c) eqn:T; simpl.
    + rewrite T.
      destruct (in_dec string_dec c (Obj.values map)) as [Hin | Hout].
      * apply existsb_eqb in Hin. now rewrite Hin.
      * destruct (existsb (String.eqb c) (Obj.values map)) eqn:E;
          [apply existsb_eqb in E; contradiction | exact Cat].
    + destruct (in_dec string_dec c (Obj.values map)) as [Hin | Hout];
        [|exact Cat].
      exfalso. apply truthy_false in T. subst c.
      unfold Obj.values in Hin. apply in_map_iff in Hin.
      destruct Hin as [[k v] [E Hin]]. simpl in E. subst v.
      now destruct (wellFormed_entry map k "" WF Hin).
  - exact Cat.
Qed.

(** ** The reconciler: create *)

Definition PLACEHOLDER_TITLE : string := "Nuovo evento".

(** The action of scenario C. *)
Definition scenarioC : AssistantAction :=
  mkAction create
    (Some (Input.mk None (Some "Riunione") None (Some "2024-05-01")
                    None None None None None)).

(** The id a create action gives its event: the id of the payload, or
    the reading of the clock. *)
Definition createdId (eventInput : Input.AssistantEventInput)
           (w : Host.World) : string :=
  if Str.present (Input.id eventInput)
  then Str.orElse (Input.id eventInput) ""
  else Host.toString 10 (Host.nowAt w (Host.reads w)).

(** The category name of the payload, if any, is not answered by the
    prototype chain of the category map. *)
Definition namesOwnCategory (colorMap : Obj.t)
           (eventInput : Input.AssistantEventInput) : bool :=
  match Input.category eventInput with
  | Some cat => negb (Obj.inherits colorMap cat)
  | None => true
  end.

Lemma single_action (Date_parse : string -> option Date) (colorMap : Obj.t)
      (action : AssistantAction) (nextEvents : list Event) (w : Host.World) :
  applyAssistantActions Date_parse colorMap [action] nextEvents w
  = applyAction Date_parse colorMap nextEvents action w.
Proof.
  unfold applyAssistantActions, forEach, Host.bind, Host.ret.
  now destruct (applyAction Date_parse colorMap nextEvents action w).
Qed.

Lemma applyCreate_appends (Date_parse : string -> option Date)
      (colorMap : Obj.t) (nextEvents : list Event)
      (eventInput : Input.AssistantEventInput) (d : Date) (w : Host.World) :
  parseAssistantDate Date_parse (Input.date eventInput) = Some d ->
  exists i ts w',
    applyCreate Date_parse colorMap nextEvents eventInput w
    = ((nextEvents ++
          [mkEvent i
             (Str.orElse (trimmed (Input.title eventInput)) PLACEHOLDER_TITLE)
             (Some (Str.orElse (trimmed (Input.description eventInput)) ""))
             d
             (Str.orElse (Input.startTime eventInput) "09:00")
             (Str.orElse (Input.endTime eventInput) "10:00")
             (resolveEventColor eventInput colorMap)
             ts])%list, w')
    /\ i = createdId eventInput w
    /\ (forall g, Input.id eventInput = Some g -> g <> "" -> i = g).
Proof.
  intros P. unfold applyCreate, createdId. rewrite P. unfold Host.bind.
  destruct (Str.present (Input.id eventInput)) eqn:Pid.
  - unfold Host.ret at 1.
    destruct (normaliseTodos (Input.todos eventInput) w) as [ts w'] eqn:T.
    exists (Str.orElse (Input.id eventInput) ""), ts, w'.
    split; [reflexivity|]. split; [reflexivity|].
    intros g -> Hg. simpl. apply truthy_true in Hg. now rewrite Hg.
  - destruct (Host.Date_now w) as [n w1] eqn:N. unfold Host.ret at 1.
    destruct (normaliseTodos (Input.todos eventInput) w1) as [ts w'] eqn:T.
    exists (Host.toString 10 n), ts, w'.
    split; [reflexivity|]. split.
    + unfold Host.Date_now in N. now injection N as <- _.
    + intros g E Hg. rewrite E in Pid. simpl in Pid.
      apply truthy_true in Hg. congruence.
Qed.

(** A host that parses the date of scenario C and no other string, and a
    world whose clock stays at that date for every read. *)
Definition sampleDateParse (s : string) : option Date :=
  if (s =? "2024-05-01")%string then Some 1714521600000 else None.

Definition sampleWorld : Host.World :=
  Host.mkWorld (fun _ => 1714521600000) (fun _ => "k3x9q2") 0.

(** C4, as the claim states it, fails on the color: the program reads the
    color of the named category with a truthiness test, so a category the
    map holds with an empty color is passed over and the created event
    gets the first category color, not the color of the category it
    names. *)
Lemma C4_named_category_passed_over :
  let categories := [("lavoro", "blue"); ("bozza", "")] in
  let named :=
    mkAction create
      (Some (Input.mk None (Some "Riunione") None (Some "2024-05-01")
                      None None None (Some "bozza") None)) in
  Obj.get categories "bozza" = Some ""
  /\ exists newEvent w',
      applyAssistantActions sampleDateParse categories [named] [] sampleWorld
      = ([newEvent], w')
      /\ color newEvent = "blue"
      /\ Some (color newEvent) <> Obj.get categories "bozza".
Proof.
  cbv zeta. split; [reflexivity|].
  eexists. eexists. split; [vm_compute; reflexivity|].
  split; [reflexivity | discriminate].
Qed.

(** C4 (amended): a create action whose date is missing or does not parse
    is skipped and leaves the collection as it was; otherwise one event
    is appended, with the placeholder title when the title is absent or
    blank, with "09:00" and "10:00" when the times are absent, and with
    the color the rule gives when the names and colors of the categories
    are non-empty and the category name of the payload is not one that
    only [Object.prototype] answers: the given color if a category has
    it, else the color of the named category, else the first category
    color, else the first palette entry.  Scenario C appends one event
    from 09:00 to 10:00 with the first category color. *)
Theorem C4_create (Date_parse : string -> option Date) (colorMap : Obj.t)
        (nextEvents : list Event) (eventInput : Input.AssistantEventInput)
        (w : Host.World) :
  ((Input.date eventInput = None
    \/ exists s, Input.date eventInput = Some s /\ Date_parse s = None) ->
   applyAssistantActions Date_parse colorMap
     [mkAction create (Some eventInput)] nextEvents w = (nextEvents, w))
  /\ (forall s d,
         Input.date eventInput = Some s -> s <> "" -> Date_parse s = Some d ->
         exists newEvent w',
           applyAssistantActions Date_parse colorMap
             [mkAction create (Some eventInput)] nextEvents w
           = ((nextEvents ++ [newEvent])%list, w')
           /\ date newEvent = d
           /\ (Input.title eventInput = None -> title newEvent = PLACEHOLDER_TITLE)
           /\ (forall t, Input.title eventInput = Some t ->
                         Str.trim t = "" -> title newEvent = PLACEHOLDER_TITLE)
           /\ (forall t, Input.title eventInput = Some t ->
                         Str.trim t <> "" -> title newEvent = Str.trim t)
           /\ (Input.startTime eventInput = None -> startTime newEvent = "09:00")
           /\ (Input.endTime eventInput = None -> endTime newEvent = "10:00")
           /\ (forall t, Input.startTime eventInput = Some t -> t <> "" ->
                         startTime newEvent = t)
           /\ (forall t, Input.endTime eventInput = Some t -> t <> "" ->
                         endTime newEvent = t)
           /\ (categoriesWellFormed colorMap = true ->
               namesOwnCategory colorMap eventInput = true ->
               color newEvent
               = ColorRule.resolved colorMap (Input.color eventInput)
                                    (Input.category eventInput)))
  /\ (forall d,
         Date_parse "2024-05-01" = Some d ->
         exists newEvent w',
           applyAssistantActions Date_parse colorMap [scenarioC] nextEvents w
           = ((nextEvents ++ [newEvent])%list, w')
           /\ title newEvent = "Riunione"
           /\ date newEvent = d
           /\ startTime newEvent = "09:00"
           /\ endTime newEvent = "10:00"
           /\ color newEvent = ColorRule.firstAvailable colorMap).
Proof.
  split; [|split].
  - intros H. rewrite single_action.
    change (applyCreate Date_parse colorMap nextEvents eventInput w
            = (nextEvents, w)).
    unfold applyCreate.
    assert (P : parseAssistantDate Date_parse (Input.date eventInput) = None).
    { destruct H as [-> | [s [-> E]]]; simpl; [reflexivity|].
      now destruct (Str.truthy s). }
    now rewrite P.
  - intros s d Es Hs Ed.
    assert (P : parseAssistantDate Date_parse (Input.date eventInput) = Some d).
    { rewrite Es. simpl. apply truthy_true in Hs. now rewrite Hs. }
    destruct (applyCreate_appends Date_parse colorMap nextEvents eventInput
                                  d w P) as [i [ts [w' [E _]]]].
    eexists. exists w'. split.
    { rewrite single_action. exact E. }
    cbn [date title startTime endTime color].
    split; [reflexivity|].
    split; [intros ->; reflexivity|].
    split; [intros t -> Ht; simpl; now rewrite Ht|].
    split.
    { intros t -> Ht. simpl. apply truthy_true in Ht. now rewrite Ht. }
    split; [intros ->; reflexivity|].
    split; [intros ->; reflexivity|].
    split.
    { intros t -> Ht. simpl. apply truthy_true in Ht. now rewrite Ht. }
    split.
    { intros t -> Ht. simpl. apply truthy_true in Ht. now rewrite Ht. }
    intros WF _. now apply resolveEventColor_rule.
  - intros d Ed.
    destruct (applyCreate_appends Date_parse colorMap nextEvents
                (Input.mk None (Some "Riunione") None (Some "2024-05-01")
                          None None None None None) d w)
      as [i [ts [w' [E _]]]]; [simpl; exact Ed|].
    eexists. exists w'. split.
    { rewrite single_action. exact E. }
    cbn [date title startTime endTime color].
    repeat split.
Qed.

Lemma C4_create_witness :
  (exists newEvent w',
      applyAssistantActions sampleDateParse initialCategoryMap [scenarioC]
                            [evA] sampleWorld
      = ([evA; newEvent], w')
      /\ title newEvent = "Riunione"
      /\ date newEvent = 1714521600000
      /\ startTime newEvent = "09:00"
      /\ endTime newEvent = "10:00"
      /\ color newEvent = "blue")
  /\ exists newEvent w',
      applyAssistantActions sampleDateParse initialCategoryMap
        [mkAction create
           (Some (Input.mk None None None (Some "2024-05-01") None None
                           (Some "magenta") (Some "studio") None))]
        [evA] sampleWorld
      = ([evA; newEvent], w')
      /\ title newEvent = "Nuovo evento"
      /\ color newEvent = "green".
Proof.
  split.
  - destruct (C4_create sampleDateParse initialCategoryMap [evA]
                (Input.mk None None None None None None None None None)
                sampleWorld) as [_ [_ H]].
    apply (H 1714521600000). vm_compute. reflexivity.
  - destruct (C4_create sampleDateParse initialCategoryMap [evA]
                (Input.mk None None None (Some "2024-05-01") None None
                          (Some "magenta") (Some "studio") None)
                sampleWorld) as [_ [H _]].
    destruct (H "2024-05-01" 1714521600000)
      as [newEvent [w' [E [_ [Ht [_ [_ [_ [_ [_ [_ Hc]]]]]]]]]]];
      [reflexivity | discriminate | reflexivity |].
    exists newEvent, w'. split; [exact E|]. split.
    + apply Ht. reflexivity.
    + rewrite Hc; [reflexivity | reflexivity | reflexivity].
Defined.

(** ** The reconciler: update *)

Lemma mapAt_length {A : Type} (f : A -> A) (l : list A) (index : Z) :
  length (mapAt index f l) = length l.
Proof.
  revert index. induction l as [|x r IH]; intros index; simpl;
    [reflexivity | now rewrite IH].
Qed.

Lemma mapAt_negative {A : Type} (f : A -> A) (l : list A) (index : Z) :
  index < 0 -> mapAt index f l = l.
Proof.
  revert index. induction l as [|x r IH]; intros index Neg; [reflexivity|].
  simpl. destruct (Z.eqb_spec index 0); [lia|].
  now rewrite IH by lia.
Qed.

Lemma mapAt_nth {A : Type} (f : A -> A) (l : list A) (i j : nat) :
  nth_error (mapAt (Z.of_nat i) f l) j
  = if Nat.eqb j i then option_map f (nth_error l j) else nth_error l j.
Proof.
  revert i j. induction l as [|x r IH]; intros i j.
  - simpl. destruct j; destruct (Nat.eqb _ i); reflexivity.
  - destruct i as [|i]; destruct j as [|j]; try reflexivity.
    + change (nth_error (mapAt (Z.of_nat 0 - 1) f r) j = nth_error r j).
      now rewrite mapAt_negative by lia.
    + change (nth_error (mapAt (Z.of_nat (S i) - 1) f r) j
              = if Nat.eqb j i then option_map f (nth_error r j)
                else nth_error r j).
      replace (Z.of_nat (S i) - 1) with (Z.of_nat i) by lia.
      apply IH.
Qed.

Lemma mapM_cons {A B : Type} (f : A -> Host.M B) (x : A) (r : list A)
      (w : Host.World) :
  fst (mapM f (x :: r) w)
  = fst (f x w) :: fst (mapM f r (snd (f x w))).
Proof.
  cbn [mapM]. unfold Host.bind, Host.ret.
  destruct (f x w) as [y w1]. cbn [snd fst].
  destruct (mapM f r w1) as [ys w2]. reflexivity.
Qed.

Lemma normaliseTodo_fields (t : Partial.ToDoItem) (w : Host.World) :
  (forall s, Partial.id t = Some s -> s <> "" ->
             ToDo.id (fst (normaliseTodo t w)) = s)
  /\ ToDo.text (fst (normaliseTodo t w))
     = match Partial.text t with Some s => s | None => "" end
  /\ ToDo.completed (fst (normaliseTodo t w))
     = match Partial.completed t with Some b => b | None => false end.
Proof.
  unfold normaliseTodo, Host.bind.
  destruct (Str.present (Partial.id t)) eqn:P.
  - unfold Host.ret. cbn. split; [|split; reflexivity].
    intros s Es Hs. rewrite Es. simpl.
    apply truthy_true in Hs. now rewrite Hs.
  - destruct (generateTodoId w) as [g wg]. unfold Host.ret. cbn.
    split; [|split; reflexivity].
    intros s Es Hs. rewrite Es in P. simpl in P.
    apply truthy_true in Hs. congruence.
Qed.

(** The todos of a payload after [normaliseTodos]: as many, in the same
    order, each with its id when it has a non-empty one, its text and its
    completion flag. *)
Definition normalised (given : list Partial.ToDoItem)
           (stored : list ToDo.ToDoItem) : Prop :=
  length stored = length given
  /\ forall k p,
      nth_error given k = Some p ->
      exists t,
        nth_error stored k = Some t
        /\ (forall g, Partial.id p = Some g -> g <> "" -> ToDo.id t = g)
        /\ ToDo.text t
           = match Partial.text p with Some s => s | None => "" end
        /\ ToDo.completed t
           = match Partial.completed p with Some b => b | None => false end.

Lemma normaliseTodos_normalised (l : list Partial.ToDoItem) (w : Host.World) :
  normalised l (fst (normaliseTodos (Some l) w)).
Proof.
  unfold normalised, normaliseTodos.
  revert w. induction l as [|x r IH]; intros w.
  - split; [reflexivity|]. intros [|i] t H; discriminate.
  - rewrite mapM_cons. destruct (IH (snd (normaliseTodo x w))) as [Hlen Hnth].
    split; [cbn [length]; now rewrite Hlen|].
    intros [|i] t H.
    + injection H as <-. exists (fst (normaliseTodo x w)).
      split; [reflexivity | apply normaliseTodo_fields].
    + simpl. apply Hnth. exact H.
Qed.

(** The action of scenario D. *)
Definition scenarioD : AssistantAction :=
  mkAction update
    (Some (Input.mk (Some "missing-id") (Some "X") None None None None
                    None None None)).

Lemma applyUpdate_skips (Date_parse : string -> option Date)
      (colorMap : Obj.t) (nextEvents : list Event)
      (eventInput : Input.AssistantEventInput) (w : Host.World) :
  (forall e, In e nextEvents -> Some (id e) <> Input.id eventInput) ->
  applyUpdate Date_parse colorMap nextEvents eventInput w = (nextEvents, w).
Proof.
  intros H. unfold applyUpdate, Str.present, Str.orElse.
  destruct (Input.id eventInput) as [tid|] eqn:E; [|reflexivity].
  destruct (Str.truthy tid) eqn:T; [|reflexivity].
  cbn [negb]. rewrite findIndex_none; [reflexivity|].
  intros e He. apply String.eqb_neq. intros Eid.
  apply (H e He). now rewrite Eid.
Qed.

Lemma applyUpdate_target (Date_parse : string -> option Date)
      (colorMap : Obj.t) (nextEvents : list Event)
      (eventInput : Input.AssistantEventInput) (w : Host.World)
      (tid : string) (e0 : Event) :
  Input.id eventInput = Some tid -> tid <> "" ->
  In e0 nextEvents -> id e0 = tid ->
  exists (i : nat) (target : Event) (newTodos : option (list ToDo.ToDoItem))
         (w' : Host.World),
    applyUpdate Date_parse colorMap nextEvents eventInput w
    = (mapAt (Z.of_nat i) (updatedEvent Date_parse colorMap eventInput newTodos)
             nextEvents, w')
    /\ nth_error nextEvents i = Some target
    /\ id target = tid
    /\ (Input.todos eventInput = None -> newTodos = None)
    /\ (forall ts, Input.todos eventInput = Some ts ->
                   newTodos = Some (fst (normaliseTodos (Some ts) w))).
Proof.
  intros Eid Hne Hin E0. unfold applyUpdate, Str.present, Str.orElse.
  rewrite Eid. apply truthy_true in Hne. rewrite Hne. cbn [negb].
  set (p := fun e : Event => (id e =? tid)%string).
  assert (P0 : p e0 = true) by (unfold p; rewrite E0; apply String.eqb_refl).
  pose proof (findIndex_some p nextEvents e0 Hin P0) as Hpos.
  destruct (findIndex_nth p nextEvents Hpos) as [target [Ht Pt]].
  destruct (Z.eqb_spec (Arr.findIndex p nextEvents) (-1)) as [|_]; [lia|].
  exists (Z.to_nat (Arr.findIndex p nextEvents)), target.
  rewrite Z2Nat.id by exact Hpos.
  unfold Host.bind.
  destruct (Input.todos eventInput) as [ts|].
  - destruct (normaliseTodos (Some ts) w) as [l w1] eqn:N. unfold Host.ret.
    exists (Some l), w1. repeat split; auto.
    + now apply String.eqb_eq in Pt.
    + discriminate.
    + intros ts' [= <-]. now rewrite N.
  - unfold Host.ret. exists None, w. repeat split; auto.
    + now apply String.eqb_eq in Pt.
    + discriminate.
Qed.

(** C5: an update whose id names no event of the collection is skipped
    and leaves everything as it was, scenario D included; otherwise the
    first event with that id is the target, the other events stay as
    they are, a field the payload lacks keeps its stored value, a field
    it carries is written (the title and the description trimmed, the
    todos normalised, the color resolved from the color and the category
    of the payload), and a date that does not parse keeps the stored date
    while the rest of the update applies. *)
Theorem C5_update (Date_parse : string -> option Date) (colorMap : Obj.t)
        (nextEvents : list Event) (eventInput : Input.AssistantEventInput)
        (w : Host.World) :
  ((forall e, In e nextEvents -> Some (id e) <> Input.id eventInput) ->
   applyAssistantActions Date_parse colorMap
     [mkAction update (Some eventInput)] nextEvents w = (nextEvents, w))
  /\ ((forall e, In e nextEvents -> id e <> "missing-id") ->
      applyAssistantActions Date_parse colorMap [scenarioD] nextEvents w
      = (nextEvents, w))
  /\ (forall tid e0,
         Input.id eventInput = Some tid -> tid <> "" ->
         In e0 nextEvents -> id e0 = tid ->
         exists (i : nat) (target updated : Event) (result : list Event)
                (w' : Host.World),
           applyAssistantActions Date_parse colorMap
             [mkAction update (Some eventInput)] nextEvents w = (result, w')
           /\ nth_error nextEvents i = Some target
           /\ id target = tid
           /\ length result = length nextEvents
           /\ nth_error result i = Some updated
           /\ (forall j, j <> i -> nth_error result j = nth_error nextEvents j)
           /\ id updated = id target
           /\ (Input.title eventInput = None -> title updated = title target)
           /\ (Input.description eventInput = None ->
               description updated = description target)
           /\ (Input.date eventInput = None -> date updated = date target)
           /\ (Input.startTime eventInput = None ->
               startTime updated = startTime target)
           /\ (Input.endTime eventInput = None ->
               endTime updated = endTime target)
           /\ (Input.color eventInput = None ->
               Input.category eventInput = None ->
               color updated = color target)
           /\ (Input.todos eventInput = None -> todos updated = todos target)
           /\ (forall s, Input.date eventInput = Some s ->
                         Date_parse s = None -> date updated = date target)
           /\ (forall s d, Input.date eventInput = Some s -> s <> "" ->
                           Date_parse s = Some d -> date updated = d)
           /\ (forall t, Input.title eventInput = Some t ->
                         Str.trim t <> "" -> title updated = Str.trim t)
           /\ (forall t, Input.description eventInput = Some t ->
                         description updated = Some (Str.trim t))
           /\ (forall t, Input.startTime eventInput = Some t -> t <> "" ->
                         startTime updated = t)
           /\ (forall t, Input.endTime eventInput = Some t -> t <> "" ->
                         endTime updated = t)
           /\ (forall ts, Input.todos eventInput = Some ts ->
                          normalised ts (todos updated))
           /\ (forall c, Input.color eventInput = Some c -> c <> "" ->
                         In c (Obj.values colorMap) -> color updated = c)
           /\ (forall n v,
                  (forall c, Input.color eventInput = Some c ->
                             ~ In c (Obj.values colorMap)) ->
                  Input.category eventInput = Some n -> n <> "" ->
                  Obj.get colorMap n = Some v -> v <> "" ->
                  color updated = v)
           /\ (Str.present (Input.color eventInput)
               || Str.present (Input.category eventInput) = true ->
               categoriesWellFormed colorMap = true ->
               namesOwnCategory colorMap eventInput = true ->
               color updated
               = ColorRule.resolved colorMap (Input.color eventInput)
                                    (Input.category eventInput))).
Proof.
  split; [|split].
  - intros H. rewrite single_action. now apply applyUpdate_skips.
  - intros H. rewrite single_action. apply applyUpdate_skips.
    intros e He. simpl. intros [= E]. now apply (H e He).
  - intros tid e0 Eid Hne Hin E0.
    destruct (applyUpdate_target Date_parse colorMap nextEvents eventInput w
                                 tid e0 Eid Hne Hin E0)
      as [i [target [newTodos [w' [E [Ht [It [Hts Hts']]]]]]]].
    exists i, target,
      (updatedEvent Date_parse colorMap eventInput newTodos target),
      (mapAt (Z.of_nat i)
             (updatedEvent Date_parse colorMap eventInput newTodos)
             nextEvents), w'.
    split; [rewrite single_action; exact E|].
    split; [exact Ht|]. split; [exact It|].
    split; [apply mapAt_length|].
    split; [rewrite mapAt_nth, Nat.eqb_refl, Ht; reflexivity|].
    split.
    { intros j Hj. rewrite mapAt_nth.
      destruct (Nat.eqb_spec j i); [contradiction | reflexivity]. }
    unfold updatedEvent. cbn [id title description date startTime endTime
                                 color todos].
    split; [reflexivity|].
    split; [intros ->; reflexivity|].
    split; [intros ->; reflexivity|].
    split; [intros ->; reflexivity|].
    split; [intros ->; reflexivity|].
    split; [intros ->; reflexivity|].
    split; [intros -> ->; reflexivity|].
    split; [intros H; rewrite (Hts H); reflexivity|].
    split.
    { intros s -> Hs. unfold Str.present, parseAssistantDate.
      destruct (Str.truthy s); [rewrite Hs|]; reflexivity. }
    split.
    { intros s d -> Hs Hd. unfold Str.present, parseAssistantDate.
      apply truthy_true in Hs. now rewrite Hs, Hd. }
    split.
    { intros t -> Ht'. simpl. apply truthy_true in Ht'. now rewrite Ht'. }
    split; [intros t ->; reflexivity|].
    split.
    { intros t -> Ht'. simpl. apply truthy_true in Ht'. now rewrite Ht'. }
    split.
    { intros t -> Ht'. simpl. apply truthy_true in Ht'. now rewrite Ht'. }
    split.
    { intros ts Ets. rewrite (Hts' ts Ets). apply normaliseTodos_normalised. }
    split.
    { intros c Ec Hc Hin'. unfold resolveEventColor. rewrite Ec.
      apply truthy_true in Hc. apply existsb_eqb in Hin'.
      cbn [Str.present Str.orElse]. rewrite Hc. cbn [orb andb].
      now rewrite Hin'. }
    split.
    { intros n v Hcol En Hn Eg Hv. unfold resolveEventColor. rewrite En, Eg.
      apply truthy_true in Hn, Hv.
      cbn [Str.present Str.orElse]. rewrite Hn, Hv, orb_true_r.
      cbn [andb].
      destruct (Input.color eventInput) as [c|]; [|reflexivity].
      destruct (existsb (String.eqb (Str.orElse (Some c) ""))
                        (Obj.values colorMap)) eqn:X;
        [|now rewrite andb_false_r].
      exfalso. apply (Hcol c eq_refl).
      cbn [Str.orElse] in X. destruct (Str.truthy c) eqn:T.
      - now apply existsb_eqb in X.
      - apply truthy_false in T. subst c. now apply existsb_eqb in X. }
    intros Hp WF _. rewrite Hp. now apply resolveEventColor_rule.
Qed.

Lemma C5_update_witness :
  applyAssistantActions sampleDateParse initialCategoryMap [scenarioD]
                        [evA; evB] sampleWorld
  = ([evA; evB], sampleWorld)
  /\ exists (i : nat) (target updated : Event) (result : list Event)
            (w' : Host.World),
      applyAssistantActions sampleDateParse initialCategoryMap
        [mkAction update
           (Some (Input.mk (Some "b") (Some " Pranzo ") None (Some "domani")
                           None None None (Some "studio")
                           (Some [Partial.mk None (Some "pane") None])))]
        [evA; evB] sampleWorld
      = (result, w')
      /\ nth_error [evA; evB] i = Some target
      /\ id target = "b"
      /\ nth_error result i = Some updated
      /\ title updated = "Pranzo"
      /\ date updated = date target
      /\ startTime updated = startTime target
      /\ color updated = "green"
      /\ length (todos updated) = 1%nat.
Proof.
  split.
  - destruct (C5_update sampleDateParse initialCategoryMap [evA; evB]
                (Input.mk None None None None None None None None None)
                sampleWorld) as [_ [H _]].
    apply H. intros e [<- | [<- | []]]; discriminate.
  - destruct (C5_update sampleDateParse initialCategoryMap [evA; evB]
                (Input.mk (Some "b") (Some " Pranzo ") None (Some "domani")
                          None None None (Some "studio")
                          (Some [Partial.mk None (Some "pane") None]))
                sampleWorld) as [_ [_ H]].
    destruct (H "b" evB) as [i [target [updated [result [w' H']]]]];
      [reflexivity | discriminate | simpl; auto | reflexivity |].
    destruct H' as [E [Ht [It [_ [Hu [_ [_ [_ [_ [_ [Hs [_ [_ [_
                     [Hd [_ [Htitle [_ [_ [_ [Htodos [_ [Hcat _]]]]]]]]]]]]]]]]]]]]]]].
    exists i, target, updated, result, w'.
    split; [exact E|]. split; [exact Ht|]. split; [exact It|].
    split; [exact Hu|]. split; [|split; [|split; [|split]]].
    + apply (Htitle " Pranzo "); [reflexivity|].
      vm_compute. discriminate.
    + apply (Hd "domani"); reflexivity.
    + apply Hs. reflexivity.
    + apply (Hcat "studio" "green");
        [discriminate | reflexivity | discriminate | reflexivity
        | discriminate].
    + destruct (Htodos [Partial.mk None (Some "pane") None] eq_refl)
        as [L _]. exact L.
Defined.

(** ** The reconciler: invariants of the collection *)

Definition validRange (e : Event) : bool :=
  Num.ltb (startMinutes e) (endMinutes e).

Definition liveColor (colorMap : Obj.t) (e : Event) : bool :=
  existsb (String.eqb (color e)) (Obj.values colorMap).

(** The invariants of the Repository: pairwise distinct ids, startTime
    before endTime in minutes, every color the color of a category. *)
Definition Invariants (colorMap : Obj.t) (events : list Event) : Prop :=
  NoDup (map id events)
  /\ Forall (fun e => validRange e = true) events
  /\ Forall (fun e => liveColor colorMap e = true) events.

(** C2, as the claim states it, fails: a create action is appended
    without a look at the ids of the collection or at its time range, so
    a payload that reuses the id of an event and ends before it starts
    breaks both invariants; with no category at all the color of a
    created event is the palette default, which no category has. *)
Lemma C2_create_breaks_invariants :
  let clash :=
    mkAction create
      (Some (Input.mk (Some "a") (Some "Doppione") None (Some "2024-05-01")
                      (Some "10:00") (Some "09:00") None None None)) in
  let result :=
    fst (applyAssistantActions sampleDateParse initialCategoryMap [clash]
                               [evA] sampleWorld) in
  let orphan :=
    fst (applyAssistantActions sampleDateParse [] [scenarioC] []
                               sampleWorld) in
  Invariants initialCategoryMap [evA]
  /\ map id result = ["a"; "a"]
  /\ ~ NoDup (map id result)
  /\ ~ Forall (fun e => validRange e = true) result
  /\ Invariants [] []
  /\ ~ Forall (fun e => liveColor [] e = true) orphan.
Proof.
  cbv zeta.
  set (result := fst (applyAssistantActions sampleDateParse
                        initialCategoryMap _ [evA] sampleWorld)).
  set (orphan := fst (applyAssistantActions sampleDateParse [] [scenarioC]
                        [] sampleWorld)).
  assert (Er : result
               = [evA;
                  mkEvent "a" "Doppione" (Some "") 1714521600000
                          "10:00" "09:00" "blue" []])
    by (vm_compute; reflexivity).
  assert (Eo : orphan
               = [mkEvent "1714521600000" "Riunione" (Some "") 1714521600000
                          "09:00" "10:00" "blue" []])
    by (vm_compute; reflexivity).
  rewrite Er, Eo. clear result orphan Er Eo.
  split; [|split; [|split; [|split; [|split]]]].
  - split; [|split].
    + apply NoDup_cons; [intros []|apply NoDup_nil].
    + apply Forall_cons; [vm_compute; reflexivity|apply Forall_nil].
    + apply Forall_cons; [vm_compute; reflexivity|apply Forall_nil].
  - reflexivity.
  - intros H. inversion H as [|? ? Hn _]; subst.
    apply Hn. now left.
  - intros H. inversion H as [|? ? _ H1]; subst.
    inversion H1 as [|? ? Hv _]; subst.
    vm_compute in Hv. discriminate.
  - split; [apply NoDup_nil|split; apply Forall_nil].
  - intros H. inversion H as [|? ? Hv _]; subst.
    vm_compute in Hv. discriminate.
Qed.

(** Two times in order: the first before the second, as minute
    offsets. *)
Definition timesInOrder (start finish : string) : bool :=
  Num.ltb (timeToMinutes start) (timeToMinutes finish).

(** The color the payload resolves to is a string: the color of the
    payload is the color of a category, or the category name of the
    payload is not one that only the prototype chain answers. *)
Definition colorIsString (colorMap : Obj.t)
           (eventInput : Input.AssistantEventInput) : bool :=
  (Str.present (Input.color eventInput)
   && existsb (String.eqb (Str.orElse (Input.color eventInput) ""))
              (Obj.values colorMap))
  || namesOwnCategory colorMap eventInput.

Section Admissible.

Variable Date_parse : string -> option Date.
Variable colorMap : Obj.t.

(** What the reconciler does not check before it applies an action to
    the collection [events] in the host state [w].  A create with a date
    that parses: no event has the id it is about to give, its times (its
    own, else 09:00 and 10:00) are in order, and its color is a string.
    An update of an event of the collection: the times the target is
    left with are in order, and the color, when the payload gives a color
    or a category, is a string. *)
Definition admissible (events : list Event) (w : Host.World)
           (a : AssistantAction) : bool :=
  match type a, event a with
  | create, Some ei =>
      match parseAssistantDate Date_parse (Input.date ei) with
      | Some _ =>
          negb (existsb (fun e => (id e =? createdId ei w)%string) events)
          && timesInOrder (Str.orElse (Input.startTime ei) "09:00")
                          (Str.orElse (Input.endTime ei) "10:00")
          && colorIsString colorMap ei
      | None => true
      end
  | update, Some ei =>
      let index :=
        Arr.findIndex
          (fun e => (id e =? Str.orElse (Input.id ei) "")%string) events in
      if negb (Str.present (Input.id ei)) || (index =? -1) then true
      else
        match nth_error events (Z.to_nat index) with
        | Some target =>
            timesInOrder (Str.orElse (Input.startTime ei) (startTime target))
                         (Str.orElse (Input.endTime ei) (endTime target))
            && (negb (Str.present (Input.color ei)
                      || Str.present (Input.category ei))
                || colorIsString colorMap ei)
        | None => true
        end
  | _, _ => true
  end.

(** Every action of the batch is admissible at the moment it is
    applied. *)
Fixpoint admissibleBatch (actions : list AssistantAction)
         (events : list Event) (w : Host.World) : bool :=
  match actions with
  | [] => true
  | a :: r =>
      admissible events w a
      && admissibleBatch r (fst (applyAction Date_parse colorMap events a w))
                         (snd (applyAction Date_parse colorMap events a w))
  end.

End Admissible.

Lemma Forall_mapAt {A : Type} (P : A -> Prop) (f : A -> A) (l : list A)
      (index : Z) :
  (forall x, P x -> P (f x)) -> Forall P l -> Forall P (mapAt index f l).
Proof.
  intros Hf H. revert index.
  induction H as [|x r Hx Hr IH]; intros index; simpl; constructor; auto.
  destruct (index =? 0); auto.
Qed.

Lemma Forall_mapAt_target {A : Type} (P : A -> Prop) (f : A -> A)
      (l : list A) (i : nat) :
  (forall x, nth_error l i = Some x -> P (f x)) ->
  Forall P l -> Forall P (mapAt (Z.of_nat i) f l).
Proof.
  intros Hf H. apply Forall_forall. intros y Hy.
  apply In_nth_error in Hy. destruct Hy as [j Hj].
  rewrite mapAt_nth in Hj. rewrite Forall_forall in H.
  destruct (Nat.eqb j i) eqn:J.
  - apply Nat.eqb_eq in J. subst j.
    destruct (nth_error l i) as [x|] eqn:E; [|discriminate].
    injection Hj as <-. now apply Hf.
  - apply H. eapply nth_error_In. exact Hj.
Qed.

Lemma Forall_filter {A : Type} (P : A -> Prop) (f : A -> bool) (l : list A) :
  Forall P l -> Forall P (filter f l).
Proof.
  intros H. apply Forall_forall. intros x Hx.
  apply filter_In in Hx. rewrite Forall_forall in H. now apply H.
Qed.

Lemma map_id_mapAt (f : Event -> Event) (l : list Event) (index : Z) :
  (forall x, id (f x) = id x) -> map id (mapAt index f l) = map id l.
Proof.
  intros Hf. revert index.
  induction l as [|x r IH]; intros index; simpl; [reflexivity|].
  rewrite IH. now destruct (index =? 0); rewrite ?Hf.
Qed.

Lemma resolveEventColor_live (input : Input.AssistantEventInput)
      (map : Obj.t) :
  map <> [] ->
  existsb (String.eqb (resolveEventColor input map)) (Obj.values map) = true.
Proof.
  intros Hne. unfold resolveEventColor.
  assert (Fb : existsb (String.eqb match Obj.values map with
                                    | c :: _ => c
                                    | [] => nth 0 AVAILABLE_COLORS ""
                                    end) (Obj.values map) = true).
  { destruct map as [|[k v] r]; [congruence|]. simpl.
    now rewrite String.eqb_refl. }
  destruct (Str.present (Input.color input)
            && existsb (String.eqb (Str.orElse (Input.color input) ""))
                       (Obj.values map)) eqn:C.
  - now apply andb_prop in C.
  - destruct (Input.category input) as [cat|]; [|exact Fb].
    destruct (Str.truthy cat && Str.present (Obj.get map cat)) eqn:G;
      [|exact Fb].
    apply andb_prop in G. destruct G as [_ G].
    destruct (Obj.get map cat) as [v|] eqn:Ev; [|discriminate].
    simpl in G. simpl. rewrite G.
    apply existsb_eqb. now apply (get_value map cat).
Qed.

Section Preservation.

Variable Date_parse : string -> option Date.
Variable colorMap : Obj.t.
Hypothesis someCategory : colorMap <> [].

Lemma applyUpdate_result (nextEvents : list Event)
      (eventInput : Input.AssistantEventInput) (w : Host.World) :
  let index :=
    Arr.findIndex
      (fun e => (id e =? Str.orElse (Input.id eventInput) "")%string)
      nextEvents in
  if negb (Str.present (Input.id eventInput)) || (index =? -1)
  then applyUpdate Date_parse colorMap nextEvents eventInput w
       = (nextEvents, w)
  else exists newTodos w',
      applyUpdate Date_parse colorMap nextEvents eventInput w
      = (mapAt index (updatedEvent Date_parse colorMap eventInput newTodos)
               nextEvents, w').
Proof.
  cbv zeta. unfold applyUpdate.
  destruct (negb (Str.present (Input.id eventInput))); [reflexivity|].
  cbn [orb]. destruct (_ =? -1); [reflexivity|].
  unfold Host.bind.
  destruct (Input.todos eventInput) as [ts|].
  - destruct (normaliseTodos (Some ts) w) as [l w1]. unfold Host.ret.
    now exists (Some l), w1.
  - unfold Host.ret. now exists None, w.
Qed.

(** An admissible action keeps the invariants. *)
Lemma step_invariants (a : AssistantAction) (events : list Event)
      (w : Host.World) :
  admissible Date_parse colorMap events w a = true ->
  Invariants colorMap events ->
  Invariants colorMap (fst (applyAction Date_parse colorMap events a w)).
Proof.
  intros Hok [Hids [Hranges Hcolors]].
  unfold applyAction. unfold admissible in Hok.
  destruct (type a); destruct (event a) as [ei|]; cbn [fst Host.ret];
    try (now repeat split).
  - (* create *)
    destruct (parseAssistantDate Date_parse (Input.date ei)) as [d|] eqn:P.
    + destruct (applyCreate_appends Date_parse colorMap events ei d w P)
        as [i [ts [w' [-> [Ei _]]]]].
      apply andb_prop in Hok. destruct Hok as [Hok _].
      apply andb_prop in Hok. destruct Hok as [Hfresh Htimes].
      cbn [fst]. split; [|split].
      * rewrite map_app. cbn [map id].
        apply (Permutation_NoDup (Permutation_cons_append _ _)).
        constructor; [|exact Hids].
        intros Hin. apply in_map_iff in Hin. destruct Hin as [e [Ee He]].
        apply negb_true_iff in Hfresh.
        assert (X : existsb (fun e0 => (id e0 =? createdId ei w)%string)
                            events = true).
        { apply existsb_exists. exists e. split; [exact He|].
          rewrite Ee, Ei. apply String.eqb_refl. }
        congruence.
      * apply Forall_app. split; [exact Hranges|].
        constructor; [exact Htimes | constructor].
      * apply Forall_app. split; [exact Hcolors|].
        constructor; [|constructor].
        unfold liveColor. cbn [color]. now apply resolveEventColor_live.
    + unfold applyCreate. rewrite P. now repeat split.
  - (* update *)
    pose proof (applyUpdate_result events ei w) as R. cbv zeta in R.
    set (index := Arr.findIndex
                    (fun e => (id e =? Str.orElse (Input.id ei) "")%string)
                    events) in *.
    destruct (negb (Str.present (Input.id ei)) || (index =? -1)) eqn:G.
    + rewrite R. now repeat split.
    + destruct R as [newTodos [w' ->]]. cbn [fst].
      apply orb_false_elim in G. destruct G as [_ G].
      apply Z.eqb_neq in G.
      pose proof (findIndex_range (fun e => (id e =? Str.orElse (Input.id ei) "")%string) events) as Hr.
      fold index in Hr.
      assert (Hi : index = Z.of_nat (Z.to_nat index)) by lia.
      split; [|split].
      * now rewrite map_id_mapAt.
      * rewrite Hi. apply Forall_mapAt_target; [|exact Hranges].
        intros x Hx. rewrite Hx in Hok.
        apply andb_prop in Hok. destruct Hok as [Htimes _].
        exact Htimes.
      * apply Forall_mapAt; [|exact Hcolors].
        intros x Hx. unfold liveColor, updatedEvent. cbn [color].
        destruct (Str.present (Input.color ei)
                  || Str.present (Input.category ei));
          [now apply resolveEventColor_live | exact Hx].
  - (* delete *)
    unfold applyDelete.
    destruct (Str.present (Input.id ei)); [|now repeat split].
    split; [now apply ids_filter|].
    split; now apply Forall_filter.
Qed.

Lemma batch_invariants (actions : list AssistantAction)
      (events : list Event) (w : Host.World) :
  admissibleBatch Date_parse colorMap actions events w = true ->
  Invariants colorMap events ->
  Invariants colorMap
    (fst (applyAssistantActions Date_parse colorMap actions events w)).
Proof.
  unfold applyAssistantActions. revert events w.
  induction actions as [|a r IH]; intros events w Hok Hinv; [exact Hinv|].
  cbn [admissibleBatch] in Hok. apply andb_prop in Hok.
  destruct Hok as [Ha Hr].
  pose proof (step_invariants a events w Ha Hinv) as S1.
  cbn [forEach]. unfold Host.bind.
  destruct (applyAction Date_parse colorMap events a w) as [next w1].
  now apply IH.
Qed.

End Preservation.

(** C2 (amended): with at least one category, from a collection that
    satisfies the invariants a batch of assistant actions yields a
    collection that satisfies them, provided every action is admissible
    at the moment it is applied: a create with a date that parses gets an
    id (its own, else the reading of the clock) that no event of the
    collection has and times (its own, else 09:00 and 10:00) in order; an
    update of an event of the collection leaves it with times in order;
    and where a color is resolved, the color of the payload is the color
    of a category or its category name is not one that only
    [Object.prototype] answers.  The two conditions on a create are
    needed: a create with a date that parses and an id some event has
    breaks the uniqueness of ids, and one whose times are not in order
    breaks the validity of the time ranges. *)
Theorem C2_batch_invariants (Date_parse : string -> option Date)
        (colorMap : Obj.t) (actions : list AssistantAction)
        (events : list Event) (w : Host.World) :
  colorMap <> [] ->
  Invariants colorMap events ->
  (admissibleBatch Date_parse colorMap actions events w = true ->
   Invariants colorMap
     (fst (applyAssistantActions Date_parse colorMap actions events w)))
  /\ (forall eventInput d,
         parseAssistantDate Date_parse (Input.date eventInput) = Some d ->
         (existsb (fun e => (id e =? createdId eventInput w)%string) events
          = true ->
          ~ NoDup (map id
                     (fst (applyAssistantActions Date_parse colorMap
                             [mkAction create (Some eventInput)] events w))))
         /\ (timesInOrder (Str.orElse (Input.startTime eventInput) "09:00")
                          (Str.orElse (Input.endTime eventInput) "10:00")
             = false ->
             ~ Forall (fun e => validRange e = true)
                      (fst (applyAssistantActions Date_parse colorMap
                              [mkAction create (Some eventInput)] events w)))).
Proof.
  intros Hne Hinv. split.
  - intros Hok. now apply batch_invariants.
  - intros eventInput d P.
    rewrite single_action.
    change (applyAction Date_parse colorMap events
                        (mkAction create (Some eventInput)) w)
      with (applyCreate Date_parse colorMap events eventInput w).
    destruct (applyCreate_appends Date_parse colorMap events eventInput d w P)
      as [i [ts [w' [-> [Ei _]]]]].
    cbn [fst]. split.
    + intros Hdup Hnd. rewrite map_app in Hnd. cbn [map id] in Hnd.
      apply (Permutation_NoDup
               (Permutation_sym (Permutation_cons_append _ _))) in Hnd.
      inversion Hnd as [|? ? Hout _]; subst. apply Hout.
      apply existsb_exists in Hdup. destruct Hdup as [e [He Ee]].
      apply String.eqb_eq in Ee. rewrite <- Ee. now apply in_map.
    + intros Hbad Hall. apply Forall_app in Hall. destruct Hall as [_ Hall].
      inversion Hall as [|? ? Hv _]; subst.
      unfold validRange, startMinutes, endMinutes in Hv.
      cbn [startTime endTime] in Hv. unfold timesInOrder in Hbad.
      congruence.
Qed.

(** A batch that creates an event, moves the end of another one and
    deletes a third one. *)
Definition sampleBatch : list AssistantAction :=
  [mkAction create
     (Some (Input.mk (Some "n") (Some "Pranzo") None (Some "2024-05-01")
                     (Some "12:00") (Some "13:00") None (Some "pasto") None));
   mkAction update
     (Some (Input.mk (Some "a") None None None None (Some "10:30")
                     None None None));
   mkAction delete
     (Some (Input.mk (Some "b") None None None None None None None None))].

Lemma C2_batch_invariants_witness :
  map id (fst (applyAssistantActions sampleDateParse initialCategoryMap
                 sampleBatch [evA; evB] sampleWorld))
  = ["a"; "n"]
  /\ Invariants initialCategoryMap
       (fst (applyAssistantActions sampleDateParse initialCategoryMap
               sampleBatch [evA; evB] sampleWorld)).
Proof.
  split; [vm_compute; reflexivity|].
  destruct (C2_batch_invariants sampleDateParse initialCategoryMap
              sampleBatch [evA; evB] sampleWorld) as [H _].
  - discriminate.
  - split; [|split].
    + repeat constructor; simpl; intuition discriminate.
    + apply Forall_cons; [vm_compute; reflexivity|].
      apply Forall_cons; [vm_compute; reflexivity|apply Forall_nil].
    + apply Forall_cons; [vm_compute; reflexivity|].
      apply Forall_cons; [vm_compute; reflexivity|apply Forall_nil].
  - apply H. vm_compute. reflexivity.
Defined.

(** ** Categories *)

Lemma repeats_false (seen l : list string) :
  CategoryManagerModal.repeats seen l = false ->
  NoDup l /\ forall x, In x l -> ~ In x seen.
Proof.
  revert seen. induction l as [|x r IH]; intros seen; simpl.
  - intros _. split; [constructor | intros x []].
  - destruct (existsb (String.eqb x) seen) eqn:E; [discriminate|].
    intros H. destruct (IH _ H) as [Hnd Hseen]. split.
    + constructor; [|exact Hnd].
      intros Hin. apply (Hseen x Hin). now left.
    + intros y [<- | Hy].
      * intros Hin. apply existsb_eqb in Hin. congruence.
      * intros Hin. apply (Hseen y Hy). now right.
Qed.

Lemma repeats_shared {A : Type} (f : A -> string) (l : list A)
      (i j : nat) (a b : A) :
  i <> j -> nth_error l i = Some a -> nth_error l j = Some b ->
  f a = f b ->
  CategoryManagerModal.repeats [] (map f l) = true.
Proof.
  intros Hij Hi Hj E.
  destruct (CategoryManagerModal.repeats [] (map f l)) eqn:R;
    [reflexivity|].
  exfalso. apply repeats_false in R. destruct R as [Hnd _].
  rewrite NoDup_nth_error in Hnd. apply Hij, Hnd.
  - rewrite length_map. apply nth_error_Some. congruence.
  - rewrite !nth_error_map, Hi, Hj. simpl. now rewrite E.
Qed.

(** C6: the save of the category manager is rejected, with an error
    message and with the category map and the events left as they were,
    when no definition remains once the names are trimmed and the blank
    ones dropped, when two of the remaining definitions have the same
    name up to case, or when two of them have the same color; the two
    definitions of scenario B are rejected for their common color. *)
Theorem C6_setCategories_rejects
        (definitions : list Category.CategoryDefinition) (error : string)
        (st : AppState) :
  (CategoryManagerModal.trimmedCategories definitions = []
   \/ (exists i j a b,
          i <> j
          /\ nth_error (CategoryManagerModal.trimmedCategories definitions) i
             = Some a
          /\ nth_error (CategoryManagerModal.trimmedCategories definitions) j
             = Some b
          /\ Str.toLowerCase (Category.name a)
             = Str.toLowerCase (Category.name b))
   \/ (exists i j a b,
          i <> j
          /\ nth_error (CategoryManagerModal.trimmedCategories definitions) i
             = Some a
          /\ nth_error (CategoryManagerModal.trimmedCategories definitions) j
             = Some b
          /\ Category.color a = Category.color b) ->
   exists err, err <> "" /\ setCategories definitions error st = (err, st))
  /\ setCategories [Category.mk "lavoro" "blue"; Category.mk "studio" "blue"]
                   error st
     = (CategoryManagerModal.uniqueColors, st).
Proof.
  split; [|reflexivity].
  unfold setCategories, CategoryManagerModal.handleSave.
  intros [E | [[i [j [a [b [Hij [Hi [Hj E]]]]]]]
              | [i [j [a [b [Hij [Hi [Hj E]]]]]]]]].
  - rewrite E. simpl. eexists. split; [|reflexivity]. discriminate.
  - destruct (length _ =? 0)%nat;
      [eexists; split; [|reflexivity]; discriminate|].
    rewrite (repeats_shared
               (fun c => Str.toLowerCase (Category.name c)) _ i j a b);
      auto.
    eexists. split; [|reflexivity]. discriminate.
  - destruct (length _ =? 0)%nat;
      [eexists; split; [|reflexivity]; discriminate|].
    destruct (CategoryManagerModal.repeats [] (map (fun c => _) _));
      [eexists; split; [|reflexivity]; discriminate|].
    rewrite (repeats_shared Category.color _ i j a b); auto.
    eexists. split; [|reflexivity]. discriminate.
Qed.

Definition sampleApp : AppState :=
  mkApp [evA; sampleEvent "g" "11:00" "12:00"] initialCategoryMap None.

Lemma C6_setCategories_rejects_witness :
  exists err,
    err <> ""
    /\ setCategories [Category.mk " Lavoro" "blue"; Category.mk "lavoro " "red"]
                     "" sampleApp
       = (err, sampleApp).
Proof.
  destruct (C6_setCategories_rejects
              [Category.mk " Lavoro" "blue"; Category.mk "lavoro " "red"]
              "" sampleApp) as [H _].
  apply H. right. left.
  exists 0%nat, 1%nat, (Category.mk "Lavoro" "blue"),
         (Category.mk "lavoro" "red").
  repeat split. discriminate.
Defined.

(** The fallback color of the specification: the color of the first
    category, or the first palette entry when there is no category. *)
Definition fallbackOf (categories : list Category.CategoryDefinition)
  : string :=
  match categories with
  | c :: _ => Category.color c
  | [] => nth 0 AVAILABLE_COLORS ""
  end.

Lemma handleSave_accepts
      (definitions categories : list Category.CategoryDefinition)
      (error : string) :
  snd (CategoryManagerModal.handleSave definitions error) = Some categories ->
  CategoryManagerModal.handleSave definitions error = ("", Some categories)
  /\ categories = CategoryManagerModal.trimmedCategories definitions
  /\ categories <> [].
Proof.
  unfold CategoryManagerModal.handleSave.
  destruct (CategoryManagerModal.trimmedCategories definitions) as [|c r];
    [discriminate|].
  cbn [length Nat.eqb].
  destruct (CategoryManagerModal.repeats [] (map (fun c0 => _) _));
    [discriminate|].
  destruct (CategoryManagerModal.repeats [] _); [discriminate|].
  simpl. intros [= <-]. repeat split. discriminate.
Qed.

(** C7: after a successful category save with the category list C, in
    the same state transition, an event whose color is among the colors
    of C is unchanged, any other event gets the fallback color and keeps
    its other fields, and an active filter whose color is not among the
    colors of C is cleared. *)
Theorem C7_recolor_repair
        (definitions categories : list Category.CategoryDefinition)
        (error : string) (st : AppState) :
  snd (CategoryManagerModal.handleSave definitions error) = Some categories ->
  let st' := snd (setCategories definitions error st) in
  let colors := map Category.color categories in
  length (events st') = length (events st)
  /\ (forall i e, nth_error (events st) i = Some e ->
                  In (color e) colors ->
                  nth_error (events st') i = Some e)
  /\ (forall i e, nth_error (events st) i = Some e ->
                  ~ In (color e) colors ->
                  nth_error (events st') i
                  = Some (mkEvent (id e) (title e) (description e) (date e)
                                  (startTime e) (endTime e)
                                  (fallbackOf categories) (todos e)))
  /\ (forall f, activeFilter st = Some f -> f <> "" -> ~ In f colors ->
                activeFilter st' = None)
  /\ (forall f, activeFilter st = Some f -> In f colors ->
                activeFilter st' = Some f)
  /\ (activeFilter st = None -> activeFilter st' = None).
Proof.
  intros H. destruct (handleSave_accepts _ _ _ H) as [E [_ Hne]].
  unfold setCategories. rewrite E. cbn [snd].
  unfold handleSaveCategories.
  destruct categories as [|c r]; [congruence|].
  cbn [length Nat.eqb events activeFilter fallbackOf]. cbv zeta.
  split; [apply length_map|]. split; [|split; [|split; [|split]]].
  - intros i e Hi Hin. rewrite nth_error_map, Hi. cbn [option_map].
    apply existsb_eqb in Hin. now rewrite Hin.
  - intros i e Hi Hout. rewrite nth_error_map, Hi. cbn [option_map].
    destruct (existsb (String.eqb (color e))
                      (map Category.color (c :: r))) eqn:X; [|reflexivity].
    apply existsb_eqb in X. contradiction.
  - intros f -> Hf Hout. apply truthy_true in Hf. rewrite Hf.
    destruct (existsb (String.eqb f) (map Category.color (c :: r))) eqn:X;
      [|reflexivity].
    apply existsb_eqb in X. contradiction.
  - intros f -> Hin. apply existsb_eqb in Hin. rewrite Hin.
    now rewrite andb_false_r.
  - intros ->. reflexivity.
Qed.

Lemma C7_recolor_repair_witness :
  let definitions := [Category.mk "casa" "green"; Category.mk "" "blue"] in
  let st := mkApp [evA] initialCategoryMap (Some "blue") in
  let st' := snd (setCategories definitions "" st) in
  nth_error (events st') 0
  = Some (mkEvent "a" "Evento" None 0 "09:00" "10:00" "green" [])
  /\ activeFilter st' = None.
Proof.
  cbv zeta.
  destruct (C7_recolor_repair
              [Category.mk "casa" "green"; Category.mk "" "blue"]
              [Category.mk "casa" "green"] ""
              (mkApp [evA] initialCategoryMap (Some "blue")))
    as [_ [_ [H2 [H3 _]]]]; [reflexivity|].
  split.
  - apply (H2 0%nat evA); [reflexivity|].
    simpl. intros [E | []]. discriminate.
  - apply (H3 "blue"); [reflexivity | discriminate |].
    simpl. intros [E | []]. discriminate.
Defined.

(** ** The event form *)

Definition sameComparison (a b : comparison) : bool :=
  match a, b with
  | Eq, Eq | Lt, Lt | Gt, Gt => true
  | _, _ => false
  end.

Lemma sameComparison_eq (a b : comparison) :
  sameComparison a b = true -> a = b.
Proof. destruct a, b; simpl; congruence. Qed.

Lemma digitChar_compare_all :
  forallb (fun a =>
    forallb (fun b =>
      sameComparison (Ascii.compare (Host.digitChar a) (Host.digitChar b))
                     (a ?= b)) (upTo 10)) (upTo 10) = true.
Proof. vm_compute. reflexivity. Qed.

Lemma digitChar_compare (a b : Z) :
  0 <= a < 10 -> 0 <= b < 10 ->
  Ascii.compare (Host.digitChar a) (Host.digitChar b) = (a ?= b).
Proof.
  intros Ha Hb. apply sameComparison_eq.
  pose proof digitChar_compare_all as A.
  rewrite forallb_forall in A.
  specialize (A a (In_upTo 10 a Ha)).
  rewrite forallb_forall in A.
  exact (A b (In_upTo 10 b Hb)).
Qed.

(** On times written with two digits, a colon and two digits, minutes
    below 60, the order of the strings is the order of the minute
    offsets. *)
Lemma geb_hhmm (h1 m1 h2 m2 : Z) :
  0 <= h1 < 100 -> 0 <= m1 < 60 -> 0 <= h2 < 100 -> 0 <= m2 < 60 ->
  Str.geb (hhmm h1 m1) (hhmm h2 m2) = true
  <-> h2 * 60 + m2 <= h1 * 60 + m1.
Proof.
  intros H1 M1 H2 M2.
  unfold Str.geb, String.leb, hhmm, pad2. cbn [append String.compare].
  rewrite !digitChar_compare
    by (Z.div_mod_to_equations; lia).
  change (Ascii.compare ":" ":") with Eq. cbv iota.
  destruct (Z.compare_spec (h2 / 10) (h1 / 10));
    destruct (Z.compare_spec (h2 mod 10) (h1 mod 10));
    destruct (Z.compare_spec (m2 / 10) (m1 / 10));
    destruct (Z.compare_spec (m2 mod 10) (m1 mod 10));
    split; intros G;
    first [ reflexivity
          | discriminate
          | solve [Z.div_mod_to_equations; lia]
          | exfalso; Z.div_mod_to_equations; lia ].
Qed.

(** C8, as the claim states it, fails: [handleSaveEvent], the save
    operation of the application, checks nothing and appends a draft with
    a blank title and an end before its start; and the form compares the
    two times as strings, so from 10:00 to 9:00, where the end is before
    the start in minutes, the save goes through. *)
Lemma C8_unchecked_saves :
  fst (handleSaveEvent (Draft.mk None "  " None 0 "10:00" "09:00" "blue" [])
                       [evA] sampleWorld)
  = [evA; mkEvent "1714521600000" "  " None 0 "10:00" "09:00" "blue" []]
  /\ Num.leb (timeToMinutes "9:00") (timeToMinutes "10:00") = true
  /\ fst (fst (saveFromModal None
                 (EventModal.mkState "Cena" "" 0 "10:00" "9:00" "blue" [] "")
                 [evA] sampleWorld))
     = EventModal.mkState "Cena" "" 0 "10:00" "9:00" "blue" [] ""
  /\ snd (fst (saveFromModal None
                 (EventModal.mkState "Cena" "" 0 "10:00" "9:00" "blue" [] "")
                 [evA] sampleWorld))
     = [evA;
        mkEvent "1714521600000" "Cena" (Some "") 0 "10:00" "9:00" "blue" []].
Proof.
  repeat split; vm_compute; reflexivity.
Qed.

(** C8 (amended): saving from the form a draft whose title trims to the
    empty string, or whose startTime is not before its endTime as
    strings, sets an error message, does not call the save operation and
    leaves the collection and the host untouched; for times written
    HH:mm with two digits each the comparison of the strings is the
    comparison of the minute offsets.  The save operation itself,
    [handleSaveEvent], checks nothing. *)
Theorem C8_modal_validation (event : option Event) (s : EventModal.State)
        (prevEvents : list Event) (w : Host.World) :
  (Str.trim (EventModal.title s) = ""
   \/ Str.geb (EventModal.startTime s) (EventModal.endTime s) = true ->
   exists msg,
     msg <> ""
     /\ saveFromModal event s prevEvents w
        = ((EventModal.setError s msg, prevEvents), w))
  /\ (forall h1 m1 h2 m2,
         0 <= h1 < 100 -> 0 <= m1 < 60 -> 0 <= h2 < 100 -> 0 <= m2 < 60 ->
         Num.eqv (timeToMinutes (hhmm h1 m1)) (Num.ofZ (h1 * 60 + m1))
         /\ Num.eqv (timeToMinutes (hhmm h2 m2)) (Num.ofZ (h2 * 60 + m2))
         /\ (Str.geb (hhmm h1 m1) (hhmm h2 m2) = true
             <-> h2 * 60 + m2 <= h1 * 60 + m1)).
Proof.
  split.
  - intros H. unfold saveFromModal, EventModal.handleSave.
    destruct (Str.truthy (Str.trim (EventModal.title s))) eqn:T; simpl negb;
      cbv iota.
    + destruct H as [H | H]; [apply truthy_true in T; contradiction|].
      rewrite H. exists EventModal.endAfterStart.
      split; [discriminate | reflexivity].
    + exists EventModal.titleRequired.
      split; [discriminate | reflexivity].
  - intros h1 m1 h2 m2 H1 M1 H2 M2.
    split; [apply timeToMinutes_hhmm; lia|].
    split; [apply timeToMinutes_hhmm; lia|].
    now apply geb_hhmm.
Qed.

Lemma C8_modal_validation_witness :
  exists msg,
    msg <> ""
    /\ saveFromModal None
         (EventModal.mkState "Cena" "" 0 "10:00" "09:00" "blue" [] "")
         [evA] sampleWorld
       = ((EventModal.setError
             (EventModal.mkState "Cena" "" 0 "10:00" "09:00" "blue" [] "")
             msg, [evA]), sampleWorld).
Proof.
  destruct (C8_modal_validation None
              (EventModal.mkState "Cena" "" 0 "10:00" "09:00" "blue" [] "")
              [evA] sampleWorld) as [H _].
  apply H. right. vm_compute. reflexivity.
Defined.

(** * Further properties of the layout *)

(** X1: concurrency is symmetric: among the events of a day, [o] is in
    the cluster of [e] exactly when [e] is in the cluster of [o]. *)
Theorem X1_cluster_symmetric (localeCompare : string -> string -> Z)
        (dayEvents : list Event) (e o : Event) :
  In e dayEvents -> In o dayEvents ->
  (In o (concurrentEvents localeCompare dayEvents e)
   <-> In e (concurrentEvents localeCompare dayEvents o)).
Proof.
  intros He Ho. rewrite !cluster_In, !isConcurrent_spec.
  destruct (Num.ltb (startMinutes e) (endMinutes e)),
    (Num.ltb (startMinutes e) (endMinutes o)),
    (Num.ltb (startMinutes o) (endMinutes e)),
    (Num.ltb (startMinutes o) (endMinutes o)); simpl; tauto.
Qed.

Lemma X1_cluster_symmetric_witness :
  In evB (concurrentEvents compareCodeUnits [evA; evB; evC] evA)
  <-> In evA (concurrentEvents compareCodeUnits [evA; evB; evC] evB).
Proof.
  apply X1_cluster_symmetric; simpl; auto.
Defined.

(** The slot at position [k] of [n] starts inside the column: the width
    is positive and the left offset is at least 0 and below 100. *)
Definition slotInside (n k : Z) : bool :=
  let width := Num.div (Fin 100) (Num.ofZ n) in
  let left := Num.mul (Num.ofZ k) width in
  Num.ltb (Fin 0) width && Num.leb (Fin 0) left && Num.ltb left (Fin 100).

Lemma slotInside_all :
  forallb (fun n => forallb (slotInside (n + 1)) (upTo (S (Z.to_nat n))))
          (upTo 40) = true.
Proof. vm_compute. reflexivity. Qed.

Lemma slotInside_upTo (n k : Z) :
  1 <= n <= 40 -> 0 <= k < n -> slotInside n k = true.
Proof.
  intros Hn Hk. pose proof slotInside_all as A.
  rewrite forallb_forall in A.
  assert (In1 : In (n - 1) (upTo 40)) by (apply In_upTo; lia).
  specialize (A (n - 1) In1).
  replace (n - 1 + 1) with n in A by lia.
  rewrite forallb_forall in A. apply A. apply In_upTo. lia.
Qed.

(** The last of six columns ends at left + width = 100.00000000000001
    percent in binary64: the end of a slot can pass the edge of the
    column by a rounding error. *)
Lemma last_of_six_columns :
  let width := Num.div (Fin 100) (Num.ofZ 6) in
  let left := Num.mul (Num.ofZ 5) width in
  Num.ltb (Fin 100) (Num.add left width) = true.
Proof. vm_compute. reflexivity. Qed.

(** X2: the slot of an event with startMinutes < endMinutes whose cluster
    has at most 40 events starts inside the day column: in binary64 its
    width is positive and its left offset is at least 0 and below 100
    percent. *)
Theorem X2_slot_inside_column (localeCompare : string -> string -> Z)
        (dayEvents : list Event) (event : Event) :
  In event dayEvents ->
  Num.ltb (startMinutes event) (endMinutes event) = true ->
  (length (concurrentEvents localeCompare dayEvents event) <= 40)%nat ->
  Num.ltb (Fin 0) (Layout.width (layoutOf localeCompare dayEvents event))
  = true
  /\ Num.leb (Fin 0) (Layout.left (layoutOf localeCompare dayEvents event))
     = true
  /\ Num.ltb (Layout.left (layoutOf localeCompare dayEvents event)) (Fin 100)
     = true.
Proof.
  intros Hin Hlt Hsize.
  destruct (own_cluster_facts localeCompare dayEvents event Hin Hlt)
    as [_ [Hn [H1 Hk]]].
  assert (S : slotInside (numConcurrent localeCompare dayEvents event)
                         (myIndex localeCompare dayEvents event) = true).
  { apply slotInside_upTo; [|exact Hk]. rewrite Hn in *. lia. }
  unfold slotInside in S. cbv zeta in S.
  apply andb_prop in S. destruct S as [S S3].
  apply andb_prop in S. destruct S as [S1 S2].
  unfold layoutOf. cbn [Layout.width Layout.left]. auto.
Qed.

Lemma X2_slot_inside_column_witness :
  Num.ltb (Fin 0) (Layout.width (layoutOf compareCodeUnits [evA; evB; evC] evB))
  = true
  /\ Num.leb (Fin 0) (Layout.left (layoutOf compareCodeUnits [evA; evB; evC] evB))
     = true
  /\ Num.ltb (Layout.left (layoutOf compareCodeUnits [evA; evB; evC] evB))
             (Fin 100)
     = true.
Proof.
  apply X2_slot_inside_column;
    [simpl; auto | vm_compute; reflexivity | vm_compute; lia].
Defined.

Lemma filter_single {A : Type} (f : A -> bool) (l : list A) (x : A) :
  NoDup l -> In x l -> f x = true ->
  (forall y, In y l -> y <> x -> f y = false) ->
  filter f l = [x].
Proof.
  induction l as [|y r IH]; intros Hnd Hin Hx Hothers; [contradiction|].
  inversion Hnd as [|? ? Hy Hr]; subst. simpl.
  destruct Hin as [-> | Hin].
  - rewrite Hx. f_equal.
    destruct (filter f r) as [|z t] eqn:E; [reflexivity|].
    assert (Hz : In z (filter f r)) by (rewrite E; now left).
    apply filter_In in Hz. destruct Hz as [Hz Fz].
    rewrite (Hothers z) in Fz; [discriminate | now right |].
    intros ->. contradiction.
  - rewrite (Hothers y); [|now left | intros ->; contradiction].
    apply IH; auto. intros z Hz. apply Hothers. now right.
Qed.

(** X3: in a day whose events have pairwise distinct ids, an event with
    startMinutes < endMinutes that no other event of the day overlaps is
    alone in its cluster and gets the whole width: width 100, left 0. *)
Theorem X3_lone_event_full_width (localeCompare : string -> string -> Z)
        (dayEvents : list Event) (event : Event) :
  NoDup (map id dayEvents) ->
  In event dayEvents ->
  Num.ltb (startMinutes event) (endMinutes event) = true ->
  (forall o, In o dayEvents -> o <> event ->
             isConcurrent (startMinutes event) (endMinutes event) o = false) ->
  concurrentEvents localeCompare dayEvents event = [event]
  /\ Layout.width (layoutOf localeCompare dayEvents event) = Fin 100
  /\ Layout.left (layoutOf localeCompare dayEvents event) = Fin 0.
Proof.
  intros Hnd Hin Hlt Hothers.
  assert (E : concurrentEvents localeCompare dayEvents event = [event]).
  { unfold concurrentEvents.
    fold (startMinutes event) (endMinutes event).
    rewrite (filter_single _ dayEvents event); auto.
    - now apply NoDup_map_inv in Hnd.
    - now apply isConcurrent_self. }
  split; [exact E|].
  unfold layoutOf, numConcurrent, myIndex. rewrite E.
  cbn [Layout.width Layout.left length Arr.findIndex].
  rewrite String.eqb_refl. split; vm_compute; reflexivity.
Qed.

Lemma X3_lone_event_full_width_witness :
  concurrentEvents compareCodeUnits [evA; evC] evC = [evC]
  /\ Layout.width (layoutOf compareCodeUnits [evA; evC] evC) = Fin 100
  /\ Layout.left (layoutOf compareCodeUnits [evA; evC] evC) = Fin 0.
Proof.
  apply X3_lone_event_full_width.
  - repeat constructor; simpl; intuition discriminate.
  - simpl. auto.
  - vm_compute. reflexivity.
  - intros o [<- | [<- | []]] Hne; [vm_compute; reflexivity|].
    now contradiction Hne.
Defined.

(** The integers the difference of two times written HH:mm can be are
    exact in binary64. *)
Lemma round_minutes_all :
  forallb (fun z => sameNumber (Binary64.round (inject_Z (z - 6039)))
                               (Fin (inject_Z (z - 6039))))
          (upTo (Z.to_nat 12079)) = true.
Proof. vm_compute. reflexivity. Qed.

Lemma round_minutes (z : Z) :
  -6039 <= z <= 6039 -> Binary64.round (inject_Z z) = Fin (inject_Z z).
Proof.
  intros Hz. pose proof round_minutes_all as A.
  rewrite forallb_forall in A.
  assert (I : In (z + 6039) (upTo (Z.to_nat 12079)))
    by (apply In_upTo; lia).
  specialize (A (z + 6039) I).
  replace (z + 6039 - 6039) with z in A by lia.
  destruct (Binary64.round (inject_Z z)) as [[a d]| |s]; try discriminate.
  unfold sameNumber in A. cbn [Qnum Qden inject_Z] in A.
  apply andb_prop in A. destruct A as [A1 A2].
  apply Z.eqb_eq in A1. apply Pos.eqb_eq in A2.
  unfold inject_Z. now rewrite A1, A2.
Qed.

Lemma eqv_ofZ (a : num) (z : Z) :
  Num.eqv a (Num.ofZ z) -> exists q, a = Fin q /\ (q == inject_Z z)%Q.
Proof.
  destruct a as [q| |s]; simpl; try contradiction.
  intros H. now exists q.
Qed.

(** X4: for an event whose two times are written with two digits, a
    colon and two digits, the duration the height is computed from is the
    exact integer max(5, end - start) in minutes, never below five, and
    the height is that duration divided by 60 and multiplied by the hour
    height, in binary64. *)
Theorem X4_height_minimum (localeCompare : string -> string -> Z)
        (hourHeight : Q) (dayEvents : list Event) (event : Event)
        (h1 m1 h2 m2 : Z) :
  0 <= h1 < 100 -> 0 <= m1 < 100 -> 0 <= h2 < 100 -> 0 <= m2 < 100 ->
  startTime event = hhmm h1 m1 -> endTime event = hhmm h2 m2 ->
  height (descriptorOf localeCompare hourHeight dayEvents event)
  = Num.mul (Num.div (Num.ofZ (Z.max 5 (h2 * 60 + m2 - (h1 * 60 + m1))))
                     (Fin 60))
            (Fin hourHeight).
Proof.
  intros H1 M1 H2 M2 Es Ee.
  unfold descriptorOf, placementOf. cbn [height fst]. rewrite Es, Ee.
  destruct (eqv_ofZ _ _ (timeToMinutes_hhmm h1 m1 H1 M1)) as [s [-> Hs]].
  destruct (eqv_ofZ _ _ (timeToMinutes_hhmm h2 m2 H2 M2)) as [e [-> He]].
  set (a := h1 * 60 + m1) in *. set (b := h2 * 60 + m2) in *.
  assert (D : Num.sub (Fin e) (Fin s) = Fin (inject_Z (b - a))).
  { cbn [Num.sub].
    rewrite (round_compat (e - s) (inject_Z (b - a))).
    - apply round_minutes. unfold a, b. lia.
    - rewrite He, Hs. unfold Zminus.
      rewrite inject_Z_plus, inject_Z_opp. reflexivity. }
  rewrite D. f_equal. unfold Num.max, Num.ofZ. cbn [Num.cmp Num.div].
  assert (C : (5 ?= inject_Z (b - a))%Q = (5 ?= b - a)).
  { unfold Qcompare. cbn [Qnum Qden inject_Z]. now rewrite !Z.mul_1_r. }
  rewrite C.
  destruct (Z.compare_spec 5 (b - a)) as [E | E | E].
  - rewrite Z.max_l by lia. apply round_compat.
    now rewrite E.
  - now rewrite Z.max_r by lia.
  - now rewrite Z.max_l by lia.
Qed.

Lemma X4_height_minimum_witness :
  height (descriptorOf compareCodeUnits HOUR_HEIGHT_IN_REM [evA] evA)
  = Num.mul (Num.div (Num.ofZ 60) (Fin 60)) (Fin HOUR_HEIGHT_IN_REM).
Proof.
  apply (X4_height_minimum compareCodeUnits HOUR_HEIGHT_IN_REM [evA] evA
                           9 0 10 0); try lia; reflexivity.
Defined.

(** [localeCompare] separates the given ids: two ids that are each not
    after the other are the same id. *)
Definition separatesOn (localeCompare : string -> string -> Z)
           (ids : list string) : bool :=
  forallb (fun a =>
    forallb (fun b =>
      implb ((localeCompare a b <=? 0) && (localeCompare b a <=? 0))
            (a =? b)%string) ids) ids.

Lemma separatesOn_spec (lc : string -> string -> Z) (ids : list string) :
  separatesOn lc ids = true ->
  forall a b, In a ids -> In b ids -> lc a b <= 0 -> lc b a <= 0 -> a = b.
Proof.
  unfold separatesOn. intros H a b Ha Hb L1 L2.
  rewrite forallb_forall in H. specialize (H a Ha).
  rewrite forallb_forall in H. specialize (H b Hb).
  destruct (Z.leb_spec (lc a b) 0); [|lia].
  destruct (Z.leb_spec (lc b a) 0); [|lia].
  simpl in H. now apply String.eqb_eq.
Qed.

Lemma forallb_incl {A : Type} (f g : A -> bool) (l1 l2 : list A) :
  (forall x, In x l2 -> In x l1) ->
  (forall x, In x l2 -> f x = true -> g x = true) ->
  forallb f l1 = true -> forallb g l2 = true.
Proof.
  intros Hin Hfg H. rewrite forallb_forall in *.
  intros x Hx. apply Hfg; auto.
Qed.

Lemma consistentOn_incl (lc : string -> string -> Z) (ids1 ids2 : list string) :
  (forall x, In x ids2 -> In x ids1) ->
  consistentOn lc ids1 = true -> consistentOn lc ids2 = true.
Proof.
  intros Hin. unfold consistentOn.
  apply forallb_incl; [exact Hin|]. intros a _.
  apply forallb_incl; [exact Hin|]. intros b _ H.
  apply andb_prop in H. destruct H as [H1 H2].
  rewrite H1. simpl. revert H2.
  apply forallb_incl; [exact Hin | auto].
Qed.

Lemma filter_perm {A : Type} (f : A -> bool) (l1 l2 : list A) :
  Permutation l1 l2 -> Permutation (filter f l1) (filter f l2).
Proof.
  induction 1 as [|x l l' _ IH|x y l|l l' l'' _ IH1 _ IH2]; simpl.
  - constructor.
  - destruct (f x); [now constructor | exact IH].
  - destruct (f x), (f y); try reflexivity. apply perm_swap.
  - now transitivity (filter f l').
Qed.

(** Two sorted lists with the same elements are the same list when the
    order separates the elements. *)
Lemma sorted_unique {A : Type} (R : A -> A -> Prop) (l1 l2 : list A) :
  (forall a b, In a l1 -> In b l1 -> R a b -> R b a -> a = b) ->
  StronglySorted R l1 -> StronglySorted R l2 -> Permutation l1 l2 ->
  l1 = l2.
Proof.
  revert l2. induction l1 as [|x r1 IH]; intros l2 Anti S1 S2 P.
  - apply Permutation_nil in P. now subst.
  - destruct l2 as [|y r2];
      [apply Permutation_sym, Permutation_nil in P; discriminate|].
    inversion S1 as [|? ? S1' F1]; subst.
    inversion S2 as [|? ? S2' F2]; subst.
    rewrite Forall_forall in F1, F2.
    assert (E : x = y).
    { assert (Hx : In x (y :: r2))
        by (apply (Permutation_in _ P); now left).
      assert (Hy : In y (x :: r1))
        by (apply (Permutation_in _ (Permutation_sym P)); now left).
      destruct Hx as [-> | Hx]; [reflexivity|].
      destruct Hy as [-> | Hy]; [reflexivity|].
      apply Anti; [now left | now right | auto | auto]. }
    subst y. f_equal. apply IH; auto.
    + intros a b Ha Hb. apply Anti; now right.
    + now apply Permutation_cons_inv in P.
Qed.

Section OrderOfTheDay.

Variable localeCompare : string -> string -> Z.
Variables day1 day2 : list Event.
Hypothesis sameEvents : Permutation day1 day2.
Hypothesis distinct : NoDup (map id day1).
Hypothesis consistent : consistentOn localeCompare (map id day1) = true.
Hypothesis separates : separatesOn localeCompare (map id day1) = true.
Hypothesis starts : forall o, In o day1 -> startMinutes o <> Inf true.

Lemma precedes_antisym (event a b : Event) :
  In a (concurrentEvents localeCompare day1 event) ->
  In b (concurrentEvents localeCompare day1 event) ->
  Spec.precedes localeCompare a b -> Spec.precedes localeCompare b a ->
  a = b.
Proof.
  intros Ha Hb. apply cluster_In in Ha, Hb.
  destruct Ha as [Ia _], Hb as [Ib _].
  unfold Spec.precedes.
  intros [H1 | [H1 L1]] [H2 | [H2 L2]].
  - destruct (ltb_exclusive _ _ H1) as [F _]. congruence.
  - destruct (ltb_exclusive _ _ H1) as [_ [_ F]]. congruence.
  - destruct (ltb_exclusive _ _ H2) as [_ [_ F]]. congruence.
  - apply (ids_injective day1); auto.
    apply (separatesOn_spec _ _ separates); auto using in_map.
Qed.

Lemma cluster_order_free (event : Event) :
  concurrentEvents localeCompare day1 event
  = concurrentEvents localeCompare day2 event.
Proof.
  apply (sorted_unique (Spec.precedes localeCompare)).
  - intros a b. apply precedes_antisym.
  - apply cluster_sorted; [exact consistent|].
    intros o Ho _. now apply starts.
  - apply cluster_sorted.
    + apply (consistentOn_incl _ (map id day1)); [|exact consistent].
      intros x Hx. apply in_map_iff in Hx. destruct Hx as [e [<- He]].
      apply in_map. apply (Permutation_in _ (Permutation_sym sameEvents) He).
    + intros o Ho _. apply starts.
      apply (Permutation_in _ (Permutation_sym sameEvents) Ho).
  - unfold concurrentEvents.
    rewrite !sort_perm. now apply filter_perm.
Qed.

End OrderOfTheDay.

(** X5: the layout does not depend on the order in which the events of
    the day are stored: when the ids are pairwise distinct,
    [localeCompare] orders them consistently and tells them apart, and no
    event starts at -Infinity, a reordered day gives every event the same
    sorted cluster and the same layout. *)
Theorem X5_layout_order_free (localeCompare : string -> string -> Z)
        (day1 day2 : list Event) (event : Event) :
  Permutation day1 day2 ->
  NoDup (map id day1) ->
  consistentOn localeCompare (map id day1) = true ->
  separatesOn localeCompare (map id day1) = true ->
  (forall o, In o day1 -> startMinutes o <> Inf true) ->
  concurrentEvents localeCompare day1 event
  = concurrentEvents localeCompare day2 event
  /\ layoutOf localeCompare day1 event = layoutOf localeCompare day2 event.
Proof.
  intros P Hnd Hc Hs Hf.
  pose proof (cluster_order_free localeCompare day1 day2 P Hnd Hc Hs Hf event)
    as E.
  split; [exact E|].
  unfold layoutOf, numConcurrent, myIndex. now rewrite E.
Qed.

Lemma X5_layout_order_free_witness :
  layoutOf compareCodeUnits [evA; evB; evC] evB
  = layoutOf compareCodeUnits [evC; evA; evB] evB.
Proof.
  apply (X5_layout_order_free compareCodeUnits [evA; evB; evC]
                              [evC; evA; evB] evB).
  - apply Permutation_sym, (Permutation_cons_append [evA; evB] evC).
  - repeat constructor; simpl; intuition discriminate.
  - vm_compute. reflexivity.
  - vm_compute. reflexivity.
  - intros o [<- | [<- | [<- | []]]]; vm_compute; discriminate.
Defined.

(** * Further properties of the reconciler *)

Lemma batch_append (Date_parse : string -> option Date)
      (colorMap : Obj.t) (first second : list AssistantAction)
      (events : list Event) (w : Host.World) :
  applyAssistantActions Date_parse colorMap (first ++ second)%list events w
  = applyAssistantActions Date_parse colorMap second
      (fst (applyAssistantActions Date_parse colorMap first events w))
      (snd (applyAssistantActions Date_parse colorMap first events w)).
Proof.
  unfold applyAssistantActions. revert events w.
  induction first as [|a r IH]; intros events w; [reflexivity|].
  simpl. unfold Host.bind.
  destruct (applyAction Date_parse colorMap events a w) as [next w1].
  apply IH.
Qed.

(** X6: a batch is applied in order and later actions see the effects of
    the earlier ones: applying [first ++ second] is applying [first] and
    then [second] to the collection and the host state it leaves. *)
Theorem X6_batch_composition (Date_parse : string -> option Date)
        (colorMap : Obj.t) (first second : list AssistantAction)
        (events : list Event) (w : Host.World) :
  applyAssistantActions Date_parse colorMap (first ++ second)%list events w
  = applyAssistantActions Date_parse colorMap second
      (fst (applyAssistantActions Date_parse colorMap first events w))
      (snd (applyAssistantActions Date_parse colorMap first events w)).
Proof. apply batch_append. Qed.

Lemma filter_all {A : Type} (f : A -> bool) (l : list A) :
  (forall x, In x l -> f x = true) -> filter f l = l.
Proof.
  induction l as [|x r IH]; intros H; simpl; [reflexivity|].
  rewrite (H x) by now left. f_equal. apply IH.
  intros y Hy. apply H. now right.
Qed.

Lemma delete_In (eventId : string) (events : list Event) (e : Event) :
  In e (handleDeleteEvent eventId events)
  <-> In e events /\ id e <> eventId.
Proof.
  unfold handleDeleteEvent. rewrite filter_In.
  rewrite negb_true_iff, String.eqb_neq. reflexivity.
Qed.

(** X7: a delete action without a payload, or whose payload has no id
    or an empty one, changes nothing; with an id it does what deleting
    from the form does: every event with that id goes, wherever it is,
    the other events stay, and neither the host nor the order of the
    rest is touched. *)
Theorem X7_delete_action (Date_parse : string -> option Date)
        (colorMap : Obj.t) (events : list Event) (w : Host.World) :
  applyAssistantActions Date_parse colorMap [mkAction delete None] events w
  = (events, w)
  /\ (forall ei,
         Input.id ei = None \/ Input.id ei = Some "" ->
         applyAssistantActions Date_parse colorMap
           [mkAction delete (Some ei)] events w = (events, w))
  /\ (forall ei tid,
         Input.id ei = Some tid -> tid <> "" ->
         applyAssistantActions Date_parse colorMap
           [mkAction delete (Some ei)] events w
         = (handleDeleteEvent tid events, w)
         /\ (forall e, In e (handleDeleteEvent tid events)
                       <-> In e events /\ id e <> tid)).
Proof.
  split; [reflexivity|]. split.
  - intros ei [E | E]; rewrite single_action; unfold applyAction, applyDelete;
      cbn [type event]; rewrite E; reflexivity.
  - intros ei tid E Hne. split; [|apply delete_In].
    rewrite single_action. unfold applyAction, applyDelete.
    cbn [type event]. rewrite E. cbn [Str.present Str.orElse].
    apply truthy_true in Hne. now rewrite Hne.
Qed.

Lemma X7_delete_action_witness :
  applyAssistantActions sampleDateParse initialCategoryMap
    [mkAction delete
       (Some (Input.mk (Some "a") None None None None None None None None))]
    [evA; evB] sampleWorld
  = (handleDeleteEvent "a" [evA; evB], sampleWorld).
Proof.
  destruct (X7_delete_action sampleDateParse initialCategoryMap [evA; evB]
                             sampleWorld) as [_ [_ H]].
  apply (H (Input.mk (Some "a") None None None None None None None None) "a");
    [reflexivity | discriminate].
Defined.

(** X8: a create action with an explicit id that no event has, followed
    by a delete action with that id, gives back the collection as it
    was. *)
Theorem X8_create_then_delete (Date_parse : string -> option Date)
        (colorMap : Obj.t) (events : list Event) (w : Host.World)
        (created removed : Input.AssistantEventInput) (tid s : string)
        (d : Date) :
  Input.id created = Some tid -> Input.id removed = Some tid ->
  tid <> "" ->
  Input.date created = Some s -> s <> "" -> Date_parse s = Some d ->
  (forall e, In e events -> id e <> tid) ->
  fst (applyAssistantActions Date_parse colorMap
         [mkAction create (Some created); mkAction delete (Some removed)]
         events w)
  = events.
Proof.
  intros Ec Er Hne Es Hs Ed Hfresh.
  change [mkAction create (Some created); mkAction delete (Some removed)]
    with ([mkAction create (Some created)]
            ++ [mkAction delete (Some removed)])%list.
  rewrite batch_append.
  rewrite (single_action _ _ (mkAction create (Some created))).
  change (applyAction Date_parse colorMap events
                      (mkAction create (Some created)) w)
    with (applyCreate Date_parse colorMap events created w).
  assert (P : parseAssistantDate Date_parse (Input.date created) = Some d).
  { rewrite Es. simpl. apply truthy_true in Hs. now rewrite Hs. }
  destruct (applyCreate_appends Date_parse colorMap events created d w P)
    as [i [ts [w' [E [_ Hi]]]]].
  rewrite E. cbn [fst snd].
  rewrite single_action. unfold applyAction, applyDelete.
  cbn [type event fst]. rewrite Er. cbn [Str.present Str.orElse].
  pose proof Hne as T. apply truthy_true in T. rewrite T.
  rewrite filter_app. cbn [filter id].
  rewrite (Hi tid Ec Hne), String.eqb_refl. cbn [negb].
  rewrite app_nil_r. apply filter_all.
  intros e He. apply negb_true_iff, String.eqb_neq. now apply Hfresh.
Qed.

Lemma X8_create_then_delete_witness :
  fst (applyAssistantActions sampleDateParse initialCategoryMap
         [mkAction create
            (Some (Input.mk (Some "z") (Some "Visita") None
                            (Some "2024-05-01") None None None None None));
          mkAction delete
            (Some (Input.mk (Some "z") None None None None None None None
                            None))]
         [evA; evB] sampleWorld)
  = [evA; evB].
Proof.
  apply (X8_create_then_delete sampleDateParse initialCategoryMap [evA; evB]
           sampleWorld _ _ "z" "2024-05-01" 1714521600000);
    try reflexivity; try discriminate.
  intros e [<- | [<- | []]]; discriminate.
Defined.

(** X9: the id of an event created without an id is the clock reading,
    so two such create actions of one batch that read the same
    millisecond give two events with the same id, and the ids of the
    collection are no longer pairwise distinct. *)
Theorem X9_same_millisecond_same_id (Date_parse : string -> option Date)
        (colorMap : Obj.t) (events : list Event) (w : Host.World)
        (one two : Input.AssistantEventInput) (d1 d2 : Date) :
  Str.present (Input.id one) = false ->
  Str.present (Input.id two) = false ->
  Input.todos one = None -> Input.todos two = None ->
  parseAssistantDate Date_parse (Input.date one) = Some d1 ->
  parseAssistantDate Date_parse (Input.date two) = Some d2 ->
  Host.nowAt w (Host.reads w) = Host.nowAt w (S (Host.reads w)) ->
  exists e1 e2 w',
    applyAssistantActions Date_parse colorMap
      [mkAction create (Some one); mkAction create (Some two)] events w
    = ((events ++ [e1; e2])%list, w')
    /\ id e1 = Host.toString 10 (Host.nowAt w (Host.reads w))
    /\ id e2 = id e1
    /\ ~ NoDup (map id (events ++ [e1; e2])).
Proof.
  intros I1 I2 T1 T2 P1 P2 Hclock.
  unfold applyAssistantActions, forEach, applyAction. cbn [type event].
  unfold Host.bind at 1. unfold applyCreate at 1.
  rewrite P1, I1, T1. unfold Host.bind, Host.Date_now, Host.ret. simpl.
  unfold applyCreate. rewrite P2, I2, T2.
  unfold Host.bind, Host.Date_now, Host.ret, Host.tick. simpl.
  eexists _, _, _. split.
  { rewrite <- app_assoc. reflexivity. }
  cbn [id]. split; [reflexivity|]. split; [now rewrite Hclock|].
  rewrite map_app. cbn [map id]. rewrite Hclock.
  intros H. apply NoDup_remove_2 in H. apply H.
  apply in_or_app. right. now left.
Qed.

Lemma X9_same_millisecond_same_id_witness :
  exists e1 e2 w',
    applyAssistantActions sampleDateParse initialCategoryMap
      [scenarioC; scenarioC] [evA] sampleWorld
    = ([evA; e1; e2], w')
    /\ id e2 = id e1.
Proof.
  destruct (X9_same_millisecond_same_id sampleDateParse initialCategoryMap
              [evA] sampleWorld
              (Input.mk None (Some "Riunione") None (Some "2024-05-01")
                        None None None None None)
              (Input.mk None (Some "Riunione") None (Some "2024-05-01")
                        None None None None None)
              1714521600000 1714521600000)
    as [e1 [e2 [w' [E [_ [I _]]]]]]; try reflexivity.
  exists e1, e2, w'. split; [exact E | exact I].
Defined.

(** X10: [normaliseTodos] keeps the number and the order of the todos;
    each one keeps its id when it has a non-empty one, its text (the
    empty string when it has none) and its completion flag (false when
    it has none); without a list the result is empty and the host is
    not read. *)
Theorem X10_normaliseTodos (l : list Partial.ToDoItem) (w : Host.World) :
  normaliseTodos None w = ([], w)
  /\ length (fst (normaliseTodos (Some l) w)) = length l
  /\ forall i t,
      nth_error l i = Some t ->
      exists o,
        nth_error (fst (normaliseTodos (Some l) w)) i = Some o
        /\ (forall s, Partial.id t = Some s -> s <> "" -> ToDo.id o = s)
        /\ ToDo.text o
           = match Partial.text t with Some s => s | None => "" end
        /\ ToDo.completed o
           = match Partial.completed t with Some b => b | None => false end.
Proof.
  split; [reflexivity|]. unfold normaliseTodos.
  revert w. induction l as [|x r IH]; intros w.
  - split; [reflexivity|]. intros [|i] t H; discriminate.
  - rewrite mapM_cons. destruct (IH (snd (normaliseTodo x w))) as [Hlen Hnth].
    split; [cbn [length]; now rewrite Hlen|].
    intros [|i] t H.
    + injection H as <-. exists (fst (normaliseTodo x w)).
      split; [reflexivity | apply normaliseTodo_fields].
    + simpl. apply Hnth. exact H.
Qed.

Lemma X10_normaliseTodos_witness :
  exists o,
    nth_error
      (fst (normaliseTodos
              (Some [Partial.mk None (Some "pane") None;
                     Partial.mk (Some "t2") None (Some true)])
              sampleWorld)) 1
    = Some o
    /\ ToDo.id o = "t2" /\ ToDo.text o = "" /\ ToDo.completed o = true.
Proof.
  destruct (X10_normaliseTodos
              [Partial.mk None (Some "pane") None;
               Partial.mk (Some "t2") None (Some true)] sampleWorld)
    as [_ [_ H]].
  destruct (H 1%nat (Partial.mk (Some "t2") None (Some true)) eq_refl)
    as [o [E [I [T C]]]].
  exists o. split; [exact E|]. split; [|split; assumption].
  apply (I "t2"); [reflexivity | discriminate].
Defined.

(** * Further properties of the save paths *)

(** X11: saving a draft whose id is the id of an event of the collection
    rewrites every event with that id with the fields of the draft and
    leaves the others as they are; the ids, their order and the host are
    untouched. *)
Theorem X11_save_existing (eventData : Draft.EventData)
        (prevEvents : list Event) (w : Host.World) (i : string) :
  Draft.id eventData = Some i -> i <> "" ->
  (exists e, In e prevEvents /\ id e = i) ->
  exists result,
    handleSaveEvent eventData prevEvents w = (result, w)
    /\ map id result = map id prevEvents
    /\ forall k e,
        nth_error prevEvents k = Some e ->
        (id e <> i -> nth_error result k = Some e)
        /\ (id e = i ->
            exists e',
              nth_error result k = Some e'
              /\ id e' = i
              /\ title e' = Draft.title eventData
              /\ date e' = Draft.date eventData
              /\ startTime e' = Draft.startTime eventData
              /\ endTime e' = Draft.endTime eventData
              /\ color e' = Draft.color eventData
              /\ todos e' = Draft.todos eventData
              /\ (forall s, Draft.description eventData = Some s ->
                            description e' = Some s)).
Proof.
  intros Ei Hne [e0 [Hin E0]]. unfold handleSaveEvent.
  rewrite Ei. cbn [Str.present Str.orElse].
  pose proof Hne as T. apply truthy_true in T. rewrite T.
  assert (X : existsb (fun e => (id e =? i)%string) prevEvents = true).
  { apply existsb_exists. exists e0. split; [exact Hin|].
    rewrite E0. apply String.eqb_refl. }
  rewrite X. cbn [andb]. eexists. split; [reflexivity|]. split.
  - rewrite map_map. apply map_ext_in. intros e _.
    destruct (String.eqb_spec (id e) i) as [E|]; [|reflexivity].
    unfold mergeEvent. rewrite Ei. cbn [id]. now rewrite E.
  - intros k e Hk. rewrite nth_error_map, Hk. cbn [option_map]. split.
    + intros Hd. apply String.eqb_neq in Hd. now rewrite Hd.
    + intros He. rewrite He, String.eqb_refl.
      eexists. split; [reflexivity|].
      unfold mergeEvent. rewrite Ei.
      cbn [id title date startTime endTime color todos description].
      repeat split. intros s ->. reflexivity.
Qed.

Lemma X11_save_existing_witness :
  exists result,
    handleSaveEvent
      (Draft.mk (Some "a") "Colazione" (Some "") 0 "08:00" "08:30" "green" [])
      [evA; evB] sampleWorld
    = (result, sampleWorld)
    /\ map id result = ["a"; "b"].
Proof.
  destruct (X11_save_existing
              (Draft.mk (Some "a") "Colazione" (Some "") 0 "08:00" "08:30"
                        "green" [])
              [evA; evB] sampleWorld "a") as [result [E [I _]]].
  - reflexivity.
  - discriminate.
  - exists evA. split; [now left | reflexivity].
  - exists result. split; [exact E | exact I].
Defined.

(** X12: a draft without an id, or whose id no event has, is appended
    as a new event whose id is the clock reading, not the id of the
    draft; the collection before it is untouched, and the ids stay
    pairwise distinct exactly when that reading was not already an
    id. *)
Theorem X12_save_new (eventData : Draft.EventData)
        (prevEvents : list Event) (w : Host.World) :
  Str.present (Draft.id eventData) = false
  \/ (forall e, In e prevEvents -> Some (id e) <> Draft.id eventData) ->
  exists new,
    handleSaveEvent eventData prevEvents w
    = ((prevEvents ++ [new])%list, Host.tick w)
    /\ id new = Host.toString 10 (Host.nowAt w (Host.reads w))
    /\ title new = Draft.title eventData
    /\ description new = Draft.description eventData
    /\ date new = Draft.date eventData
    /\ startTime new = Draft.startTime eventData
    /\ endTime new = Draft.endTime eventData
    /\ color new = Draft.color eventData
    /\ todos new = Draft.todos eventData
    /\ (NoDup (map id prevEvents) ->
        (NoDup (map id (prevEvents ++ [new]))
         <-> ~ In (id new) (map id prevEvents))).
Proof.
  intros H. unfold handleSaveEvent.
  assert (X : Str.present (Draft.id eventData)
              && existsb (fun e => (id e
                                    =? Str.orElse (Draft.id eventData) "")%string)
                         prevEvents = false).
  { destruct H as [H | H]; [now rewrite H|].
    destruct (Draft.id eventData) as [i|]; [|reflexivity].
    cbn [Str.present Str.orElse].
    destruct (Str.truthy i); [|reflexivity]. cbn [andb].
    destruct (existsb (fun e => (id e =? i)%string) prevEvents) eqn:E;
      [|reflexivity].
    apply existsb_exists in E. destruct E as [e [He Ee]].
    apply String.eqb_eq in Ee. exfalso. apply (H e He). now rewrite Ee. }
  rewrite X. unfold Host.bind, Host.Date_now, Host.ret.
  eexists. split; [reflexivity|].
  cbn [id title description date startTime endTime color todos].
  repeat split; try reflexivity.
  - intros Hnd2 Hin. rewrite map_app in Hnd2. cbn [map] in Hnd2.
    apply NoDup_remove_2 in Hnd2. apply Hnd2. now rewrite app_nil_r.
  - intros Hout. rewrite map_app. cbn [map id].
    apply NoDup_app; [exact H0 | repeat constructor; intros [] |].
    intros x Hx [<- | []]. contradiction.
Qed.

Lemma X12_save_new_witness :
  exists new,
    handleSaveEvent
      (Draft.mk (Some "gone") "Cena" None 0 "20:00" "21:00" "blue" [])
      [evA] sampleWorld
    = ([evA; new], Host.tick sampleWorld)
    /\ id new = "1714521600000".
Proof.
  destruct (X12_save_new
              (Draft.mk (Some "gone") "Cena" None 0 "20:00" "21:00" "blue" [])
              [evA] sampleWorld) as [new [E [I _]]].
  - right. intros e [<- | []]. discriminate.
  - exists new. split; [exact E|]. rewrite I. vm_compute. reflexivity.
Defined.

(** X13: deleting an id leaves no event with that id and keeps the ids
    of the rest pairwise distinct; deleting twice is deleting once, and
    deleting an id that no event has changes nothing. *)
Theorem X13_delete_event (eventId : string) (prevEvents : list Event) :
  (forall e, In e (handleDeleteEvent eventId prevEvents) -> id e <> eventId)
  /\ handleDeleteEvent eventId (handleDeleteEvent eventId prevEvents)
     = handleDeleteEvent eventId prevEvents
  /\ ((forall e, In e prevEvents -> id e <> eventId) ->
      handleDeleteEvent eventId prevEvents = prevEvents)
  /\ (NoDup (map id prevEvents) ->
      NoDup (map id (handleDeleteEvent eventId prevEvents))).
Proof.
  split; [|split; [|split]].
  - intros e He. now apply delete_In in He.
  - unfold handleDeleteEvent. apply filter_all.
    intros e He. now apply filter_In in He.
  - intros H. unfold handleDeleteEvent. apply filter_all.
    intros e He. apply negb_true_iff, String.eqb_neq. now apply H.
  - apply ids_filter.
Qed.

Lemma X13_delete_event_witness :
  handleDeleteEvent "zz" [evA; evB] = [evA; evB]
  /\ NoDup (map id (handleDeleteEvent "a" [evA; evB])).
Proof.
  destruct (X13_delete_event "zz" [evA; evB]) as [_ [_ [H _]]].
  destruct (X13_delete_event "a" [evA; evB]) as [_ [_ [_ H']]].
  split.
  - apply H. intros e [<- | [<- | []]]; discriminate.
  - apply H'. repeat constructor; simpl; intuition discriminate.
Defined.

(** X14: saving a new draft and then deleting the event it created gives
    back the collection as it was, provided the clock reading the new
    event got as its id was not the id of an event already there. *)
Theorem X14_save_then_delete (eventData : Draft.EventData)
        (prevEvents : list Event) (w : Host.World) :
  Str.present (Draft.id eventData) = false ->
  ~ In (Host.toString 10 (Host.nowAt w (Host.reads w))) (map id prevEvents) ->
  handleDeleteEvent (Host.toString 10 (Host.nowAt w (Host.reads w)))
                    (fst (handleSaveEvent eventData prevEvents w))
  = prevEvents.
Proof.
  intros P Hfresh. unfold handleSaveEvent. rewrite P. cbn [andb].
  unfold Host.bind, Host.Date_now, Host.ret. cbn [fst].
  unfold handleDeleteEvent. rewrite filter_app. cbn [filter id].
  rewrite String.eqb_refl. cbn [negb]. rewrite app_nil_r.
  apply filter_all. intros e He.
  apply negb_true_iff, String.eqb_neq. intros E.
  apply Hfresh. rewrite <- E. now apply in_map.
Qed.

Lemma X14_save_then_delete_witness :
  handleDeleteEvent "1714521600000"
    (fst (handleSaveEvent
            (Draft.mk None "Cena" None 0 "20:00" "21:00" "blue" [])
            [evA; evB] sampleWorld))
  = [evA; evB].
Proof.
  apply (X14_save_then_delete
           (Draft.mk None "Cena" None 0 "20:00" "21:00" "blue" [])
           [evA; evB] sampleWorld).
  - reflexivity.
  - vm_compute. intros [H | [H | []]]; discriminate.
Defined.

(** * Further properties of the categories *)

Lemma repeats_true_iff (l : list string) :
  CategoryManagerModal.repeats [] l = false <-> NoDup l.
Proof.
  split.
  - intros H. now apply repeats_false in H.
  - assert (G : forall seen,
               NoDup l -> (forall x, In x l -> ~ In x seen) ->
               CategoryManagerModal.repeats seen l = false).
    { induction l as [|x r IH]; intros seen Hnd Hs; [reflexivity|].
      inversion Hnd as [|? ? Hx Hr]; subst. simpl.
      destruct (existsb (String.eqb x) seen) eqn:E.
      - apply existsb_eqb in E. exfalso. apply (Hs x); [now left | exact E].
      - apply IH; [exact Hr|].
        intros y Hy [<- | Hin]; [contradiction|].
        apply (Hs y); [now right | exact Hin]. }
    intros Hnd. apply G; [exact Hnd | intros x _ []].
Qed.

Lemma NoDup_map_weaken {A B C : Type} (f : A -> B) (g : B -> C)
      (l : list A) :
  NoDup (map (fun x => g (f x)) l) -> NoDup (map f l).
Proof.
  induction l as [|x r IH]; simpl; intros H; [constructor|].
  inversion H as [|? ? Hx Hr]; subst.
  constructor; [|auto].
  intros Hin. apply Hx.
  apply in_map_iff in Hin. destruct Hin as [y [Ey Hy]].
  apply in_map_iff. exists y. split; [now rewrite Ey | exact Hy].
Qed.

(** X15: the list of categories the manager hands to the application
    when a save is accepted holds the definitions whose trimmed name is
    not empty, under that trimmed name; it is not empty, no two of its names are equal up
    to case, hence no two are equal, and no two of its colors are equal;
    and a save is accepted whenever the trimmed list has these
    properties. *)
Theorem X15_accepted_categories
        (definitions : list Category.CategoryDefinition) (error : string) :
  (forall categories,
      snd (CategoryManagerModal.handleSave definitions error)
      = Some categories ->
      categories = CategoryManagerModal.trimmedCategories definitions
      /\ categories <> []
      /\ (forall c,
             In c categories
             <-> exists d,
                 In d definitions
                 /\ Str.trim (Category.name d) <> ""
                 /\ c = Category.mk (Str.trim (Category.name d))
                                    (Category.color d))
      /\ NoDup (map (fun c => Str.toLowerCase (Category.name c)) categories)
      /\ NoDup (map Category.name categories)
      /\ NoDup (map Category.color categories))
  /\ (CategoryManagerModal.trimmedCategories definitions <> [] ->
      NoDup (map (fun c => Str.toLowerCase (Category.name c))
                 (CategoryManagerModal.trimmedCategories definitions)) ->
      NoDup (map Category.color
                 (CategoryManagerModal.trimmedCategories definitions)) ->
      CategoryManagerModal.handleSave definitions error
      = ("", Some (CategoryManagerModal.trimmedCategories definitions))).
Proof.
  split.
  - intros categories H.
    destruct (handleSave_accepts _ _ _ H) as [E [Ec Hne]].
    split; [exact Ec|]. split; [exact Hne|].
    split.
    { intros c. rewrite Ec. unfold CategoryManagerModal.trimmedCategories.
      rewrite filter_In, in_map_iff. split.
      - intros [[d [<- Hd]] T]. cbn [Category.name] in T.
        apply truthy_true in T. now exists d.
      - intros [d [Hd [T ->]]]. split; [now exists d|].
        cbn [Category.name]. now apply truthy_true. }
    unfold CategoryManagerModal.handleSave in E. rewrite <- Ec in E.
    destruct (length categories =? 0)%nat; [discriminate|].
    destruct (CategoryManagerModal.repeats []
                (map (fun c => Str.toLowerCase (Category.name c)) categories))
      eqn:R1; [discriminate|].
    destruct (CategoryManagerModal.repeats []
                (map Category.color categories)) eqn:R2; [discriminate|].
    apply repeats_true_iff in R1, R2.
    split; [exact R1|]. split; [|exact R2].
    now apply (NoDup_map_weaken Category.name Str.toLowerCase).
  - intros Hne H1 H2. unfold CategoryManagerModal.handleSave.
    destruct (CategoryManagerModal.trimmedCategories definitions) as [|c r];
      [congruence|].
    cbn [length Nat.eqb].
    apply repeats_true_iff in H1, H2. now rewrite H1, H2.
Qed.

Lemma X15_accepted_categories_witness :
  NoDup (map Category.name
             (CategoryManagerModal.trimmedCategories
                [Category.mk " casa " "green"; Category.mk "  " "blue";
                 Category.mk "Sport" "red"]))
  /\ CategoryManagerModal.handleSave
       [Category.mk " casa " "green"; Category.mk "  " "blue";
        Category.mk "Sport" "red"] "vecchio errore"
     = ("", Some [Category.mk "casa" "green"; Category.mk "Sport" "red"]).
Proof.
  destruct (X15_accepted_categories
              [Category.mk " casa " "green"; Category.mk "  " "blue";
               Category.mk "Sport" "red"] "vecchio errore") as [H1 H2].
  split.
  - destruct (H1 [Category.mk "casa" "green"; Category.mk "Sport" "red"])
      as [E [_ [_ [_ [N _]]]]]; [reflexivity|].
    rewrite <- E. exact N.
  - apply H2; vm_compute.
    + discriminate.
    + repeat constructor; simpl; intuition discriminate.
    + repeat constructor; simpl; intuition discriminate.
Defined.

(** [categoryList]: the entries of the category map as definitions. *)
Definition categoryList (colorMap : Obj.t)
  : list Category.CategoryDefinition :=
  map (fun entry => Category.mk (fst entry) (snd entry)) colorMap.

Lemma get_put_same (o : Obj.t) (k v : string) :
  Obj.get (Obj.put o k v) k = Some v.
Proof.
  induction o as [|[k' v'] r IH]; simpl.
  - now rewrite String.eqb_refl.
  - destruct (String.eqb_spec k' k) as [E | N].
    + simpl. now rewrite String.eqb_refl.
    + destruct (Obj.arrayIndex k) as [i|];
        [destruct (Obj.arrayIndex k') as [j|]; [destruct (i <? j)|]|];
        simpl; rewrite ?String.eqb_refl; try reflexivity;
        destruct (String.eqb_spec k' k); try contradiction; exact IH.
Qed.

Lemma get_put_other (o : Obj.t) (k v k0 : string) :
  k0 <> k -> Obj.get (Obj.put o k v) k0 = Obj.get o k0.
Proof.
  intros Hne. induction o as [|[k' v'] r IH]; simpl.
  - destruct (String.eqb_spec k k0); [congruence | reflexivity].
  - destruct (String.eqb_spec k' k) as [E | N].
    + simpl. subst k'.
      destruct (String.eqb_spec k k0); [congruence | reflexivity].
    + destruct (Obj.arrayIndex k) as [i|];
        [destruct (Obj.arrayIndex k') as [j|]; [destruct (i <? j)|]|];
        simpl; destruct (String.eqb_spec k k0); try congruence;
        destruct (String.eqb_spec k' k0); try reflexivity; exact IH.
Qed.

Lemma put_perm (o : Obj.t) (k v : string) :
  ~ In k (Obj.keys o) -> Permutation (Obj.put o k v) ((k, v) :: o).
Proof.
  induction o as [|[k' v'] r IH]; simpl; intros Hout; [reflexivity|].
  destruct (String.eqb_spec k' k) as [E | N]; [exfalso; auto|].
  assert (R : Permutation ((k', v') :: Obj.put r k v)
                          ((k, v) :: (k', v') :: r)).
  { rewrite IH by tauto. apply perm_swap. }
  destruct (Obj.arrayIndex k) as [i|];
    [destruct (Obj.arrayIndex k') as [j|]; [destruct (i <? j)|]|];
    try reflexivity; exact R.
Qed.

Lemma set_put (o : Obj.t) (k v : string) :
  k <> "__proto__" -> Obj.set o k v = Obj.put o k v.
Proof.
  intros Hk. unfold Obj.set.
  destruct (String.eqb_spec k "__proto__"); [contradiction | reflexivity].
Qed.

Lemma get_set_other (o : Obj.t) (k v k0 : string) :
  k0 <> k -> Obj.get (Obj.set o k v) k0 = Obj.get o k0.
Proof.
  intros Hne. unfold Obj.set.
  destruct (_ && _); [reflexivity | now apply get_put_other].
Qed.

(** The map [handleSaveCategories] builds from the category list. *)
Definition nextMapOf (categories : list Category.CategoryDefinition)
           (acc : Obj.t) : Obj.t :=
  fold_left (fun acc category =>
               Obj.set acc (Category.name category) (Category.color category))
            categories acc.

Definition entryOf (c : Category.CategoryDefinition) : string * string :=
  (Category.name c, Category.color c).

Lemma nextMap_get_old (categories : list Category.CategoryDefinition)
      (acc : Obj.t) (k : string) :
  ~ In k (map Category.name categories) ->
  Obj.get (nextMapOf categories acc) k = Obj.get acc k.
Proof.
  revert acc. induction categories as [|c r IH]; intros acc Hout;
    [reflexivity|].
  simpl in *. rewrite IH by tauto.
  apply get_set_other. intros E. apply Hout. now left.
Qed.

Lemma nextMap_get (categories : list Category.CategoryDefinition)
      (acc : Obj.t) (c : Category.CategoryDefinition) :
  NoDup (map Category.name categories) ->
  ~ In "__proto__" (map Category.name categories) ->
  In c categories ->
  Obj.get (nextMapOf categories acc) (Category.name c)
  = Some (Category.color c).
Proof.
  revert acc. induction categories as [|x r IH]; intros acc Hnd Hp Hin;
    [contradiction|].
  inversion Hnd as [|? ? Hx Hr]; subst. simpl in Hp |- *.
  destruct Hin as [-> | Hin].
  - rewrite nextMap_get_old by exact Hx.
    rewrite set_put by (intros E; apply Hp; now left).
    apply get_put_same.
  - apply IH; auto.
Qed.

Lemma nextMap_perm (categories : list Category.CategoryDefinition)
      (acc : Obj.t) :
  NoDup (map Category.name categories) ->
  ~ In "__proto__" (map Category.name categories) ->
  (forall c, In c categories -> ~ In (Category.name c) (Obj.keys acc)) ->
  Permutation (nextMapOf categories acc) (map entryOf categories ++ acc).
Proof.
  revert acc. induction categories as [|x r IH]; intros acc Hnd Hp Hout;
    [reflexivity|].
  inversion Hnd as [|? ? Hx Hr]; subst. simpl in Hp |- *.
  assert (P : Permutation (Obj.set acc (Category.name x) (Category.color x))
                          (entryOf x :: acc)).
  { rewrite set_put by (intros E; apply Hp; now left).
    apply put_perm. apply Hout. now left. }
  rewrite IH.
  - rewrite P. symmetry. apply Permutation_middle.
  - exact Hr.
  - tauto.
  - intros c Hc Hin.
    apply (Permutation_in _ (Permutation_map fst P)) in Hin.
    destruct Hin as [E | Hin].
    + apply Hx. simpl in E. rewrite E. now apply in_map.
    + apply (Hout c); [now right | exact Hin].
Qed.

Lemma setCategories_accepted
      (definitions categories : list Category.CategoryDefinition)
      (error : string) (st : AppState) :
  snd (CategoryManagerModal.handleSave definitions error) = Some categories ->
  NoDup (map Category.name categories)
  /\ categories <> []
  /\ snd (setCategories definitions error st)
     = mkApp
         (map (fun event =>
                 if existsb (String.eqb (color event))
                            (map Category.color categories)
                 then event
                 else recolor event (fallbackOf categories))
              (events st))
         (nextMapOf categories [])
         (match activeFilter st with
          | Some f =>
              if Str.truthy f
                 && negb (existsb (String.eqb f)
                                  (map Category.color categories))
              then None else Some f
          | None => None
          end).
Proof.
  intros H. destruct (handleSave_accepts _ _ _ H) as [E [Ec Hne]].
  split.
  { unfold CategoryManagerModal.handleSave in E. rewrite <- Ec in E.
    destruct (length categories =? 0)%nat; [discriminate|].
    destruct (CategoryManagerModal.repeats []
                (map (fun c => Str.toLowerCase (Category.name c)) categories))
      eqn:R1; [discriminate|].
    apply repeats_true_iff in R1.
    now apply (NoDup_map_weaken Category.name Str.toLowerCase). }
  split; [exact Hne|].
  unfold setCategories. rewrite E. cbn [snd]. unfold handleSaveCategories.
  destruct categories as [|c r]; [congruence|]. reflexivity.
Qed.

(** X16: after an accepted category save in which no category is named
    [__proto__], every event has the color of a category of the new
    category map, whatever colors the events had before, and the active
    filter, when one is left, is the color of a category of the new
    map. *)
Theorem X16_save_establishes_live_colors
        (definitions categories : list Category.CategoryDefinition)
        (error : string) (st : AppState) :
  snd (CategoryManagerModal.handleSave definitions error) = Some categories ->
  ~ In "__proto__" (map Category.name categories) ->
  Forall (fun e => liveColor (colorMap (snd (setCategories definitions error st)))
                             e = true)
         (events (snd (setCategories definitions error st)))
  /\ (forall f,
         activeFilter (snd (setCategories definitions error st)) = Some f ->
         f <> "" ->
         In f (Obj.values (colorMap (snd (setCategories definitions error st))))).
Proof.
  intros H Hp.
  destruct (setCategories_accepted definitions categories error st H)
    as [Hnd [Hne ->]].
  cbn [events colorMap activeFilter].
  assert (Live : forall c, In c (map Category.color categories) ->
                           In c (Obj.values (nextMapOf categories []))).
  { intros c Hc. apply in_map_iff in Hc. destruct Hc as [d [<- Hd]].
    apply (get_value _ (Category.name d)). now apply nextMap_get. }
  split.
  - apply Forall_forall. intros e He.
    apply in_map_iff in He. destruct He as [e0 [<- _]].
    unfold liveColor. apply existsb_eqb. apply Live.
    destruct (existsb (String.eqb (color e0))
                      (map Category.color categories)) eqn:X.
    + now apply existsb_eqb in X.
    + cbn [recolor color]. destruct categories as [|c r]; [congruence|].
      now left.
  - intros f Hf Hnz. apply Live.
    destruct (activeFilter st) as [g|]; [|discriminate].
    apply truthy_true in Hnz.
    destruct (Str.truthy g
              && negb (existsb (String.eqb g)
                               (map Category.color categories))) eqn:X;
      [discriminate|].
    injection Hf as ->. rewrite Hnz in X. cbn [andb] in X.
    apply negb_false_iff in X. now apply existsb_eqb in X.
Qed.

Lemma X16_save_establishes_live_colors_witness :
  Forall (fun e =>
            liveColor
              (colorMap (snd (setCategories [Category.mk "casa" "green"] ""
                                            sampleApp))) e = true)
         (events (snd (setCategories [Category.mk "casa" "green"] ""
                                     sampleApp))).
Proof.
  destruct (X16_save_establishes_live_colors
              [Category.mk "casa" "green"] [Category.mk "casa" "green"] ""
              sampleApp) as [H _];
    [reflexivity | simpl; intuition discriminate | exact H].
Defined.

(** A category named [__proto__] passes the checks of the manager and is
    not written to the new map: the assignment [acc["__proto__"] = color]
    creates no property. *)
Lemma proto_category_is_dropped :
  let saved := [Category.mk "casa" "green"; Category.mk "__proto__" "red"] in
  snd (CategoryManagerModal.handleSave saved "") = Some saved
  /\ colorMap (snd (setCategories saved "" sampleApp)) = [("casa", "green")].
Proof. cbv zeta. split; vm_compute; reflexivity. Qed.

(** X17: an accepted category save in which no category is named
    [__proto__] replaces the category map: the new map gives every saved
    category its color under its name, has no other key, whatever the old
    map held, and read back as a category list it has the saved
    categories, each once. *)
Theorem X17_saved_map_round_trip
        (definitions categories : list Category.CategoryDefinition)
        (error : string) (st : AppState) :
  snd (CategoryManagerModal.handleSave definitions error) = Some categories ->
  ~ In "__proto__" (map Category.name categories) ->
  (forall c, In c categories ->
             Obj.get (colorMap (snd (setCategories definitions error st)))
                     (Category.name c)
             = Some (Category.color c))
  /\ (forall k, ~ In k (map Category.name categories) ->
                Obj.get (colorMap (snd (setCategories definitions error st))) k
                = None)
  /\ Permutation
       (categoryList (colorMap (snd (setCategories definitions error st))))
       categories.
Proof.
  intros H Hp.
  destruct (setCategories_accepted definitions categories error st H)
    as [Hnd [Hne ->]].
  cbn [colorMap]. split; [|split].
  - intros c Hc. now apply nextMap_get.
  - intros k Hk. now rewrite nextMap_get_old.
  - unfold categoryList.
    rewrite (Permutation_map _ (nextMap_perm categories [] Hnd Hp
                                             (fun _ _ F => F))).
    rewrite app_nil_r, map_map.
    rewrite (map_ext _ (fun c => c)); [now rewrite map_id|].
    intros [n c]. reflexivity.
Qed.

Lemma X17_saved_map_round_trip_witness :
  Permutation
    (categoryList
       (colorMap (snd (setCategories
                         [Category.mk "casa" "green"; Category.mk "7" "red"]
                         "" sampleApp))))
    [Category.mk "casa" "green"; Category.mk "7" "red"].
Proof.
  destruct (X17_saved_map_round_trip
              [Category.mk "casa" "green"; Category.mk "7" "red"]
              [Category.mk "casa" "green"; Category.mk "7" "red"]
              "" sampleApp) as [_ [_ H]];
    [reflexivity | simpl; intuition discriminate | exact H].
Defined.

(** * The event form: opening, todos *)

Module Slot.
Record SelectedSlot : Type := mk {
  date : Date;
  hour : Z
}.
End Slot.

(** [s.padStart(targetLength, c)] with a one-unit pad. *)
Fixpoint fill (n : nat) (c : ascii) (s : string) : string :=
  match n with
  | O => s
  | S m => String c (fill m c s)
  end.

Definition padStart (targetLength : nat) (c : ascii) (s : string) : string :=
  fill (targetLength - String.length s) c s.

(** The effect that fills the form when it opens: from the event being
    edited, else from the selected slot; the error is cleared in every
    case. *)
Definition modalOpened (event : option Event)
           (selectedSlot : option Slot.SelectedSlot) (s : EventModal.State)
  : EventModal.State :=
  match event with
  | Some ev =>
      EventModal.mkState (title ev) (Str.orElse (description ev) "")
                         (date ev) (startTime ev) (endTime ev) (color ev)
                         (todos ev) ""
  | None =>
      match selectedSlot with
      | Some slot =>
          let startHour :=
            padStart 2 "0" (Host.toString 10 (Slot.hour slot)) in
          let endHour :=
            padStart 2 "0" (Host.toString 10 (Slot.hour slot + 1)) in
          EventModal.mkState "" "" (Slot.date slot)
                             (startHour ++ ":00") (endHour ++ ":00")
                             "blue" [] ""
      | None => EventModal.setError s ""
      end
  end.

(** [handleAddTodo] on the todos and the text being typed. *)
Definition handleAddTodo (todos : list ToDo.ToDoItem) (newTodoText : string)
  : Host.M (list ToDo.ToDoItem * string) :=
  if Str.truthy (Str.trim newTodoText) then
    n <- Host.Date_now ;;
    Host.ret ((todos ++ [ToDo.mk (Host.toString 10 n) newTodoText false])%list,
              "")
  else Host.ret (todos, newTodoText).

Definition handleToggleTodo (i : string) (todos : list ToDo.ToDoItem)
  : list ToDo.ToDoItem :=
  map (fun todo =>
         if (ToDo.id todo =? i)%string
         then ToDo.mk (ToDo.id todo) (ToDo.text todo)
                      (negb (ToDo.completed todo))
         else todo) todos.

Definition handleDeleteTodo (i : string) (todos : list ToDo.ToDoItem)
  : list ToDo.ToDoItem :=
  filter (fun todo => negb (ToDo.id todo =? i)%string) todos.

Definition withTitle (s : EventModal.State) (t : string) : EventModal.State :=
  EventModal.mkState t (EventModal.description s) (EventModal.date s)
                     (EventModal.startTime s) (EventModal.endTime s)
                     (EventModal.color s) (EventModal.todos s)
                     (EventModal.error s).

Definition checkSlot (h : Z) : bool :=
  let s := modalOpened None (Some (Slot.mk 0 h))
                       (EventModal.mkState "" "" 0 "" "" "" [] "") in
  (EventModal.startTime s =? hhmm h 0)%string
  && (EventModal.endTime s =? hhmm (h + 1) 0)%string
  && negb (Str.geb (EventModal.startTime s) (EventModal.endTime s))
  && Num.seq (Num.sub (timeToMinutes (EventModal.endTime s))
                      (timeToMinutes (EventModal.startTime s)))
             (Fin 60).

Lemma checkSlot_all : forallb checkSlot (upTo 24) = true.
Proof. vm_compute. reflexivity. Qed.

(** X18: a form opened from a slot of the grid, hour 0 to 23, proposes
    the hour of the slot and the next one, written HH:00; the two times
    pass the validation of the form and are sixty minutes apart, also
    for hour 23, whose end is 24:00; once a title is typed, the save
    goes through with these times. *)
Theorem X18_slot_defaults (slot : Slot.SelectedSlot) (s0 : EventModal.State)
        (t : string) :
  0 <= Slot.hour slot <= 23 ->
  Str.trim t <> "" ->
  let s := modalOpened None (Some slot) s0 in
  EventModal.startTime s = hhmm (Slot.hour slot) 0
  /\ EventModal.endTime s = hhmm (Slot.hour slot + 1) 0
  /\ Num.eqv (Num.sub (timeToMinutes (EventModal.endTime s))
                      (timeToMinutes (EventModal.startTime s)))
             (Fin 60)
  /\ EventModal.handleSave None (withTitle s t)
     = (withTitle s t,
        Some (Draft.mk None t (Some "") (Slot.date slot)
                       (hhmm (Slot.hour slot) 0)
                       (hhmm (Slot.hour slot + 1) 0) "blue" [])).
Proof.
  intros Hh Ht. cbv zeta.
  pose proof checkSlot_all as A. rewrite forallb_forall in A.
  assert (R : 0 <= Slot.hour slot < Z.of_nat 24) by (simpl; lia).
  specialize (A (Slot.hour slot) (In_upTo 24 _ R)). clear R.
  unfold checkSlot in A. unfold modalOpened in *.
  cbn [Slot.hour Slot.date EventModal.startTime EventModal.endTime] in *.
  apply andb_prop in A. destruct A as [A A4].
  apply andb_prop in A. destruct A as [A A3].
  apply andb_prop in A. destruct A as [A1 A2].
  apply String.eqb_eq in A1, A2. apply negb_true_iff in A3.
  rewrite A1, A2 in *.
  split; [reflexivity|]. split; [reflexivity|].
  split; [now apply seq_eqv|].
  unfold EventModal.handleSave, withTitle.
  cbn [EventModal.title EventModal.startTime EventModal.endTime
       EventModal.description EventModal.date EventModal.color
       EventModal.todos EventModal.error].
  apply truthy_true in Ht. rewrite Ht, A3. reflexivity.
Qed.

Lemma X18_slot_defaults_witness :
  EventModal.endTime
    (modalOpened None (Some (Slot.mk 0 23))
                 (EventModal.mkState "" "" 0 "" "" "" [] ""))
  = "24:00".
Proof.
  destruct (X18_slot_defaults (Slot.mk 0 23)
              (EventModal.mkState "" "" 0 "" "" "" [] "") "Cena")
    as [_ [H _]]; [simpl; lia | discriminate |].
  exact H.
Defined.

Lemma map_fixed {A : Type} (f : A -> A) (l : list A) :
  (forall x, In x l -> f x = x) -> map f l = l.
Proof.
  induction l as [|x r IH]; intros H; simpl; [reflexivity|].
  rewrite (H x) by now left. f_equal. apply IH.
  intros y Hy. apply H. now right.
Qed.

(** X19: opening the form on an event of the collection and saving
    without touching a field leaves the collection and the host as they
    were, when the ids are pairwise distinct and the event has a
    non-empty id, a title that is not blank, a description and a start
    before its end as strings. *)
Theorem X19_edit_unchanged (e : Event) (prevEvents : list Event)
        (selectedSlot : option Slot.SelectedSlot) (s0 : EventModal.State)
        (w : Host.World) :
  NoDup (map id prevEvents) -> In e prevEvents ->
  id e <> "" -> Str.trim (title e) <> "" ->
  description e <> None ->
  Str.geb (startTime e) (endTime e) = false ->
  saveFromModal (Some e) (modalOpened (Some e) selectedSlot s0) prevEvents w
  = ((modalOpened (Some e) selectedSlot s0, prevEvents), w).
Proof.
  intros Hnd Hin Hid Ht Hd Hg.
  unfold saveFromModal, EventModal.handleSave, modalOpened.
  cbn [EventModal.title EventModal.startTime EventModal.endTime
       EventModal.description EventModal.date EventModal.color
       EventModal.todos option_map].
  apply truthy_true in Ht. rewrite Ht, Hg. cbn [negb].
  unfold handleSaveEvent. cbn [Draft.id Str.present Str.orElse].
  pose proof Hid as T. apply truthy_true in T. rewrite T.
  assert (X : existsb (fun x => (id x =? id e)%string) prevEvents = true).
  { apply existsb_exists. exists e. split; [exact Hin|].
    apply String.eqb_refl. }
  rewrite X. cbn [andb]. unfold Host.bind, Host.ret.
  rewrite map_fixed; [reflexivity|].
  intros x Hx. destruct (String.eqb_spec (id x) (id e)) as [E|];
    [|reflexivity].
  assert (x = e) by (apply (ids_injective prevEvents); auto). subst x.
  unfold mergeEvent. cbn [Draft.id Draft.title Draft.description Draft.date
                          Draft.startTime Draft.endTime Draft.color
                          Draft.todos].
  destruct e as [i ti de da st en co to]. cbn in *.
  destruct de as [d|]; [|congruence].
  cbn. destruct (Str.truthy d) eqn:Td; [reflexivity|].
  apply truthy_false in Td. now subst d.
Qed.

Lemma X19_edit_unchanged_witness :
  let e := mkEvent "m" "Pranzo" (Some "") 0 "12:30" "13:30" "yellow" [] in
  fst (fst (saveFromModal (Some e)
              (modalOpened (Some e) None
                           (EventModal.mkState "" "" 0 "" "" "" [] ""))
              [evA; e] sampleWorld))
  = modalOpened (Some e) None (EventModal.mkState "" "" 0 "" "" "" [] "")
  /\ snd (fst (saveFromModal (Some e)
                 (modalOpened (Some e) None
                              (EventModal.mkState "" "" 0 "" "" "" [] ""))
                 [evA; e] sampleWorld))
     = [evA; e].
Proof.
  cbv zeta.
  rewrite (X19_edit_unchanged
             (mkEvent "m" "Pranzo" (Some "") 0 "12:30" "13:30" "yellow" [])
             [evA; mkEvent "m" "Pranzo" (Some "") 0 "12:30" "13:30"
                           "yellow" []]
             None (EventModal.mkState "" "" 0 "" "" "" [] "") sampleWorld).
  - split; reflexivity.
  - repeat constructor; simpl; intuition discriminate.
  - simpl. auto.
  - discriminate.
  - vm_compute. discriminate.
  - discriminate.
  - vm_compute. reflexivity.
Defined.

(** X20: ticking a todo twice gives back the list as it was; one tick
    keeps the number, the order, the ids and the texts of the todos,
    flips the todos with the given id and no other. *)
Theorem X20_toggle_todo (i : string) (todos : list ToDo.ToDoItem) :
  handleToggleTodo i (handleToggleTodo i todos) = todos
  /\ map ToDo.id (handleToggleTodo i todos) = map ToDo.id todos
  /\ map ToDo.text (handleToggleTodo i todos) = map ToDo.text todos
  /\ forall k t,
      nth_error todos k = Some t ->
      exists t',
        nth_error (handleToggleTodo i todos) k = Some t'
        /\ (ToDo.id t = i -> ToDo.completed t' = negb (ToDo.completed t))
        /\ (ToDo.id t <> i -> t' = t).
Proof.
  unfold handleToggleTodo. split; [|split; [|split]].
  - rewrite map_map. apply map_fixed. intros [j x c] _. cbn.
    destruct (String.eqb_spec j i) as [E|N]; cbn.
    + destruct (String.eqb_spec j i); [|contradiction].
      now rewrite negb_involutive.
    + now destruct (String.eqb_spec j i).
  - rewrite map_map. apply map_ext. intros t.
    now destruct (ToDo.id t =? i)%string.
  - rewrite map_map. apply map_ext. intros t.
    now destruct (ToDo.id t =? i)%string.
  - intros k t Hk. rewrite nth_error_map, Hk. cbn [option_map].
    eexists. split; [reflexivity|]. split.
    + intros ->. now rewrite String.eqb_refl.
    + intros N. apply String.eqb_neq in N. now rewrite N.
Qed.

(** X21: adding a todo with a blank text changes nothing and does not
    read the clock; otherwise the todo is appended, not completed, with
    the text as typed and the clock reading as id, and the text field is
    cleared; deleting that id then gives back the todos as they were,
    when no todo had that id. *)
Theorem X21_add_then_delete_todo (todos : list ToDo.ToDoItem)
        (newTodoText : string) (w : Host.World) :
  (Str.trim newTodoText = "" ->
   handleAddTodo todos newTodoText w = ((todos, newTodoText), w))
  /\ (Str.trim newTodoText <> "" ->
      handleAddTodo todos newTodoText w
      = (((todos ++ [ToDo.mk (Host.toString 10 (Host.nowAt w (Host.reads w)))
                             newTodoText false])%list, ""),
         Host.tick w)
      /\ (~ In (Host.toString 10 (Host.nowAt w (Host.reads w)))
               (map ToDo.id todos) ->
          handleDeleteTodo (Host.toString 10 (Host.nowAt w (Host.reads w)))
                           (fst (fst (handleAddTodo todos newTodoText w)))
          = todos)).
Proof.
  unfold handleAddTodo. split.
  - intros E. apply truthy_false in E. now rewrite E.
  - intros N. apply truthy_true in N. rewrite N.
    unfold Host.bind, Host.Date_now, Host.ret. split; [reflexivity|].
    intros Hfresh. cbn [fst]. unfold handleDeleteTodo.
    rewrite filter_app. cbn [filter ToDo.id].
    rewrite String.eqb_refl. cbn [negb]. rewrite app_nil_r.
    apply filter_all. intros t Ht.
    apply negb_true_iff, String.eqb_neq. intros E.
    apply Hfresh. rewrite <- E. now apply in_map.
Qed.

Lemma X21_add_then_delete_todo_witness :
  handleAddTodo [ToDo.mk "t1" "pane" false] "   " sampleWorld
  = (([ToDo.mk "t1" "pane" false], "   "), sampleWorld)
  /\ handleDeleteTodo "1714521600000"
       (fst (fst (handleAddTodo [ToDo.mk "t1" "pane" false] " latte"
                                sampleWorld)))
     = [ToDo.mk "t1" "pane" false].
Proof.
  split.
  - destruct (X21_add_then_delete_todo [ToDo.mk "t1" "pane" false] "   "
                                       sampleWorld) as [H _].
    apply H. vm_compute. reflexivity.
  - destruct (X21_add_then_delete_todo [ToDo.mk "t1" "pane" false] " latte"
                                       sampleWorld) as [_ H].
    destruct H as [_ H]; [vm_compute; discriminate|].
    apply H. vm_compute. intros [E | []]. discriminate.
Defined.

Lemma X20_toggle_todo_witness :
  exists t',
    nth_error (handleToggleTodo "t1" [ToDo.mk "t1" "pane" false;
                                     ToDo.mk "t2" "latte" false]) 0
    = Some t'
    /\ ToDo.completed t' = true.
Proof.
  destruct (X20_toggle_todo "t1" [ToDo.mk "t1" "pane" false;
                                  ToDo.mk "t2" "latte" false])
    as [_ [_ [_ H]]].
  destruct (H 0%nat (ToDo.mk "t1" "pane" false) eq_refl) as [t' [E [C _]]].
  exists t'. split; [exact E | now apply C].
Defined.

(** * The category manager: rows *)

(** [handleAddCategory]: a row with an empty name and the first palette
    color no row uses, else the first palette color, else blue. *)
Definition handleAddCategory (availableColors : list string)
           (localCategories : list Category.CategoryDefinition)
  : list Category.CategoryDefinition :=
  let unusedColor :=
    find (fun color =>
            negb (existsb (fun category =>
                             (Category.color category =? color)%string)
                          localCategories))
         availableColors in
  (localCategories ++
     [Category.mk ""
        (Str.orElse unusedColor
                    (Str.orElse (nth_error availableColors 0) "blue"))])%list.

(** [l.filter((_, i) => i !== index)], counting from [i]. *)
Fixpoint dropIndex {A : Type} (index i : nat) (l : list A) : list A :=
  match l with
  | [] => []
  | x :: r =>
      if Nat.eqb i index then dropIndex index (S i) r
      else x :: dropIndex index (S i) r
  end.

Definition handleDeleteCategory (index : nat)
           (localCategories : list Category.CategoryDefinition)
  : list Category.CategoryDefinition :=
  dropIndex index 0 localCategories.

Lemma find_unused (palette used : list string) :
  NoDup palette -> (length used < length palette)%nat ->
  exists c,
    find (fun color => negb (existsb (String.eqb color) used)) palette
    = Some c
    /\ In c palette /\ ~ In c used.
Proof.
  intros Hnd Hlen.
  destruct (find (fun color => negb (existsb (String.eqb color) used))
                 palette) as [c|] eqn:F.
  - exists c. apply find_some in F. destruct F as [Hin Hc].
    repeat split; auto.
    apply negb_true_iff in Hc. intros Hu.
    apply existsb_eqb in Hu. congruence.
  - exfalso.
    assert (Incl : incl palette used).
    { intros c Hc. pose proof (find_none _ _ F c Hc) as N.
      apply negb_false_iff in N. now apply existsb_eqb in N. }
    pose proof (NoDup_incl_length Hnd Incl). lia.
Qed.

Lemma find_same {A : Type} (f g : A -> bool) (l : list A) :
  (forall x, f x = g x) -> find f l = find g l.
Proof.
  intros H. induction l as [|x r IH]; simpl; [reflexivity|].
  now rewrite H, IH.
Qed.

Lemma existsb_color (localCategories : list Category.CategoryDefinition)
      (color : string) :
  existsb (fun category => (Category.color category =? color)%string)
          localCategories
  = existsb (String.eqb color) (map Category.color localCategories).
Proof.
  induction localCategories as [|c r IH]; [reflexivity|].
  simpl. now rewrite IH, (String.eqb_sym color).
Qed.

(** X22: while the manager has fewer rows than the palette has colors,
    the palette colors being non-empty and pairwise distinct, a new row
    gets an empty name and a palette color that no row uses, so rows
    with pairwise distinct colors keep pairwise distinct colors. *)
Theorem X22_add_category_unused_color (availableColors : list string)
        (localCategories : list Category.CategoryDefinition) :
  NoDup availableColors ->
  Forall (fun c => c <> "") availableColors ->
  (length localCategories < length availableColors)%nat ->
  exists c,
    handleAddCategory availableColors localCategories
    = (localCategories ++ [Category.mk "" c])%list
    /\ In c availableColors
    /\ ~ In c (map Category.color localCategories)
    /\ (NoDup (map Category.color localCategories) ->
        NoDup (map Category.color
                   (handleAddCategory availableColors localCategories))).
Proof.
  intros Hnd Hne Hlen.
  destruct (find_unused availableColors (map Category.color localCategories)
                        Hnd) as [c [F [Hin Hout]]];
    [now rewrite length_map|].
  assert (E : handleAddCategory availableColors localCategories
              = (localCategories ++ [Category.mk "" c])%list).
  { unfold handleAddCategory.
    rewrite (find_same _ (fun color =>
                            negb (existsb (String.eqb color)
                                          (map Category.color localCategories))))
      by (intros x; now rewrite existsb_color).
    rewrite F. cbn [Str.orElse].
    rewrite Forall_forall in Hne. specialize (Hne c Hin).
    apply truthy_true in Hne. now rewrite Hne. }
  exists c. split; [exact E|]. split; [exact Hin|]. split; [exact Hout|].
  intros Hc. rewrite E, map_app. cbn [map Category.color].
  apply NoDup_app; [exact Hc | repeat constructor; intros [] |].
  intros x Hx [<- | []]. contradiction.
Qed.

Lemma X22_add_category_unused_color_witness :
  exists c,
    handleAddCategory AVAILABLE_COLORS (categoryList initialCategoryMap)
    = (categoryList initialCategoryMap ++ [Category.mk "" c])%list
    /\ ~ In c (map Category.color (categoryList initialCategoryMap)).
Proof.
  destruct (X22_add_category_unused_color AVAILABLE_COLORS
              (categoryList initialCategoryMap)) as [c [E [_ [N _]]]].
  - repeat constructor; simpl; intuition discriminate.
  - repeat constructor; discriminate.
  - simpl. lia.
  - exists c. split; [exact E | exact N].
Defined.

Lemma dropIndex_spec {A : Type} (l : list A) (index i : nat) :
  (i <= index)%nat ->
  dropIndex index i l = (firstn (index - i) l ++ skipn (S (index - i)) l)%list.
Proof.
  revert i. induction l as [|x r IH]; intros i Hi.
  - simpl. now destruct (index - i)%nat.
  - cbn [dropIndex]. destruct (Nat.eqb_spec i index) as [E | N].
    + subst i. rewrite Nat.sub_diag. cbn [firstn skipn app].
      clear IH Hi. generalize (S index) (Nat.lt_succ_diag_r index).
      intros j Hj. revert j Hj.
      induction r as [|y r IH]; intros j Hj; [reflexivity|].
      cbn [dropIndex]. destruct (Nat.eqb_spec j index); [lia|].
      f_equal. apply IH. lia.
    + replace (index - i)%nat with (S (index - S i)) by lia.
      cbn [firstn skipn app]. f_equal.
      rewrite IH by lia. reflexivity.
Qed.

(** X23: deleting row [index] removes that row and no other and keeps
    the order of the rest; an index past the last row removes nothing;
    deleting the row just added gives back the rows as they were. *)
Theorem X23_delete_category (availableColors : list string)
        (localCategories : list Category.CategoryDefinition) (index : nat) :
  handleDeleteCategory index localCategories
  = (firstn index localCategories ++ skipn (S index) localCategories)%list
  /\ ((length localCategories <= index)%nat ->
      handleDeleteCategory index localCategories = localCategories)
  /\ ((index < length localCategories)%nat ->
      S (length (handleDeleteCategory index localCategories))
      = length localCategories)
  /\ handleDeleteCategory (length localCategories)
       (handleAddCategory availableColors localCategories)
     = localCategories.
Proof.
  assert (E : forall l : list Category.CategoryDefinition,
             handleDeleteCategory index l
             = (firstn index l ++ skipn (S index) l)%list).
  { intros l. unfold handleDeleteCategory.
    rewrite dropIndex_spec by lia. now rewrite Nat.sub_0_r. }
  split; [apply E|]. split; [|split].
  - intros H. rewrite E, firstn_all2 by exact H.
    rewrite skipn_all2 by lia. apply app_nil_r.
  - intros H. rewrite E, length_app, length_firstn, length_skipn. lia.
  - unfold handleDeleteCategory, handleAddCategory.
    rewrite dropIndex_spec by lia. rewrite Nat.sub_0_r.
    rewrite firstn_app, Nat.sub_diag, firstn_all. cbn [firstn].
    rewrite skipn_all2 by (rewrite length_app; simpl; lia).
    now rewrite !app_nil_r.
Qed.

Lemma X23_delete_category_witness :
  handleDeleteCategory 5 (categoryList [("casa", "green"); ("sport", "red")])
  = categoryList [("casa", "green"); ("sport", "red")]
  /\ S (length (handleDeleteCategory 0
                  (categoryList [("casa", "green"); ("sport", "red")])))
     = 2%nat.
Proof.
  destruct (X23_delete_category AVAILABLE_COLORS
              (categoryList [("casa", "green"); ("sport", "red")]) 5)
    as [_ [H _]].
  destruct (X23_delete_category AVAILABLE_COLORS
              (categoryList [("casa", "green"); ("sport", "red")]) 0)
    as [_ [_ [H' _]]].
  split; [apply H; simpl; lia | apply H'; simpl; lia].
Defined.

(** * Category names and colors in the grid and for the assistant *)

(** [getCategoryFromColor] of [CalendarGrid]: the first key of the map
    whose color is the given one, or the empty string. *)
Definition getCategoryFromColor (colorMap : Obj.t) (color : string)
  : string :=
  Str.orElse
    (find (fun key =>
             match Obj.get colorMap key with
             | Some v => (v =? color)%string
             | None => false
             end)
          (Obj.keys colorMap))
    "".

(** The [category] field of an event in [serializedEvents] of
    [AssistantChat]: the name of the first entry of the map with the
    color of the event, or that color itself. *)
Definition serializedCategory (colorMap : Obj.t) (event : Event) : string :=
  match find (fun entry => (snd entry =? color event)%string) colorMap with
  | Some entry => fst entry
  | None => color event
  end.

Lemma In_get (o : Obj.t) (k v : string) :
  NoDup (Obj.keys o) -> In (k, v) o -> Obj.get o k = Some v.
Proof.
  induction o as [|[k' v'] r IH]; simpl; intros Hnd Hin; [contradiction|].
  inversion Hnd as [|? ? Hk Hr]; subst.
  destruct Hin as [[= -> ->] | Hin].
  - now rewrite String.eqb_refl.
  - destruct (String.eqb_spec k' k) as [E|]; [|auto].
    exfalso. apply Hk. subst k'.
    apply in_map_iff. now exists (k, v).
Qed.

Lemma value_names_once (o : Obj.t) (a b c : string) :
  NoDup (Obj.values o) -> In (a, c) o -> In (b, c) o -> a = b.
Proof.
  induction o as [|[k v] r IH]; simpl; intros Hnd Ha Hb; [contradiction|].
  inversion Hnd as [|? ? Hv Hr]; subst.
  assert (Out : forall x, In (x, c) r -> v <> c).
  { intros x Hx E. apply Hv. subst v.
    apply in_map_iff. now exists (x, c). }
  destruct Ha as [Ea | Ha], Hb as [Eb | Hb]; auto.
  - congruence.
  - exfalso. apply (Out b Hb). congruence.
  - exfalso. apply (Out a Ha). congruence.
Qed.

(** X24: in a category map with pairwise distinct colors, the name the
    grid shows for the color of a category is the name of that category,
    when the name is not empty; for a color no category has the grid
    shows the empty string. *)
Theorem X24_category_of_color (colorMap : Obj.t) :
  NoDup (Obj.keys colorMap) ->
  (NoDup (Obj.values colorMap) ->
   forall n c, In (n, c) colorMap -> n <> "" ->
               getCategoryFromColor colorMap c = n)
  /\ (forall c, ~ In c (Obj.values colorMap) ->
                getCategoryFromColor colorMap c = "").
Proof.
  intros Hk. unfold getCategoryFromColor. split.
  - intros Hv n c Hin Hn.
    destruct (find _ (Obj.keys colorMap)) as [k|] eqn:F.
    + apply find_some in F. destruct F as [_ Fk].
      destruct (Obj.get colorMap k) as [v|] eqn:G; [|discriminate].
      apply String.eqb_eq in Fk. subst v. apply get_In in G.
      rewrite (value_names_once colorMap k n c Hv G Hin).
      cbn [Str.orElse]. apply truthy_true in Hn. now rewrite Hn.
    + exfalso.
      assert (Kn : In n (Obj.keys colorMap)).
      { apply in_map_iff. now exists (n, c). }
      pose proof (find_none _ _ F n Kn) as N. cbn beta in N.
      rewrite (In_get colorMap n c Hk Hin), String.eqb_refl in N.
      discriminate.
  - intros c Hout.
    destruct (find _ (Obj.keys colorMap)) as [k|] eqn:F; [|reflexivity].
    exfalso. apply find_some in F. destruct F as [_ Fk].
    destruct (Obj.get colorMap k) as [v|] eqn:G; [|discriminate].
    apply String.eqb_eq in Fk. subst v.
    apply Hout. now apply (get_value colorMap k).
Qed.

Lemma X24_category_of_color_witness :
  getCategoryFromColor initialCategoryMap "red" = "scuola"
  /\ getCategoryFromColor initialCategoryMap "teal" = "".
Proof.
  destruct (X24_category_of_color initialCategoryMap) as [H1 H2].
  - repeat constructor; simpl; intuition discriminate.
  - split.
    + apply H1; [|simpl; auto | discriminate].
      repeat constructor; simpl; intuition discriminate.
    + apply H2. simpl. intuition discriminate.
Defined.

(** X25: what the assistant is told about an event comes back as the
    same color: in a category map with pairwise distinct names, all
    names and colors non-empty, the category written for an event whose
    color is the color of a category resolves, in a payload without a
    color, to the color of the event; for an event whose color no
    category has, the category written is the color itself. *)
Theorem X25_category_round_trip (colorMap : Obj.t) (event : Event)
        (input : Input.AssistantEventInput) :
  NoDup (Obj.keys colorMap) ->
  categoriesWellFormed colorMap = true ->
  Input.color input = None ->
  Input.category input = Some (serializedCategory colorMap event) ->
  (liveColor colorMap event = true ->
   resolveEventColor input colorMap = color event)
  /\ (liveColor colorMap event = false ->
      serializedCategory colorMap event = color event).
Proof.
  intros Hk WF Ec Ecat. split.
  - intros Live. unfold resolveEventColor. rewrite Ec, Ecat.
    cbn [Str.present andb].
    unfold serializedCategory.
    destruct (find (fun entry => (snd entry =? color event)%string) colorMap)
      as [[n c]|] eqn:F.
    + apply find_some in F. destruct F as [Hin Hc]. cbn in Hc.
      apply String.eqb_eq in Hc. subst c. cbn [fst].
      destruct (wellFormed_entry colorMap n (color event) WF Hin) as [Hn Hv].
      rewrite (In_get colorMap n (color event) Hk Hin).
      apply truthy_true in Hn, Hv. cbn [Str.present Str.orElse].
      now rewrite Hn, Hv.
    + exfalso. unfold liveColor in Live. apply existsb_eqb in Live.
      unfold Obj.values in Live. apply in_map_iff in Live.
      destruct Live as [[n c] [E Hin]]. cbn in E. subst c.
      pose proof (find_none _ _ F (n, color event) Hin) as N.
      cbn in N. now rewrite String.eqb_refl in N.
  - intros Dead. unfold serializedCategory.
    destruct (find (fun entry => (snd entry =? color event)%string) colorMap)
      as [[n c]|] eqn:F; [|reflexivity].
    exfalso. apply find_some in F. destruct F as [Hin Hc]. cbn in Hc.
    apply String.eqb_eq in Hc. subst c.
    unfold liveColor in Dead.
    assert (L : existsb (String.eqb (color event)) (Obj.values colorMap)
                = true).
    { apply existsb_eqb. apply in_map_iff. now exists (n, color event). }
    congruence.
Qed.

Lemma X25_category_round_trip_witness :
  resolveEventColor
    (Input.mk (Some "a") None None None None None None
              (Some (serializedCategory initialCategoryMap evA)) None)
    initialCategoryMap
  = color evA.
Proof.
  destruct (X25_category_round_trip initialCategoryMap evA
              (Input.mk (Some "a") None None None None None None
                        (Some (serializedCategory initialCategoryMap evA))
                        None)) as [H _].
  - repeat constructor; simpl; intuition discriminate.
  - reflexivity.
  - reflexivity.
  - reflexivity.
  - apply H. vm_compute. reflexivity.
Defined.

(** * The week shown ([App])

    Here a [Date] is read as its local calendar day, counted in days
    from 1970-01-01, a Thursday; [x.setDate(x.getDate() + k)] moves [x]
    by [k] calendar days, over the ends of months too. *)

Module Week.

Definition CalendarDay : Type := Z.

(** [getDay]: 0 for Sunday to 6 for Saturday. *)
Definition getDay (d : CalendarDay) : Z := (d + 4) mod 7.

(** [x.setDate(x.getDate() + k)] *)
Definition addDays (d : CalendarDay) (k : Z) : CalendarDay := d + k.

(** The first day of [weekDates]:
    [diff = getDate() - day + (day === 0 ? -6 : 1)], then [setDate(diff)]. *)
Definition startOfWeek (currentDate : CalendarDay) : CalendarDay :=
  let day := getDay currentDate in
  addDays currentDate (- day + (if day =? 0 then -6 else 1)).

Definition weekDates (currentDate : CalendarDay) : list CalendarDay :=
  map (fun i => addDays (startOfWeek currentDate) i) (upTo 7).

Definition handlePrevWeek (prev : CalendarDay) : CalendarDay :=
  addDays prev (- 7).

Definition handleNextWeek (prev : CalendarDay) : CalendarDay :=
  addDays prev 7.

End Week.

Lemma startOfWeek_spec (d : Z) :
  Week.getDay (Week.startOfWeek d) = 1
  /\ Week.startOfWeek d <= d <= Week.startOfWeek d + 6.
Proof.
  unfold Week.startOfWeek, Week.getDay, Week.addDays. cbv zeta.
  destruct (Z.eqb_spec ((d + 4) mod 7) 0) as [E | N];
    split; Z.div_mod_to_equations; lia.
Qed.

Lemma startOfWeek_same (d x : Z) :
  Week.startOfWeek d <= x <= Week.startOfWeek d + 6 ->
  Week.startOfWeek x = Week.startOfWeek d.
Proof.
  intros H. destruct (startOfWeek_spec d) as [Md _].
  destruct (startOfWeek_spec x) as [Mx Bx].
  unfold Week.getDay in Md, Mx.
  Z.div_mod_to_equations. lia.
Qed.

(** X26: the week shown starts on a Monday, has seven consecutive days
    and holds the current date; every day of that week shows the same
    week. *)
Theorem X26_week_of_a_day (currentDate : Week.CalendarDay) :
  Week.weekDates currentDate
  = [Week.startOfWeek currentDate; Week.startOfWeek currentDate + 1;
     Week.startOfWeek currentDate + 2; Week.startOfWeek currentDate + 3;
     Week.startOfWeek currentDate + 4; Week.startOfWeek currentDate + 5;
     Week.startOfWeek currentDate + 6]
  /\ Week.getDay (Week.startOfWeek currentDate) = 1
  /\ In currentDate (Week.weekDates currentDate)
  /\ forall x, In x (Week.weekDates currentDate) ->
               Week.weekDates x = Week.weekDates currentDate.
Proof.
  assert (E : Week.weekDates currentDate
              = [Week.startOfWeek currentDate;
                 Week.startOfWeek currentDate + 1;
                 Week.startOfWeek currentDate + 2;
                 Week.startOfWeek currentDate + 3;
                 Week.startOfWeek currentDate + 4;
                 Week.startOfWeek currentDate + 5;
                 Week.startOfWeek currentDate + 6]).
  { unfold Week.weekDates, Week.addDays. cbn [upTo map seq Z.of_nat].
    now rewrite Z.add_0_r. }
  assert (M : forall x, In x (Week.weekDates currentDate)
                        <-> Week.startOfWeek currentDate <= x
                            <= Week.startOfWeek currentDate + 6).
  { intros x. rewrite E. simpl. lia. }
  destruct (startOfWeek_spec currentDate) as [Mon B].
  split; [exact E|]. split; [exact Mon|]. split; [now apply M|].
  intros x Hx. apply M in Hx. unfold Week.weekDates.
  now rewrite (startOfWeek_same currentDate x Hx).
Qed.

Lemma X26_week_of_a_day_witness :
  Week.weekDates 19846 = Week.weekDates 19844.
Proof.
  destruct (X26_week_of_a_day 19844) as [_ [_ [_ H]]].
  apply H. vm_compute. tauto.
Defined.

(** X27: the next week is the week shown moved by seven days and begins
    the day after the week shown ends; going to the next week and back,
    or back and forth, returns to the same date. *)
Theorem X27_next_and_previous_week (currentDate : Week.CalendarDay) :
  Week.weekDates (Week.handleNextWeek currentDate)
  = map (fun d => d + 7) (Week.weekDates currentDate)
  /\ Week.weekDates (Week.handlePrevWeek currentDate)
     = map (fun d => d - 7) (Week.weekDates currentDate)
  /\ Week.startOfWeek (Week.handleNextWeek currentDate)
     = Week.startOfWeek currentDate + 6 + 1
  /\ Week.handlePrevWeek (Week.handleNextWeek currentDate) = currentDate
  /\ Week.handleNextWeek (Week.handlePrevWeek currentDate) = currentDate.
Proof.
  assert (N : Week.startOfWeek (Week.handleNextWeek currentDate)
              = Week.startOfWeek currentDate + 7).
  { unfold Week.startOfWeek, Week.handleNextWeek, Week.getDay, Week.addDays.
    cbv zeta.
    replace ((currentDate + 7 + 4) mod 7) with ((currentDate + 4) mod 7)
      by (Z.div_mod_to_equations; lia).
    lia. }
  assert (P : Week.startOfWeek (Week.handlePrevWeek currentDate)
              = Week.startOfWeek currentDate - 7).
  { unfold Week.startOfWeek, Week.handlePrevWeek, Week.getDay, Week.addDays.
    cbv zeta.
    replace ((currentDate + - 7 + 4) mod 7) with ((currentDate + 4) mod 7)
      by (Z.div_mod_to_equations; lia).
    lia. }
  unfold Week.weekDates. rewrite N, P, !map_map.
  split; [apply map_ext; intros i; unfold Week.addDays; lia|].
  split; [apply map_ext; intros i; unfold Week.addDays; lia|].
  split; [lia|].
  unfold Week.handlePrevWeek, Week.handleNextWeek, Week.addDays.
  split; lia.
Qed.
